(** * crypto-price-tracker: the subscription core, embedded in Rocq

    The development follows the TypeScript sources of the server:

    - [utils/tradingview.ts]  : [parsePrice];
    - [core/TickerSubscriptionManager.ts] : the reference-counted registry of
      live pages, the event emitter used as update bus, the last-price cache;
    - [server.ts] : the two stream handlers [streamPrices] and [watchPrices]
      with their push-to-pull queues.

    Asynchronous code is embedded as a step machine: one step is one
    synchronous segment of the source (the code between two suspension
    points), and the completion of an external operation (a page that opens,
    fails to open, or closes) is a step of its own, taken by the environment.
    JavaScript strings are modelled by [string]; the text functions treat
    the 7-bit ASCII range as JavaScript does and leave other characters
    alone (ticker symbols are ASCII).

    A completion step runs the continuation of the operation up to the
    settlement of its promise, with the handlers chained on it ([catch],
    [finally]) and the resumption of the calls that await it: the micro-task
    turns inside one completion are not interleaved with other calls. *)

From stdpp Require Import base gmap sets list strings.
From Stdlib Require Import ZArith NArith Ascii String Lia.

Local Open Scope string_scope.
Local Open Scope list_scope.
Local Open Scope Z_scope.

(* ===================================================================== *)
(** ** Text: [trim], [toUpperCase], the price-cleaning regular expressions *)
(* ===================================================================== *)

Module Text.

(** White space and line terminators of [String.prototype.trim] in the
    ASCII range: TAB, LF, VT, FF, CR and SPACE. *)
Definition isWhiteSpace (c : ascii) : bool :=
  let n := N_of_ascii c in
  ((9 <=? n) && (n <=? 13) || (n =? 32))%N.

Definition isLower (c : ascii) : bool :=
  let n := N_of_ascii c in ((97 <=? n) && (n <=? 122))%N.

Definition upperChar (c : ascii) : ascii :=
  if isLower c then ascii_of_N (N_of_ascii c - 32) else c.

(** [\d] *)
Definition isDigit (c : ascii) : bool :=
  let n := N_of_ascii c in ((48 <=? n) && (n <=? 57))%N.

Fixpoint dropWhite (l : list ascii) : list ascii :=
  match l with
  | c :: l' => if isWhiteSpace c then dropWhite l' else l
  | [] => []
  end.

Definition trimChars (l : list ascii) : list ascii :=
  rev (dropWhite (rev (dropWhite l))).

(** [s.trim()] *)
Definition trim (s : string) : string :=
  string_of_list_ascii (trimChars (list_ascii_of_string s)).

(** [s.toUpperCase()] *)
Definition toUpperCase (s : string) : string :=
  string_of_list_ascii (map upperChar (list_ascii_of_string s)).

(** [tickerRaw.trim().toUpperCase()], the normalisation written out at the
    head of [subscribe], [unsubscribe] and of the handlers of [server.ts]. *)
Definition normalize (tickerRaw : string) : string :=
  toUpperCase (trim tickerRaw).

(** [s.replace(/[^\d.,\-]/g, '')] : keep digits, [.], [,] and [-]. *)
Definition keptByPriceRegex (c : ascii) : bool :=
  isDigit c || Ascii.eqb c "." || Ascii.eqb c "," || Ascii.eqb c "-".

Definition isComma (c : ascii) : bool := Ascii.eqb c ",".

(** [input.replace(/[^\d.,\-]/g, '').replace(/,/g, '')] *)
Definition cleanPrice (input : string) : list ascii :=
  filter (λ c, isComma c = false)
         (filter (λ c, keptByPriceRegex c = true) (list_ascii_of_string input)).

End Text.

(* ===================================================================== *)
(** ** JavaScript numbers and [parseFloat] *)
(* ===================================================================== *)

Module Num.

(** A JavaScript number, as far as the sources look at it: not-a-number, an
    infinity, or a finite value.  A finite value is written as the decimal
    [(-1)^neg * mant / 10^scale]; the rounding of that decimal to the
    nearest binary64 value is not represented (no code of the repository
    depends on it), the overflow of the rounding to an infinity is. *)
Inductive number : Type :=
| Finite (neg : bool) (mant : N) (scale : nat)
| NaN
| Infinity (neg : bool).

#[global] Instance number_eq_dec : EqDecision number.
Proof. solve_decision. Defined.

(** [Number.isFinite(n)] *)
Definition isFinite (n : number) : bool :=
  match n with Finite _ _ _ => true | _ => false end.

Definition digitValue (c : ascii) : N := (N_of_ascii c - 48)%N.

(** Longest prefix of decimal digits, and the rest. *)
Fixpoint spanDigits (l : list ascii) : list ascii * list ascii :=
  match l with
  | c :: l' =>
      if Text.isDigit c
      then let '(ds, rest) := spanDigits l' in (c :: ds, rest)
      else ([], l)
  | [] => ([], [])
  end.

Definition digitsToN (ds : list ascii) : N :=
  fold_left (λ acc c, acc * 10 + digitValue c)%N ds 0%N.

(** A decimal rounds to an infinity exactly when its magnitude reaches
    [2^1024 - 2^970], half an ulp above the largest binary64 value. *)
Definition overflowBound : N := (2 ^ 1024 - 2 ^ 970)%N.

Definition roundsToInfinity (mant : N) (scale : nat) : bool :=
  (overflowBound * 10 ^ N.of_nat scale <=? mant)%N.

Definition mkNumber (neg : bool) (ip fp : list ascii) : number :=
  let mant := digitsToN (ip ++ fp) in
  let scale := List.length fp in
  if roundsToInfinity mant scale then Infinity neg else Finite neg mant scale.

(** [StrUnsignedDecimalLiteral] without exponent part: the longest prefix
    of the shape [digits], [digits . digits?] or [. digits]. *)
Definition parseUnsigned (neg : bool) (l : list ascii) : number :=
  let '(ip, rest) := spanDigits l in
  match rest with
  | c :: rest' =>
      if Ascii.eqb c "."
      then let '(fp, _) := spanDigits rest' in
           match ip, fp with
           | [], [] => NaN
           | _, _ => mkNumber neg ip fp
           end
      else match ip with [] => NaN | _ => mkNumber neg ip [] end
  | [] => match ip with [] => NaN | _ => mkNumber neg ip [] end
  end.

(** [parseFloat(s)]: leading white space is skipped, an optional sign is
    read, then the longest prefix that is a decimal literal; [NaN] when
    there is none.  The exponent part and the literal [Infinity] are not
    read: they need letters, which [Text.cleanPrice] has removed from every
    string this function is applied to. *)
Definition parseFloat (l : list ascii) : number :=
  match Text.dropWhite l with
  | c :: l' =>
      if Ascii.eqb c "-" then parseUnsigned true l'
      else if Ascii.eqb c "+" then parseUnsigned false l'
      else parseUnsigned false (c :: l')
  | [] => NaN
  end.

End Num.

(* ===================================================================== *)
(** ** [utils/tradingview.ts] *)
(* ===================================================================== *)

Module TradingView.

Import Num.

(** [parsePrice(input: string | null | undefined): number | null].
    [None] as input stands for [null] and [undefined], [None] as result for
    [null].  [!input] holds for [null], [undefined] and the empty string. *)
Definition parsePrice (input : option string) : option number :=
  match input with
  | None => None
  | Some "" => None
  | Some s =>
      let cleaned := Text.cleanPrice s in
      let n := parseFloat cleaned in
      if isFinite n then Some n else None
  end.

(** [export const BINANCE_EXCHANGE = 'BINANCE'] *)
Definition BINANCE_EXCHANGE : string := "BINANCE".

(** The characters that [encodeURIComponent] leaves as they are: letters,
    digits and [- _ . ! ~ * ' ( )]. *)
Definition isUnreserved (c : ascii) : bool :=
  let n := N_of_ascii c in
  (((65 <=? n) && (n <=? 90)) || ((97 <=? n) && (n <=? 122))
   || ((48 <=? n) && (n <=? 57))
   || (n =? 45) || (n =? 95) || (n =? 46) || (n =? 33) || (n =? 126)
   || (n =? 42) || (n =? 39) || (n =? 40) || (n =? 41))%N.

(** One upper-case hexadecimal digit. *)
Definition hexDigit (n : N) : ascii :=
  if (n <? 10)%N then ascii_of_N (48 + n) else ascii_of_N (55 + n).

(** [%XX] for one byte. *)
Definition percentByte (b : N) : list ascii :=
  ["%"%char; hexDigit (b / 16); hexDigit (b mod 16)].

(** The UTF-8 bytes of a code point below 256. *)
Definition utf8 (n : N) : list N :=
  if (n <? 128)%N then [n] else [(192 + n / 64)%N; (128 + n mod 64)%N].

Definition encodeChar (c : ascii) : list ascii :=
  if isUnreserved c then [c] else flat_map percentByte (utf8 (N_of_ascii c)).

(** [encodeURIComponent(s)], for strings of code units below 256. *)
Definition encodeURIComponent (s : string) : string :=
  string_of_list_ascii (flat_map encodeChar (list_ascii_of_string s)).

(** [buildSymbolUrl(ticker: string): string] *)
Definition buildSymbolUrl (ticker : string) : string :=
  let clean := Text.toUpperCase (Text.trim ticker) in
  "https://www.tradingview.com/symbols/" +:+ encodeURIComponent clean
    +:+ "/?exchange=" +:+ encodeURIComponent BINANCE_EXCHANGE.

End TradingView.

(* ===================================================================== *)
(** ** [core/TickerSubscriptionManager.ts] *)
(* ===================================================================== *)

Module Manager.

Import Num.

(** A Playwright page is known by the rank of the [context.newPage()] call
    that made it, a callback by a number standing for the identity of the
    function object, and a call of an [async] method by a number chosen by
    the caller. *)
Abbreviation Page := nat (only parsing).
Abbreviation Handler := nat (only parsing).
Abbreviation Caller := nat (only parsing).

(** [type PriceUpdate = { ticker; price; ts; source: 'tradingview' }] *)
Record PriceUpdate : Type := mkPriceUpdate {
  ticker : string;
  price : number;
  ts : Z;
  source : string;
}.

#[global] Instance PriceUpdate_eq_dec : EqDecision PriceUpdate.
Proof. solve_decision. Defined.

(** The argument of the page binding [pushPriceUpdate]. *)
Record Payload : Type := mkPayload {
  payload_price : number;
  payload_ts : Z;
}.

(** What a suspended call waits for.  At most one open and one close are in
    flight per ticker ([starting] and [closing] hold one promise per key), so
    the promise is named by its ticker. *)
Inductive Pending : Type :=
| Opening (ticker : string)
| Closing (ticker : string).

#[global] Instance Pending_eq_dec : EqDecision Pending.
Proof. solve_decision. Defined.

Inductive Outcome : Type := Resolved | Rejected.

#[global] Instance Outcome_eq_dec : EqDecision Outcome.
Proof. solve_decision. Defined.

(** The fields of the class, followed by what the embedding records of the
    run time: suspended and settled calls, the [setImmediate] queue, and the
    calls made to the collaborators.  The promise stored in [starting] (in
    [closing]) is identified with the page being opened (closed). *)
Record State : Type := mkState {
  (* [private pages = new Map<string, Page>()] *)
  pages : gmap string Page;
  (* [private refCounts = new Map<string, number>()] *)
  refCounts : gmap string Z;
  (* [private starting = new Map<string, Promise<void>>()] *)
  starting : gmap string Page;
  (* [private closing = new Map<string, Promise<void>>()] *)
  closing : gmap string Page;
  (* [private lastPrices = new Map<string, PriceUpdate>()] *)
  lastPrices : gmap string PriceUpdate;
  (* [private emitter = new EventEmitter()]: the listeners of each event *)
  emitter : gmap string (list Handler);
  (* calls suspended at an [await], and what they wait for *)
  awaiting : list (Caller * Pending);
  (* calls whose promise has settled, oldest first *)
  settled : list (Caller * Outcome);
  (* the [setImmediate] queue, oldest first *)
  immediates : list (Handler * PriceUpdate);
  (* [context.newPage()] calls issued, by ticker, oldest first *)
  opened : list string;
  (* [page.close()] calls issued, by ticker, oldest first *)
  closed : list string;
  (* callback invocations, oldest first *)
  delivered : list (Handler * PriceUpdate);
}.

Definition upd_pages (f : gmap string Page → gmap string Page)
    (s : State) : State :=
  {| pages := f (pages s); refCounts := refCounts s; starting := starting s;
     closing := closing s; lastPrices := lastPrices s; emitter := emitter s;
     awaiting := awaiting s; settled := settled s;
     immediates := immediates s; opened := opened s; closed := closed s;
     delivered := delivered s |}.

Definition upd_refCounts (f : gmap string Z → gmap string Z)
    (s : State) : State :=
  {| pages := pages s; refCounts := f (refCounts s); starting := starting s;
     closing := closing s; lastPrices := lastPrices s; emitter := emitter s;
     awaiting := awaiting s; settled := settled s;
     immediates := immediates s; opened := opened s; closed := closed s;
     delivered := delivered s |}.

Definition upd_starting (f : gmap string Page → gmap string Page)
    (s : State) : State :=
  {| pages := pages s; refCounts := refCounts s; starting := f (starting s);
     closing := closing s; lastPrices := lastPrices s; emitter := emitter s;
     awaiting := awaiting s; settled := settled s;
     immediates := immediates s; opened := opened s; closed := closed s;
     delivered := delivered s |}.

Definition upd_closing (f : gmap string Page → gmap string Page)
    (s : State) : State :=
  {| pages := pages s; refCounts := refCounts s; starting := starting s;
     closing := f (closing s); lastPrices := lastPrices s;
     emitter := emitter s; awaiting := awaiting s; settled := settled s;
     immediates := immediates s; opened := opened s; closed := closed s;
     delivered := delivered s |}.

Definition upd_lastPrices (f : gmap string PriceUpdate → gmap string PriceUpdate)
    (s : State) : State :=
  {| pages := pages s; refCounts := refCounts s; starting := starting s;
     closing := closing s; lastPrices := f (lastPrices s);
     emitter := emitter s; awaiting := awaiting s; settled := settled s;
     immediates := immediates s; opened := opened s; closed := closed s;
     delivered := delivered s |}.

Definition upd_emitter (f : gmap string (list Handler) → gmap string (list Handler))
    (s : State) : State :=
  {| pages := pages s; refCounts := refCounts s; starting := starting s;
     closing := closing s; lastPrices := lastPrices s;
     emitter := f (emitter s); awaiting := awaiting s; settled := settled s;
     immediates := immediates s; opened := opened s; closed := closed s;
     delivered := delivered s |}.

Definition upd_awaiting (f : list (Caller * Pending) → list (Caller * Pending))
    (s : State) : State :=
  {| pages := pages s; refCounts := refCounts s; starting := starting s;
     closing := closing s; lastPrices := lastPrices s; emitter := emitter s;
     awaiting := f (awaiting s); settled := settled s;
     immediates := immediates s; opened := opened s; closed := closed s;
     delivered := delivered s |}.

Definition upd_settled (f : list (Caller * Outcome) → list (Caller * Outcome))
    (s : State) : State :=
  {| pages := pages s; refCounts := refCounts s; starting := starting s;
     closing := closing s; lastPrices := lastPrices s; emitter := emitter s;
     awaiting := awaiting s; settled := f (settled s);
     immediates := immediates s; opened := opened s; closed := closed s;
     delivered := delivered s |}.

Definition upd_immediates (f : list (Handler * PriceUpdate) → list (Handler * PriceUpdate))
    (s : State) : State :=
  {| pages := pages s; refCounts := refCounts s; starting := starting s;
     closing := closing s; lastPrices := lastPrices s; emitter := emitter s;
     awaiting := awaiting s; settled := settled s;
     immediates := f (immediates s); opened := opened s; closed := closed s;
     delivered := delivered s |}.

Definition upd_opened (f : list string → list string) (s : State) : State :=
  {| pages := pages s; refCounts := refCounts s; starting := starting s;
     closing := closing s; lastPrices := lastPrices s; emitter := emitter s;
     awaiting := awaiting s; settled := settled s;
     immediates := immediates s; opened := f (opened s); closed := closed s;
     delivered := delivered s |}.

Definition upd_closed (f : list string → list string) (s : State) : State :=
  {| pages := pages s; refCounts := refCounts s; starting := starting s;
     closing := closing s; lastPrices := lastPrices s; emitter := emitter s;
     awaiting := awaiting s; settled := settled s;
     immediates := immediates s; opened := opened s; closed := f (closed s);
     delivered := delivered s |}.

Definition upd_delivered (f : list (Handler * PriceUpdate) → list (Handler * PriceUpdate))
    (s : State) : State :=
  {| pages := pages s; refCounts := refCounts s; starting := starting s;
     closing := closing s; lastPrices := lastPrices s; emitter := emitter s;
     awaiting := awaiting s; settled := settled s;
     immediates := immediates s; opened := opened s; closed := closed s;
     delivered := f (delivered s) |}.
Definition initial : State :=
  {| pages := ∅; refCounts := ∅; starting := ∅; closing := ∅;
     lastPrices := ∅; emitter := ∅; awaiting := []; settled := [];
     immediates := []; opened := []; closed := []; delivered := [] |}.

(** *** Run-time helpers *)

(** The call [c] returns: its promise resolves. *)
Definition resolve (c : Caller) : State → State :=
  upd_settled (λ l, l ++ [(c, Resolved)]).

(** The call [c] suspends on the promise [p]. *)
Definition await (c : Caller) (p : Pending) : State → State :=
  upd_awaiting (λ l, l ++ [(c, p)]).

(** The promise [p] settles with [o]: every call that awaits it settles
    the same way, in the order in which the calls suspended. *)
Definition settle (p : Pending) (o : Outcome) (s : State) : State :=
  let woken := filter (λ cp, cp.2 = p) (awaiting s) in
  upd_settled (λ l, l ++ map (λ cp, (cp.1, o)) woken)
    (upd_awaiting (filter (λ cp, cp.2 ≠ p)) s).

(** *** The event emitter (Node's [EventEmitter]) *)

(** [emitter.listeners(key)] *)
Definition listeners (key : string) (s : State) : list Handler :=
  default [] (emitter s !! key).

(** [emitter.on(key, h)]: the listener is appended, also when it is there
    already. *)
Definition on (key : string) (h : Handler) (s : State) : State :=
  upd_emitter (<[key := listeners key s ++ [h]]>) s.

(** Removal of the most recently added instance of [h]. *)
Fixpoint removeLast (h : Handler) (l : list Handler) : list Handler :=
  match l with
  | [] => []
  | x :: l' =>
      if decide (x = h)
      then if decide (h ∈ l') then x :: removeLast h l' else l'
      else x :: removeLast h l'
  end.

(** [emitter.off(key, h)]: Node's [removeListener] scans the listener array
    from its end and removes at most one instance; the event name is
    deleted with its last listener. *)
Definition off (key : string) (h : Handler) (s : State) : State :=
  let l := listeners key s in
  if decide (h ∈ l)
  then match removeLast h l with
       | [] => upd_emitter (delete key) s
       | l' => upd_emitter (<[key := l']>) s
       end
  else s.

(** [emitter.emit(key, u)]: every listener of [key] is called with [u], in
    the order of attachment. *)
Definition emit (key : string) (u : PriceUpdate) (s : State) : State :=
  upd_delivered (λ d, d ++ map (λ h, (h, u)) (listeners key s)) s.

(** *** The methods of [TickerSubscriptionManager] *)

(** [getActiveTickers(): string[]].  The source returns the keys in
    insertion order; the embedding returns the same keys in the order of
    the map representation. *)
Definition getActiveTickers (s : State) : list string :=
  (map_to_list (pages s)).*1.

(** [private topicKey(ticker)] *)
Definition topicKey (ticker : string) : string :=
  "price-update:" +:+ ticker.

(** The closure [() => this.emitter.off(key, handler)] returned by
    [onPrice]. *)
Record Detach : Type := mkDetach {
  detach_key : string;
  detach_handler : Handler;
}.

Definition runDetach (d : Detach) : State → State :=
  off (detach_key d) (detach_handler d).

(** [onPrice(ticker, handler): () => void] *)
Definition onPrice (ticker : string) (handler : Handler) (s : State)
  : State * Detach :=
  let key := topicKey ticker in
  let s := on key handler s in
  let s :=
    match lastPrices s !! ticker with
    | Some lastPrice => upd_immediates (λ q, q ++ [(handler, lastPrice)]) s
    | None => s
    end in
  (s, {| detach_key := key; detach_handler := handler |}).

(** [private async ensurePage(ticker)], up to its first suspension.  The
    body of the inner [async] function runs synchronously up to
    [await this.context.newPage()]: the open call is issued before
    [starting.set]. *)
Definition ensurePage (c : Caller) (ticker : string) (s : State) : State :=
  if decide (is_Some (pages s !! ticker)) then resolve c s
  else if decide (is_Some (starting s !! ticker)) then await c (Opening ticker) s
  else
    let page := List.length (opened s) in
    let s := upd_opened (λ l, l ++ [ticker]) s in
    let s := upd_starting (<[ticker := page]>) s in
    await c (Opening ticker) s.

(** [async subscribe(tickerRaw)], up to its first suspension. *)
Definition subscribe (c : Caller) (tickerRaw : string) (s : State) : State :=
  let ticker := Text.normalize tickerRaw in
  let current := default 0 (refCounts s !! ticker) in
  let s := upd_refCounts (<[ticker := current + 1]>) s in
  if decide (current = 0) then ensurePage c ticker s else resolve c s.

(** [private async stopPage(ticker)], up to its first suspension.  A page
    found in [pages] is not closed yet (its [close] event removes it), so
    [page.close()] is called. *)
Definition stopPage (c : Caller) (ticker : string) (s : State) : State :=
  match pages s !! ticker with
  | None => resolve c s
  | Some page =>
      if decide (is_Some (closing s !! ticker)) then await c (Closing ticker) s
      else
        let s := upd_closed (λ l, l ++ [ticker]) s in
        let s := upd_closing (<[ticker := page]>) s in
        await c (Closing ticker) s
  end.

(** [async unsubscribe(tickerRaw)], up to its first suspension. *)
Definition unsubscribe (c : Caller) (tickerRaw : string) (s : State) : State :=
  let ticker := Text.normalize tickerRaw in
  let current := default 0 (refCounts s !! ticker) in
  if decide (current ≤ 1)
  then stopPage c ticker (upd_refCounts (delete ticker) s)
  else resolve c (upd_refCounts (<[ticker := current - 1]>) s).

(** *** Completions, taken by the environment *)

(** The body of the inner function of [ensurePage] reaches its end:
    [this.pages.set(ticker, page)], then the [finally] handler
    [this.starting.delete(ticker)]; the callers that await the promise
    resume. *)
Definition openSucceeds (ticker : string) (s : State) : State :=
  match starting s !! ticker with
  | None => s
  | Some page =>
      let s := upd_pages (<[ticker := page]>) s in
      let s := upd_starting (delete ticker) s in
      settle (Opening ticker) Resolved s
  end.

(** The body throws (the page cannot be created, [goto] times out, no price
    element is found): the [catch] handler rolls one reference back,
    [this.pages.get(ticker)?.close()] finds no page, [pages.delete], and the
    error is thrown again to the callers that await the promise; [finally]
    removes the promise from [starting]. *)
Definition openFails (ticker : string) (s : State) : State :=
  match starting s !! ticker with
  | None => s
  | Some _ =>
      let s :=
        upd_refCounts
          (λ r, <[ticker := Z.max 0 (default 1 (r !! ticker) - 1)]> r) s in
      let s := upd_pages (delete ticker) s in
      let s := upd_starting (delete ticker) s in
      settle (Opening ticker) Rejected s
  end.

(** [page.close()] settles: the rest of the body of [stopPage],
    [this.pages.delete(ticker)], then [finally]. *)
Definition closeCompletes (ticker : string) (s : State) : State :=
  match closing s !! ticker with
  | None => s
  | Some _ =>
      let s := upd_pages (delete ticker) s in
      let s := upd_closing (delete ticker) s in
      settle (Closing ticker) Resolved s
  end.

(** [page.on('close', () => { this.pages.delete(ticker) })] *)
Definition pageClosed (ticker : string) : State → State :=
  upd_pages (delete ticker).

(** The binding [pushPriceUpdate] of the page opened for [ticker], called
    from the page with [payload] ([None]: no payload) when the clock reads
    [now]. *)
Definition pushPriceUpdate (ticker : string) (payload : option Payload)
    (now : Z) (s : State) : State :=
  match payload with
  | Some p =>
      if isFinite (payload_price p)
      then
        let update :=
          {| ticker := ticker;
             price := payload_price p;
             ts := if decide (payload_ts p = 0) then now else payload_ts p;
             source := "tradingview" |} in
        let s := upd_lastPrices (<[ticker := update]>) s in
        emit (topicKey ticker) update s
      else s
  | None => s
  end.

(** The oldest [setImmediate] callback runs: [() => handler(lastPrice)]. *)
Definition runImmediate (s : State) : State :=
  match immediates s with
  | [] => s
  | hu :: q => upd_delivered (λ d, d ++ [hu]) (upd_immediates (λ _, q) s)
  end.

(** *** The step machine *)

Inductive Event : Type :=
| Subscribe (c : Caller) (tickerRaw : string)
| Unsubscribe (c : Caller) (tickerRaw : string)
| OpenSucceeds (ticker : string)
| OpenFails (ticker : string)
| CloseCompletes (ticker : string)
| PageClosed (ticker : string)
| PushPriceUpdate (ticker : string) (payload : option Payload) (now : Z)
| OnPrice (ticker : string) (handler : Handler)
| RunDetach (d : Detach)
| RunImmediate.

Definition step (e : Event) (s : State) : State :=
  match e with
  | Subscribe c tickerRaw => subscribe c tickerRaw s
  | Unsubscribe c tickerRaw => unsubscribe c tickerRaw s
  | OpenSucceeds ticker => openSucceeds ticker s
  | OpenFails ticker => openFails ticker s
  | CloseCompletes ticker => closeCompletes ticker s
  | PageClosed ticker => pageClosed ticker s
  | PushPriceUpdate ticker payload now => pushPriceUpdate ticker payload now s
  | OnPrice ticker handler => (onPrice ticker handler s).1
  | RunDetach d => runDetach d s
  | RunImmediate => runImmediate s
  end.

(** The events of a trace, oldest first. *)
Definition run (tr : list Event) (s : State) : State :=
  fold_left (λ s e, step e s) tr s.

(** The reference count as the code reads it: [refCounts.get(t) ?? 0]. *)
Definition refCount (ticker : string) (s : State) : Z :=
  default 0 (refCounts s !! ticker).

(** No open and no close is in flight. *)
Definition quiescent (s : State) : Prop :=
  starting s = ∅ ∧ closing s = ∅.

End Manager.

(* ===================================================================== *)
(** ** The script that [attachPriceObserver] injects, and the selectors *)
(* ===================================================================== *)

Module Inject.

Import Num.

(** [toNumber] of the injected script. *)
Definition toNumber (text : string) : option number :=
  let cleaned := Text.cleanPrice text in
  let n := parseFloat cleaned in
  if isFinite n then Some n else None.

(** [publish(text)] of the injected script, run in the page when its clock
    reads [now]: the argument of the call of [window.pushPriceUpdate], if
    the call is made.  [None] as text stands for [null] and [undefined]. *)
Definition publish (text : option string) (now : Z) : option Manager.Payload :=
  match text with
  | None => None
  | Some "" => None
  | Some t =>
      match toNumber t with
      | Some price =>
          Some {| Manager.payload_price := price; Manager.payload_ts := now |}
      | None => None
      end
  end.

(** [resolveFirstSelector(page, selectors, timeoutMs)].  [start] is the
    first reading of [Date.now()]; for each selector that is tried, [env]
    gives the reading of [Date.now()] at the head of the loop and whether
    [page.waitForSelector] resolves.  The result is the selector returned
    ([None] for [null]) with the [timeout] options passed to
    [waitForSelector], oldest first. *)
Fixpoint resolveFirstSelector (start timeoutMs : Z) (selectors : list string)
    (env : list (Z * bool)) : option string * list Z :=
  match selectors, env with
  | sel :: selectors', (now, resolves) :: env' =>
      let timeLeft := Z.max 0 (timeoutMs - (now - start)) in
      let timeout := Z.min 10000 timeLeft in
      if resolves then (Some sel, [timeout])
      else
        let '(r, ts) := resolveFirstSelector start timeoutMs selectors' env' in
        (r, timeout :: ts)
  | _, _ => (None, [])
  end.

End Inject.

(* ===================================================================== *)
(** ** [server.ts] *)
(* ===================================================================== *)

Module Server.

Import Num.

(** [ServerStreamResponse] with [message = { case: 'priceUpdate', value }],
    where [value] is the protobuf [PriceUpdate] built by [onUpdate]:
    [price: String(update.price)] is represented by the number whose
    string it is, [timestamp: BigInt(update.ts)] by the integer. *)
Record ServerStreamResponse : Type := mkResponse {
  msg_ticker : string;
  msg_price : number;
  msg_timestamp : Z;
}.

#[global] Instance ServerStreamResponse_eq_dec : EqDecision ServerStreamResponse.
Proof. solve_decision. Defined.

Definition toResponse (update : Manager.PriceUpdate) : ServerStreamResponse :=
  {| msg_ticker := Manager.ticker update;
     msg_price := Manager.price update;
     msg_timestamp := Manager.ts update |}.

(** The variables [pending] and [resolveNext] that each stream handler
    closes over.  A promise made by [tryDequeue] is known by its rank;
    [resolveNext = Some p] holds the [resolve] function of promise [p].
    [resolutions] records the calls of [resolve] functions: the promise and
    the value it was resolved with ([None] for [null]). *)
Record Queue : Type := mkQueue {
  pending : list ServerStreamResponse;
  resolveNext : option nat;
  promises : nat;
  resolutions : list (nat * option ServerStreamResponse);
}.

Definition emptyQueue : Queue :=
  {| pending := []; resolveNext := None; promises := 0%nat; resolutions := [] |}.

(** What the caller of [await tryDequeue()] gets: a value at once
    ([None] is [null]), or a promise that is still pending. *)
Inductive Pull : Type :=
| Ready (v : option ServerStreamResponse)
| Suspended (p : nat).

(** [pending.shift()!] *)
Definition shift (q : Queue) : Queue :=
  {| pending := tail (pending q); resolveNext := resolveNext q;
     promises := promises q; resolutions := resolutions q |}.

(** [new Promise((resolve) => (resolveNext = resolve))] *)
Definition suspend (q : Queue) : Pull * Queue :=
  (Suspended (promises q),
   {| pending := pending q; resolveNext := Some (promises q);
      promises := S (promises q); resolutions := resolutions q |}).

(** The tail of both [onUpdate] functions:
    [if (resolveNext) { resolveNext(msg); resolveNext = null }
     else { pending.push(msg) }] *)
Definition push (msg : ServerStreamResponse) (q : Queue) : Queue :=
  match resolveNext q with
  | Some p =>
      {| pending := pending q; resolveNext := None; promises := promises q;
         resolutions := resolutions q ++ [(p, Some msg)] |}
  | None =>
      {| pending := pending q ++ [msg]; resolveNext := None;
         promises := promises q; resolutions := resolutions q |}
  end.

(** *** [streamPrices] *)

Module StreamPrices.

(** [subscribed] and the queue variables of one call of [streamPrices]. *)
Record Stream : Type := mkStream {
  subscribed : gset string;
  queue : Queue;
}.

Definition start : Stream := {| subscribed := ∅; queue := emptyQueue |}.

(** [tryDequeue] of [streamPrices] *)
Definition tryDequeue (q : Queue) : Pull * Queue :=
  match pending q with
  | msg :: _ => (Ready (Some msg), shift q)
  | [] => suspend q
  end.

(** [onUpdate] of [streamPrices] *)
Definition onUpdate (update : Manager.PriceUpdate) (st : Stream) : Stream :=
  if decide (Manager.ticker update ∈ subscribed st)
  then {| subscribed := subscribed st;
          queue := push (toResponse update) (queue st) |}
  else st.

End StreamPrices.

(** *** [watchPrices] *)

Module WatchPrices.

(** The variables of one call of [watchPrices].  [subscribed] is a [Set]
    that the code iterates: a duplicate-free list in insertion order.
    [onUpdate_id] is the identity of the function [onUpdate] of this call,
    which is the callback passed to [manager.onPrice]. *)
Record Stream : Type := mkStream {
  subscribed : list string;
  offMap : gmap string Manager.Detach;
  queue : Queue;
  streamClosed : bool;
  onUpdate_id : Manager.Handler;
}.

Definition upd_queue (f : Queue → Queue) (w : Stream) : Stream :=
  {| subscribed := subscribed w; offMap := offMap w; queue := f (queue w);
     streamClosed := streamClosed w; onUpdate_id := onUpdate_id w |}.

(** [tryDequeue] of [watchPrices] *)
Definition tryDequeue (w : Stream) : Pull * Stream :=
  match pending (queue w) with
  | msg :: _ => (Ready (Some msg), upd_queue shift w)
  | [] =>
      if streamClosed w then (Ready None, w)
      else let '(r, q) := suspend (queue w) in (r, upd_queue (λ _, q) w)
  end.

(** [onUpdate] of [watchPrices] *)
Definition onUpdate (update : Manager.PriceUpdate) (w : Stream) : Stream :=
  upd_queue (push (toResponse update)) w.

(** The manager and one watch stream. *)
Abbreviation World := (Manager.State * Stream)%type (only parsing).

(** [subscribeToTicker] *)
Definition subscribeToTicker (ticker : string) (mw : World) : World :=
  let '(m, w) := mw in
  if decide (ticker ∈ subscribed w) then (m, w)
  else
    let '(m', off) := Manager.onPrice ticker (onUpdate_id w) m in
    (m', {| subscribed := subscribed w ++ [ticker];
            offMap := <[ticker := off]> (offMap w);
            queue := queue w; streamClosed := streamClosed w;
            onUpdate_id := onUpdate_id w |}).

(** The head of [watchPrices]: fresh variables, then a listener on every
    active ticker.  The request [req] is not read. *)
Definition start (h : Manager.Handler) (m : Manager.State) : World :=
  let w := {| subscribed := []; offMap := ∅; queue := emptyQueue;
              streamClosed := false; onUpdate_id := h |} in
  fold_left (λ mw ticker, subscribeToTicker ticker mw)
            (Manager.getActiveTickers m) (m, w).

(** The period of [setInterval], in milliseconds. *)
Definition checkIntervalMs : Z := 100.

(** One step of the second loop of the interval callback, for a ticker of
    [subscribed] that is not active any more. *)
Definition dropTicker (ticker : string) (mw : World) : World :=
  let '(m, w) := mw in
  let '(m', om) :=
    match offMap w !! ticker with
    | Some off => (Manager.runDetach off m, delete ticker (offMap w))
    | None => (m, offMap w)
    end in
  (m', {| subscribed := filter (λ t, t ≠ ticker) (subscribed w);
          offMap := om; queue := queue w; streamClosed := streamClosed w;
          onUpdate_id := onUpdate_id w |}).

(** The callback of [setInterval]. *)
Definition checkInterval (mw : World) : World :=
  let currentTickers := Manager.getActiveTickers mw.1 in
  let mw :=
    fold_left
      (λ mw ticker,
         if decide (ticker ∈ subscribed mw.2) then mw
         else subscribeToTicker ticker mw)
      currentTickers mw in
  fold_left
    (λ mw ticker,
       if decide (ticker ∈ currentTickers) then mw else dropTicker ticker mw)
    (subscribed mw.2) mw.

(** The [finally] block of [watchPrices], as far as the queue goes:
    [streamClosed = true].  (It then clears the interval, calls every
    function of [offMap] and empties [offMap] and [subscribed].) *)
Definition closeStream (w : Stream) : Stream :=
  {| subscribed := subscribed w; offMap := offMap w; queue := queue w;
     streamClosed := true; onUpdate_id := onUpdate_id w |}.

(** The callbacks that the manager has invoked are run on the stream: the
    callback of this stream is [onUpdate]. *)
Definition dispatch (calls : list (Manager.Handler * Manager.PriceUpdate))
    (w : Stream) : Stream :=
  fold_left
    (λ w hu, if decide (hu.1 = onUpdate_id w) then onUpdate hu.2 w else w)
    calls w.

(** A step of the manager, seen from the stream. *)
Definition managerStep (e : Manager.Event) (mw : World) : World :=
  let '(m, w) := mw in
  let m' := Manager.step e m in
  (m', dispatch (drop (List.length (Manager.delivered m)) (Manager.delivered m')) w).

End WatchPrices.

End Server.

(* ===================================================================== *)
(** ** Runs, scenarios and predicates used in the statements *)
(* ===================================================================== *)

Module Scenario.

Import Num Manager Server.

(** *** Text *)

(** A list that does not start with white space. *)
Definition headClean (l : list ascii) : Prop :=
  match l with c :: _ => Text.isWhiteSpace c = false | [] => True end.

(** *** Queues *)

(** [push] of every message of [msgs], oldest first. *)
Definition pushAll (msgs : list ServerStreamResponse) (q : Queue) : Queue :=
  fold_left (λ q msg, push msg q) msgs q.

(** [n] successive calls of [tryDequeue] of [streamPrices]. *)
Fixpoint drain (n : nat) (q : Queue) : list Pull * Queue :=
  match n with
  | O => ([], q)
  | S n' =>
      let '(r, q1) := StreamPrices.tryDequeue q in
      let '(rs, q2) := drain n' q1 in
      (r :: rs, q2)
  end.

(** What can happen to the queue of a [watchPrices] stream. *)
Inductive QueueOp : Type :=
| DoPull
| DoPush (update : Manager.PriceUpdate)
| DoClose.

Definition queueStep (op : QueueOp) (w : WatchPrices.Stream) : WatchPrices.Stream :=
  match op with
  | DoPull => (WatchPrices.tryDequeue w).2
  | DoPush update => WatchPrices.onUpdate update w
  | DoClose => WatchPrices.closeStream w
  end.

(** *** Prices *)

(** A state with a page for BTCUSD and a cached price of 50000. *)
Definition cachedBTC : State :=
  run [Subscribe 1 "BTCUSD"; OpenSucceeds "BTCUSD";
       PushPriceUpdate "BTCUSD" (Some (mkPayload (Finite false 50000 0) 1000)) 0]
      initial.

Definition btc (n : N) (at_ : Z) : PriceUpdate :=
  {| ticker := "BTCUSD"; price := Finite false n 0; ts := at_;
     source := "tradingview" |}.

(** Live updates: calls of the page bindings, oldest first. *)
Definition liveUpdates (live : list (string * option Payload * Z)) : list Event :=
  map (λ x, PushPriceUpdate x.1.1 x.1.2 x.2) live.

(** The check phase of the event loop: every queued [setImmediate]
    callback runs. *)
Definition drainImmediates (s : State) : State :=
  run (replicate (List.length (immediates s)) RunImmediate) s.

(** *** Calls run to completion, one after the other *)

Inductive Op : Type :=
| Acquire (c : Caller) (tickerRaw : string)
| Release (c : Caller) (tickerRaw : string).

Definition opSymbol (op : Op) : string :=
  match op with
  | Acquire _ tickerRaw | Release _ tickerRaw => Text.normalize tickerRaw
  end.

(** The call, then the completion of the open or of the close that it has
    started, if any: the open succeeds. *)
Definition perform (op : Op) (s : State) : State :=
  match op with
  | Acquire c tickerRaw =>
      openSucceeds (Text.normalize tickerRaw) (subscribe c tickerRaw s)
  | Release c tickerRaw =>
      closeCompletes (Text.normalize tickerRaw) (unsubscribe c tickerRaw s)
  end.

Definition runOps (ops : list Op) (s : State) : State :=
  fold_left (λ s op, perform op s) ops s.

Definition isAcquire (op : Op) : bool :=
  match op with Acquire _ _ => true | Release _ _ => false end.

Definition acquires (ops : list Op) : Z :=
  Z.of_nat (List.length (List.filter isAcquire ops)).

Definition releases (ops : list Op) : Z :=
  Z.of_nat (List.length (List.filter (λ op, negb (isAcquire op)) ops)).

(** The counter that is clamped at every step. *)
Definition clampStep (n : Z) (op : Op) : Z :=
  match op with
  | Acquire _ _ => n + 1
  | Release _ _ => Z.max 0 (n - 1)
  end.

Definition clampCount (ops : list Op) : Z := fold_left clampStep ops 0.

(** No prefix holds more releases than acquires. *)
Definition neverBelow (ops : list Op) : Prop :=
  ∀ pre, pre `prefix_of` ops → releases pre ≤ acquires pre.

(** Pages and reference counts agree and nothing is in flight. *)
Definition consistent (s : State) : Prop :=
  quiescent s ∧ ∀ t, is_Some (pages s !! t) ↔ 0 < refCount t s.

(** *** Watch streams *)

(** The stream listens to [t]. *)
Definition attached (t : string) (mw : State * WatchPrices.Stream) : Prop :=
  t ∈ WatchPrices.subscribed mw.2
  ∧ WatchPrices.onUpdate_id mw.2 ∈ listeners (topicKey t) mw.1.

(** The variables of the stream agree with the emitter: a ticker of
    [subscribed] has the listener attached, and [offMap] holds the
    functions that [onPrice] returned to this stream. *)
Definition wellFormed (mw : State * WatchPrices.Stream) : Prop :=
  (∀ t, t ∈ WatchPrices.subscribed mw.2 →
     WatchPrices.onUpdate_id mw.2 ∈ listeners (topicKey t) mw.1)
  ∧ (∀ t d, WatchPrices.offMap mw.2 !! t = Some d →
       d = {| detach_key := topicKey t;
              detach_handler := WatchPrices.onUpdate_id mw.2 |}).

(** The message is in the queue or has been handed to a waiting pull. *)
Definition reaches (msg : ServerStreamResponse) (w : WatchPrices.Stream) : Prop :=
  msg ∈ pending (WatchPrices.queue w)
  ∨ ∃ p, (p, Some msg) ∈ resolutions (WatchPrices.queue w).

End Scenario.

(* ===================================================================== *)
(** ** [server.ts]: the unary handlers and the actions of [streamPrices] *)
(* ===================================================================== *)

Module Handlers.

Import Manager Server.

(** [await manager.subscribe(ticker)] and [await manager.unsubscribe(ticker)]
    run to completion, with no other call in between: the call, then the
    completion of the open or of the close that it has started, if any.
    The open succeeds. *)
Definition subscribeDone (c : Caller) (ticker : string) (s : State) : State :=
  Scenario.perform (Scenario.Acquire c ticker) s.

Definition unsubscribeDone (c : Caller) (ticker : string) (s : State) : State :=
  Scenario.perform (Scenario.Release c ticker) s.

(** *** The unary methods *)

(** [const connectionSubscriptions = new Map<string, Set<string>>()] *)
Abbreviation Connections := (gmap string (gset string)) (only parsing).

(** [req.tickers.join(',')] *)
Definition connectionId (tickers : list string) : string :=
  String.concat "," tickers.

(** The loop of the unary [subscribe]: the manager and the array
    [subscribed]. *)
Definition subscribeLoop (c : Caller) (tickers : list string) (s : State)
  : State * list string :=
  fold_left
    (λ acc tickerRaw,
       let ticker := Text.normalize tickerRaw in
       if decide (ticker = "") then acc
       else (subscribeDone c ticker acc.1, acc.2 ++ [ticker]))
    tickers (s, []).

(** [async subscribe(req: SubscribeRequest)]: the manager, the connections
    and the field [subscribed] of the response ([success] is [true]). *)
Definition subscribe (c : Caller) (tickers : list string)
    (sc : State * Connections) : State * Connections * list string :=
  let '(s, conns) := sc in
  let id := connectionId tickers in
  let '(s', subscribed) := subscribeLoop c tickers s in
  let subs := default ∅ (conns !! id) in
  (s', <[id := subs ∪ list_to_set subscribed]> conns, subscribed).

(** One turn of the loop of the unary [unsubscribe]. *)
Definition unsubscribeTurn (c : Caller) (id : string)
    (acc : State * Connections * list string) (tickerRaw : string)
  : State * Connections * list string :=
  let '(s, conns, unsubscribed) := acc in
  let ticker := Text.normalize tickerRaw in
  if decide (ticker = "") then acc
  else
    let s' := unsubscribeDone c ticker s in
    let conns' :=
      match conns !! id with
      | Some subs =>
          let subs' := subs ∖ {[ticker]} in
          if decide (size subs' = 0%nat) then delete id conns
          else <[id := subs']> conns
      | None => conns
      end in
    (s', conns', unsubscribed ++ [ticker]).

(** [async unsubscribe(req: UnsubscribeRequest)] *)
Definition unsubscribe (c : Caller) (tickers : list string)
    (sc : State * Connections) : State * Connections * list string :=
  fold_left (unsubscribeTurn c (connectionId tickers)) tickers (sc.1, sc.2, []).

(** *** [streamPrices]: the actions of the client and the end of the stream *)

(** [Action] of the generated protobuf code, which is not part of the
    sources read here: [streamPrices] tells [Action.SUBSCRIBE] and
    [Action.UNSUBSCRIBE] from every other value. *)
Inductive Action : Type :=
| SUBSCRIBE
| UNSUBSCRIBE
| OtherAction.

(** [ClientAction]: [ticker] is [None] when the field is [null] or
    [undefined]. *)
Record ClientAction : Type := mkClientAction {
  action : Action;
  action_ticker : option string;
}.

(** [const offMap = new Map<string, () => void>()], which the [finally]
    block iterates: the entries in insertion order. *)
Abbreviation OffMap := (list (string * Detach)) (only parsing).

Definition mapGet (k : string) (m : OffMap) : option Detach :=
  snd <$> List.find (λ kv, bool_decide (kv.1 = k)) m.

(** [Map.prototype.set]: the value of a key that is present is replaced in
    place, a new key goes to the end. *)
Fixpoint mapSet (k : string) (v : Detach) (m : OffMap) : OffMap :=
  match m with
  | [] => [(k, v)]
  | kv :: m' => if decide (kv.1 = k) then (k, v) :: m' else kv :: mapSet k v m'
  end.

Definition mapDelete (k : string) (m : OffMap) : OffMap :=
  filter (λ kv, kv.1 ≠ k) m.

(** The variables of one call of [streamPrices]: [subscribed] and the
    queue, and [offMap]. *)
Record Session : Type := mkSession {
  stream : StreamPrices.Stream;
  offMap : OffMap;
}.

Definition newSession : Session :=
  {| stream := StreamPrices.start; offMap := [] |}.

(** One turn of the loop of [actionsTask], run to completion.  [c] names
    the calls of the manager made in this turn and [h] is the identity of
    the function [(u) => onUpdate(u)] that a subscription creates. *)
Definition handleAction (c : Caller) (h : Handler) (a : ClientAction)
    (ms : State * Session) : State * Session :=
  let '(m, ses) := ms in
  let subscribed := StreamPrices.subscribed (stream ses) in
  let ticker := Text.normalize (default "" (action_ticker a)) in
  if decide (ticker = "") then ms
  else
    match action a with
    | SUBSCRIBE =>
        if decide (ticker ∈ subscribed) then ms
        else
          let m1 := subscribeDone c ticker m in
          let '(m2, off) := onPrice ticker h m1 in
          (m2,
           {| stream :=
                {| StreamPrices.subscribed := subscribed ∪ {[ticker]};
                   StreamPrices.queue := StreamPrices.queue (stream ses) |};
              offMap := mapSet ticker off (offMap ses) |})
    | UNSUBSCRIBE =>
        if decide (ticker ∈ subscribed) then
          let m1 :=
            match mapGet ticker (offMap ses) with
            | Some off => runDetach off m
            | None => m
            end in
          let m2 := unsubscribeDone c ticker m1 in
          (m2,
           {| stream :=
                {| StreamPrices.subscribed := subscribed ∖ {[ticker]};
                   StreamPrices.queue := StreamPrices.queue (stream ses) |};
              offMap := mapDelete ticker (offMap ses) |})
        else ms
    | OtherAction => ms
    end.

(** The actions of a client, each with the names of its calls and of the
    callback it may create, oldest first. *)
Definition handleActions (acts : list (Caller * Handler * ClientAction))
    (ms : State * Session) : State * Session :=
  fold_left (λ ms x, handleAction x.1.1 x.1.2 x.2 ms) acts ms.

(** The [finally] block of [streamPrices], run to completion. *)
Definition finish (c : Caller) (ms : State * Session) : State * Session :=
  let '(m, ses) := ms in
  (fold_left (λ m kv, unsubscribeDone c kv.1 (runDetach kv.2 m)) (offMap ses) m,
   {| stream :=
        {| StreamPrices.subscribed := ∅;
           StreamPrices.queue := StreamPrices.queue (stream ses) |};
      offMap := [] |}).

(** *** The end of a [watchPrices] stream *)

(** The [finally] block of [watchPrices].  [entries] is the content of
    [offMap] in the order of its iteration, which is the order of insertion;
    the map of the embedding does not keep that order. *)
Definition watchFinally (entries : list (string * Detach))
    (mw : State * WatchPrices.Stream) : State * WatchPrices.Stream :=
  let '(m, w) := mw in
  (fold_left (λ m kv, runDetach kv.2 m) entries m,
   {| WatchPrices.subscribed := [];
      WatchPrices.offMap := ∅;
      WatchPrices.queue := WatchPrices.queue w;
      WatchPrices.streamClosed := true;
      WatchPrices.onUpdate_id := WatchPrices.onUpdate_id w |}).

End Handlers.

(* ===================================================================== *)
(** ** Further runs and observations *)
(* ===================================================================== *)

Module Runs.

Import Num Manager Server.

(** *** A consumer of a queue *)

(** What the single consumer of a stream and the listeners do to its
    queue. *)
Inductive StreamOp : Type :=
| PullOp
| PushOp (msg : ServerStreamResponse).

(** The messages of the pushes, oldest first. *)
Definition pushedBy (ops : list StreamOp) : list ServerStreamResponse :=
  omap (λ op, match op with PushOp msg => Some msg | PullOp => None end) ops.

(** One operation on the queue of [streamPrices], with the messages that
    the consumer has received so far: a pull that finds a message receives
    it, a push that finds a waiting pull hands its message over. *)
Definition streamStep (op : StreamOp)
    (qg : Queue * list ServerStreamResponse)
  : Queue * list ServerStreamResponse :=
  let '(q, got) := qg in
  match op with
  | PullOp =>
      let '(r, q') := StreamPrices.tryDequeue q in
      (q', match r with Ready (Some msg) => got ++ [msg] | _ => got end)
  | PushOp msg =>
      (push msg q,
       match resolveNext q with Some _ => got ++ [msg] | None => got end)
  end.



(** *** Calls made to the collaborators *)

(** The number of entries of a log for a ticker. *)
Definition callsFor (t : string) (log : list string) : Z :=
  Z.of_nat (List.length (filter (λ x, x = t) log)).

(** [1] when the ticker has a page, [0] otherwise. *)
Definition pageCount (t : string) (s : State) : Z :=
  match pages s !! t with Some _ => 1 | None => 0 end.

(** *** What the update bus holds *)

(** Every update held by the cache, queued for replay or handed to a
    callback carries a finite price. *)
Definition pricesFinite (s : State) : Prop :=
  (∀ t u, lastPrices s !! t = Some u →
     ticker u = t ∧ isFinite (price u) = true ∧ source u = "tradingview")
  ∧ (∀ hu, hu ∈ immediates s → isFinite (price hu.2) = true)
  ∧ (∀ hu, hu ∈ delivered s → isFinite (price hu.2) = true).

(** Every listener, queued replay and past callback invocation goes back to
    an [onPrice] of the trace for that callback and that ticker. *)
Definition attachedBy (tr : list Event) (s : State) : Prop :=
  (∀ key h, h ∈ listeners key s →
     ∃ t, key = topicKey t ∧ OnPrice t h ∈ tr)
  ∧ (∀ t u, lastPrices s !! t = Some u → ticker u = t)
  ∧ (∀ hu, hu ∈ immediates s → OnPrice (ticker hu.2) hu.1 ∈ tr)
  ∧ (∀ hu, hu ∈ delivered s → OnPrice (ticker hu.2) hu.1 ∈ tr).

(** The events of the registry, which do not touch the bus. *)
Definition registryEvent (e : Event) : bool :=
  match e with
  | Subscribe _ _ | Unsubscribe _ _ | OpenSucceeds _ | OpenFails _
  | CloseCompletes _ | PageClosed _ => true
  | _ => false
  end.

(** *** The shape of the registry *)

(** Counts are not negative; a symbol does not have a page and an open in
    flight at once; the page held or being opened for a symbol was created
    by a [newPage] call issued for that symbol. *)
Definition registryShape (s : State) : Prop :=
  (∀ t, 0 ≤ refCount t s)
  ∧ (∀ t, is_Some (pages s !! t) → starting s !! t = None)
  ∧ (∀ t page, pages s !! t = Some page ∨ starting s !! t = Some page →
       opened s !! page = Some t).

(** A suspended call waits for an operation that is in flight. *)
Definition waitersServed (s : State) : Prop :=
  ∀ c p, (c, p) ∈ awaiting s →
    match p with
    | Opening t => is_Some (starting s !! t)
    | Closing t => is_Some (closing s !! t)
    end.

(** *** Reading a percent-encoded text back *)



(** *** Requests of the unary methods *)

(** The tickers of a request that the handlers act on: normalised, the
    empty ones left out, in the order of the request. *)
Definition normalizedTickers (tickers : list string) : list string :=
  filter (λ t, t ≠ "") (map Text.normalize tickers).

(** The number of entries of a request that stand for a symbol. *)
Definition entriesFor (sym : string) (tickers : list string) : Z :=
  Z.of_nat (List.length (filter (λ t, t = sym) (normalizedTickers tickers))).

(** *** What a [streamPrices] session holds *)

(** The listeners attached through the entries of an [offMap] for an event
    name, oldest first. *)
Definition handlersAt (key : string) (m : list (string * Detach))
  : list Handler :=
  map (λ kv, detach_handler kv.2) (filter (λ kv, detach_key kv.2 = key) m).

(** With respect to the manager [m0] that the session has found: the
    entries of [held] have distinct tickers in normal form, each with the
    function that [onPrice] returned for it; the listeners of [m] are those
    of [m0] followed by the listeners of the entries; and each ticker of
    [held] has one reference more than in [m0]. *)
Definition holds (m0 m : State) (held : list (string * Detach)) : Prop :=
  NoDup held.*1
  ∧ (∀ kv, kv ∈ held →
       detach_key kv.2 = topicKey kv.1 ∧ Text.normalize kv.1 = kv.1)
  ∧ (∀ key, listeners key m = listeners key m0 ++ handlersAt key held)
  ∧ (∀ sym, refCount sym m
            = refCount sym m0 + (if decide (sym ∈ held.*1) then 1 else 0)).

(** *** What a [watchPrices] stream is attached to *)

(** The number of times the callback [h] is registered for an event name,
    and the other listeners of that name. *)
Definition registrations (h : Handler) (key : string) (s : State) : nat :=
  List.length (filter (λ x, x = h) (listeners key s)).

Definition others (h : Handler) (key : string) (s : State) : list Handler :=
  filter (λ x, x ≠ h) (listeners key s).

(** The number of tickers of a list whose event name is [key]. *)
Definition follows (key : string) (tickers : list string) : nat :=
  List.length (filter (λ t, topicKey t = key) tickers).

(** [subscribed] has no duplicate and the keys of [offMap] are its
    members; each entry is the function that [onPrice] returned for the
    callback of the stream; and that callback is registered once for each
    ticker of [subscribed], and nowhere else. *)
Definition tracks (mw : State * WatchPrices.Stream) : Prop :=
  NoDup (WatchPrices.subscribed mw.2)
  ∧ (∀ t, t ∈ WatchPrices.subscribed mw.2
          ↔ is_Some (WatchPrices.offMap mw.2 !! t))
  ∧ (∀ t d, WatchPrices.offMap mw.2 !! t = Some d →
       d = {| detach_key := topicKey t;
              detach_handler := WatchPrices.onUpdate_id mw.2 |})
  ∧ (∀ key, registrations (WatchPrices.onUpdate_id mw.2) key mw.1
            = follows key (WatchPrices.subscribed mw.2)).

(** A step of the manager that does not attach or detach the callback [h]. *)
Definition foreign (h : Handler) (e : Event) : Prop :=
  match e with
  | OnPrice _ h' => h' ≠ h
  | RunDetach d => detach_handler d ≠ h
  | _ => True
  end.

(** What happens to a stream: its interval callback runs, or the manager
    takes a step. *)
Inductive WatchEvent : Type :=
| Interval
| ManagerStep (e : Event).

Definition watchEvent (x : WatchEvent)
    (mw : State * WatchPrices.Stream) : State * WatchPrices.Stream :=
  match x with
  | Interval => WatchPrices.checkInterval mw
  | ManagerStep e => WatchPrices.managerStep e mw
  end.

Definition watchRun (xs : list WatchEvent)
    (mw : State * WatchPrices.Stream) : State * WatchPrices.Stream :=
  fold_left (λ mw x, watchEvent x mw) xs mw.

Definition foreignTo (h : Handler) (x : WatchEvent) : Prop :=
  match x with
  | Interval => True
  | ManagerStep e => foreign h e
  end.

(** The number of messages that a stream has taken in: those handed to a
    waiting pull and those that wait in [pending]. *)
Definition taken (w : WatchPrices.Stream) : nat :=
  (List.length (resolutions (WatchPrices.queue w))
   + List.length (pending (WatchPrices.queue w)))%nat.

End Runs.
(* ===================================================================== *)
(** ** The page of the web client: component [Home] *)
(* ===================================================================== *)

Module Client.

Import Num.

(** [type TickerItem = { symbol: string; price: number | null }] *)
Record TickerItem : Type := mkItem {
  symbol : string;
  price : option number;
}.

(** The requests of the unary methods, with their field [tickers]. *)
Inductive Request : Type :=
| SubscribeRequest (tickers : list string)
| UnsubscribeRequest (tickers : list string).

(** ['connecting' | 'connected' | 'error'] *)
Inductive Status : Type :=
| Connecting
| Connected
| ConnectionError.

#[global] Instance Status_eq_dec : EqDecision Status.
Proof. solve_decision. Defined.

(** The state of the component.  [validationError] is [None] for the empty
    string and [Some sym] for the one message that the code builds, in
    which [sym] stands between quotes before
    [is not a supported trading pair].  [client] tells that
    [clientRef.current] is set; [sent] is the log of the requests made
    through it, oldest first; [retryPending] is the timer that the [catch]
    of [startWatching] sets. *)
Record Page : Type := mkPage {
  input : string;
  tickers : list TickerItem;
  connectionStatus : Status;
  allowedPairs : list string;
  suggestions : list string;
  showSuggestions : bool;
  validationError : option string;
  client : bool;
  retryPending : bool;
  sent : list Request;
}.

Definition upd_input (v : string) (p : Page) : Page :=
  {| input := v; tickers := tickers p;
     connectionStatus := connectionStatus p; allowedPairs := allowedPairs p;
     suggestions := suggestions p; showSuggestions := showSuggestions p;
     validationError := validationError p; client := client p;
     retryPending := retryPending p; sent := sent p |}.

Definition upd_tickers (f : list TickerItem → list TickerItem) (p : Page)
  : Page :=
  {| input := input p; tickers := f (tickers p);
     connectionStatus := connectionStatus p; allowedPairs := allowedPairs p;
     suggestions := suggestions p; showSuggestions := showSuggestions p;
     validationError := validationError p; client := client p;
     retryPending := retryPending p; sent := sent p |}.

Definition upd_suggestions (l : list string) (p : Page) : Page :=
  {| input := input p; tickers := tickers p;
     connectionStatus := connectionStatus p; allowedPairs := allowedPairs p;
     suggestions := l; showSuggestions := showSuggestions p;
     validationError := validationError p; client := client p;
     retryPending := retryPending p; sent := sent p |}.

Definition upd_showSuggestions (b : bool) (p : Page) : Page :=
  {| input := input p; tickers := tickers p;
     connectionStatus := connectionStatus p; allowedPairs := allowedPairs p;
     suggestions := suggestions p; showSuggestions := b;
     validationError := validationError p; client := client p;
     retryPending := retryPending p; sent := sent p |}.

Definition upd_validationError (e : option string) (p : Page) : Page :=
  {| input := input p; tickers := tickers p;
     connectionStatus := connectionStatus p; allowedPairs := allowedPairs p;
     suggestions := suggestions p; showSuggestions := showSuggestions p;
     validationError := e; client := client p;
     retryPending := retryPending p; sent := sent p |}.

Definition upd_connection (st : Status) (cl retry : bool) (p : Page) : Page :=
  {| input := input p; tickers := tickers p;
     connectionStatus := st; allowedPairs := allowedPairs p;
     suggestions := suggestions p; showSuggestions := showSuggestions p;
     validationError := validationError p; client := cl;
     retryPending := retry; sent := sent p |}.

(** A request made through [clientRef.current], when it is set. *)
Definition send (r : Request) (p : Page) : Page :=
  if client p
  then {| input := input p; tickers := tickers p;
          connectionStatus := connectionStatus p;
          allowedPairs := allowedPairs p;
          suggestions := suggestions p; showSuggestions := showSuggestions p;
          validationError := validationError p; client := client p;
          retryPending := retryPending p; sent := sent p ++ [r] |}
  else p.

(** [const normalized = (s: string) => s.trim().toUpperCase()] *)
Definition normalized (s : string) : string :=
  Text.toUpperCase (Text.trim s).

(** [allowedPairs.includes(x)] *)
Definition includes (x : string) (l : list string) : bool :=
  bool_decide (x ∈ l).

(** *** The list of trading pairs *)

(** The pairs that the [catch] of the first effect falls back to. *)
Definition fallbackPairs : list string :=
  ["BTCUSD"; "ETHUSD"; "ADAUSD"; "SOLUSD"; "DOTUSD"].

(** *** The effect on [input] and [allowedPairs] *)

Definition suggestEffect (p : Page) : Page :=
  let normalizedInput := normalized (input p) in
  if ((0 <? String.length normalizedInput)
      && (0 <? List.length (allowedPairs p)))%nat
  then
    let matches :=
      take 5 (filter (λ pair, String.prefix normalizedInput pair = true)
                     (allowedPairs p)) in
    let p := upd_suggestions matches p in
    let p := upd_showSuggestions (0 <? List.length matches)%nat p in
    if (3 <=? String.length normalizedInput)%nat
    then
      if includes normalizedInput (allowedPairs p)
      then upd_validationError None p
      else upd_validationError (Some normalizedInput) p
    else upd_validationError None p
  else
    upd_validationError None (upd_showSuggestions false (upd_suggestions [] p)).

(** The state set by a handler is rendered, and the effect runs when
    [input] is not what it was at the render before; [allowedPairs] is set
    by the first effect only. *)
Definition render (before after : Page) : Page :=
  if decide (input after = input before) then after else suggestEffect after.

(** *** The handlers *)

(** [onChange={(e) => setInput(e.target.value)}] *)
Definition onChange (value : string) (p : Page) : Page :=
  render p (upd_input value p).

(** [setInput(""); setValidationError(""); setShowSuggestions(false)] *)
Definition clearInput (p : Page) : Page :=
  upd_showSuggestions false (upd_validationError None (upd_input "" p)).

(** [addTicker] *)
Definition addTicker (p : Page) : Page :=
  let sym := normalized (input p) in
  if decide (sym = "") then p
  else if negb (includes sym (allowedPairs p))
  then upd_validationError (Some sym) p
  else if existsb (λ t, bool_decide (symbol t = sym)) (tickers p)
  then render p (clearInput p)
  else
    let p1 :=
      upd_tickers (λ prev, prev ++ [{| symbol := sym; price := None |}]) p in
    send (SubscribeRequest [sym]) (render p (clearInput p1)).

(** [selectSuggestion] *)
Definition selectSuggestion (suggestion : string) (p : Page) : Page :=
  render p
    (upd_validationError None
       (upd_showSuggestions false (upd_input suggestion p))).

(** [removeTicker] *)
Definition removeTicker (sym : string) (p : Page) : Page :=
  send (UnsubscribeRequest [sym])
       (upd_tickers (filter (λ t, symbol t ≠ sym)) p).

(** The body of the loop over the stream of [watchPrices], for a response
    whose message is a price update: [Number(priceUpdate.price)] is the
    number that the server has written. *)
Definition onResponse (ticker : string) (value : number) (p : Page) : Page :=
  upd_tickers
    (map (λ t, if decide (symbol t = ticker)
               then {| symbol := symbol t; price := Some value |}
               else t))
    p.

(** The [catch] of [startWatching], for a stream that has not been
    aborted. *)
Definition streamFailed (p : Page) : Page :=
  upd_connection ConnectionError (client p) true p.

(** [startWatching], run by the retry timer, up to the first message of
    the stream, and then the last effect, whose dependency
    [connectionStatus] has gone from ['error'] to ['connected']. *)
Definition retry (p : Page) : Page :=
  let p := upd_connection Connected true false p in
  if client p && (0 <? List.length (tickers p))%nat
     && bool_decide (connectionStatus p = Connected)
  then send (SubscribeRequest (map symbol (tickers p))) p
  else p.

(** *** The events of the page *)

(** What the user, the stream and the timers do.  The buttons of the
    suggestions and of the rows exist for the entries that are rendered. *)
Inductive Event : Type :=
| Change (value : string)
| KeyEnter
| KeyEscape
| Focus
| BlurTimer
| ClickAdd
| ClickSuggestion (index : nat)
| ClickRemove (index : nat)
| Response (ticker : string) (value : number)
| StreamFails
| RetryTimer.

Definition handle (e : Event) (p : Page) : Page :=
  match e with
  | Change value => onChange value p
  | KeyEnter =>
      match validationError p with
      | None => addTicker p
      | Some _ => p
      end
  | KeyEscape | BlurTimer => upd_showSuggestions false p
  | Focus =>
      if (0 <? List.length (suggestions p))%nat
      then upd_showSuggestions true p else p
  | ClickAdd =>
      if bool_decide (Text.trim (input p) = "")
         || bool_decide (is_Some (validationError p))
         || negb (includes (normalized (input p)) (allowedPairs p))
      then p else addTicker p
  | ClickSuggestion index =>
      if showSuggestions p && (0 <? List.length (suggestions p))%nat
      then match suggestions p !! index with
           | Some suggestion => selectSuggestion suggestion p
           | None => p
           end
      else p
  | ClickRemove index =>
      match tickers p !! index with
      | Some t => removeTicker (symbol t) p
      | None => p
      end
  | Response ticker value =>
      if bool_decide (connectionStatus p = Connected)
      then onResponse ticker value p else p
  | StreamFails =>
      if bool_decide (connectionStatus p = Connected)
      then streamFailed p else p
  | RetryTimer => if retryPending p then retry p else p
  end.

Definition run (events : list Event) (p : Page) : Page :=
  fold_left (λ p e, handle e p) events p.

(** The page once it is mounted, the stream of [watchPrices] is open and
    the list of pairs has arrived.  Before the list arrives [allowedPairs]
    is empty. *)
Definition mounted (pairs : list string) : Page :=
  {| input := ""; tickers := []; connectionStatus := Connected;
     allowedPairs := pairs; suggestions := []; showSuggestions := false;
     validationError := None; client := true; retryPending := false;
     sent := [] |}.

End Client.

(** ** The page and the server together *)

Module Visits.

Import Manager Client.

(** The symbols of the rows of the page. *)
Definition rows (p : Page) : list string := map symbol (tickers p).

(** The server handles a request of the page, to its end. *)
Definition serve (c : Caller) (r : Request)
    (sc : State * gmap string (gset string))
  : State * gmap string (gset string) :=
  match r with
  | SubscribeRequest tickers => (Handlers.subscribe c tickers sc).1
  | UnsubscribeRequest tickers => (Handlers.unsubscribe c tickers sc).1
  end.

(** An event of the page, and the server handling the requests that the
    event has made. *)
Definition visitStep (c : Caller) (e : Event)
    (ps : Page * (State * gmap string (gset string)))
  : Page * (State * gmap string (gset string)) :=
  let p := handle e ps.1 in
  (p, fold_left (λ sc r, serve c r sc)
                (drop (List.length (sent ps.1)) (sent p)) ps.2).

Definition visit (c : Caller) (events : list Event)
    (ps : Page * (State * gmap string (gset string)))
  : Page * (State * gmap string (gset string)) :=
  fold_left (λ ps e, visitStep c e ps) events ps.

End Visits.


(* ===================================================================== *)
(** * Properties *)
(* ===================================================================== *)

(** ** Text normalisation *)

Section TextFacts.

Import Text Scenario.

Lemma isWhiteSpace_upperChar (c : ascii) :
  isWhiteSpace (upperChar c) = isWhiteSpace c.
Proof. by destruct c as [[] [] [] [] [] [] [] []]. Qed.

Lemma upperChar_idem (c : ascii) : upperChar (upperChar c) = upperChar c.
Proof. by destruct c as [[] [] [] [] [] [] [] []]. Qed.

Lemma dropWhite_map_upper (l : list ascii) :
  dropWhite (map upperChar l) = map upperChar (dropWhite l).
Proof.
  induction l as [|c l IH]; [done|].
  cbn [map dropWhite]. rewrite isWhiteSpace_upperChar.
  by destruct (isWhiteSpace c).
Qed.

Lemma trimChars_map_upper (l : list ascii) :
  trimChars (map upperChar l) = map upperChar (trimChars l).
Proof.
  unfold trimChars.
  by rewrite dropWhite_map_upper, <- map_rev, dropWhite_map_upper, map_rev.
Qed.

Lemma dropWhite_headClean (l : list ascii) : headClean (dropWhite l).
Proof.
  induction l as [|c l IH]; [done|].
  cbn [dropWhite]. by destruct (isWhiteSpace c) eqn:E.
Qed.

Lemma dropWhite_id (l : list ascii) : headClean l → dropWhite l = l.
Proof. destruct l as [|c l]; [done|]. cbn. by intros ->. Qed.

Lemma dropWhite_suffix (l : list ascii) : ∃ ws, l = ws ++ dropWhite l.
Proof.
  induction l as [|c l [ws IH]]; [by exists []|].
  cbn [dropWhite]. destruct (isWhiteSpace c).
  - exists (c :: ws). cbn. by rewrite <- IH.
  - by exists [].
Qed.

(** Dropping white space at the end keeps a clean head. *)
Lemma headClean_rev_dropWhite_rev (l : list ascii) :
  headClean l → headClean (rev (dropWhite (rev l))).
Proof.
  intros Hl. destruct (dropWhite_suffix (rev l)) as [ws Hws].
  assert (l = rev (dropWhite (rev l)) ++ rev ws) as Heq.
  { rewrite <- rev_app_distr, <- Hws. by rewrite rev_involutive. }
  destruct (rev (dropWhite (rev l))) as [|c r]; [done|].
  rewrite Heq in Hl. exact Hl.
Qed.

Lemma trimChars_idem (l : list ascii) : trimChars (trimChars l) = trimChars l.
Proof.
  unfold trimChars.
  set (r := dropWhite (rev (dropWhite l))).
  rewrite (dropWhite_id (rev r)).
  - rewrite rev_involutive. f_equal. apply dropWhite_id, dropWhite_headClean.
  - apply headClean_rev_dropWhite_rev, dropWhite_headClean.
Qed.

Lemma normalize_idem (tickerRaw : string) :
  normalize (normalize tickerRaw) = normalize tickerRaw.
Proof.
  unfold normalize, toUpperCase, trim.
  rewrite !list_ascii_of_string_of_list_ascii.
  rewrite trimChars_map_upper, trimChars_idem.
  f_equal. rewrite map_map. apply map_ext, upperChar_idem.
Qed.

End TextFacts.

(** ** [parsePrice] *)

Section ParsePrice.

Import Num TradingView.

(** Only digits, dots and minus signs reach [parseFloat]. *)
Lemma cleanPrice_alphabet (input : string) :
  Forall (λ c, Text.isDigit c = true ∨ c = "."%char ∨ c = "-"%char)
         (Text.cleanPrice input).
Proof.
  unfold Text.cleanPrice. apply Forall_forall. intros c Hc.
  apply list_elem_of_filter in Hc as [Hcomma Hc].
  apply list_elem_of_filter in Hc as [Hkept _].
  unfold Text.keptByPriceRegex, Text.isComma in *.
  destruct (Text.isDigit c); [by left|right]. cbn in Hkept.
  rewrite Hcomma in Hkept. rewrite orb_false_r in Hkept.
  apply orb_true_iff in Hkept as [H|H]; apply Ascii.eqb_eq in H; auto.
Qed.

Example parsePrice_dollars :
  parsePrice (Some "$1,234.56") = Some (Finite false 123456 2).
Proof. reflexivity. Qed.

Example parsePrice_negative_fraction :
  parsePrice (Some " -.5 USD") = Some (Finite true 5 1).
Proof. reflexivity. Qed.

Example parsePrice_no_digits : parsePrice (Some "n/a") = None.
Proof. reflexivity. Qed.

Example parsePrice_empty : parsePrice (Some "") = None.
Proof. reflexivity. Qed.

(** A digit string too large for binary64: [parseFloat] gives [Infinity],
    which the guard turns into [null]. *)
Example parsePrice_overflow :
  parseFloat (list_ascii_of_string ("1" +:+ string_of_list_ascii (replicate 309 "0"%char)))
    = Infinity false
  ∧ parsePrice (Some ("1" +:+ string_of_list_ascii (replicate 309 "0"%char))) = None.
Proof. split; vm_compute; reflexivity. Qed.

(** C10. For every input (a string, [null] or [undefined]) [parsePrice]
    returns [null] or a finite number: never [NaN], never an infinity.  The
    function is total: no input makes it throw. *)
Theorem parsePrice_finite_or_null (input : option string) :
  parsePrice input = None
  ∨ ∃ neg mant scale, parsePrice input = Some (Finite neg mant scale).
Proof.
  destruct input as [s|]; [|by left].
  unfold parsePrice. destruct s as [|c s]; [by left|].
  destruct (parseFloat (Text.cleanPrice (String c s))) as [neg mant scale| |neg];
    cbn [isFinite]; [right; by exists neg, mant, scale|by left|by left].
Qed.

End ParsePrice.

(** ** The push-to-pull queues of [server.ts] *)

Section Queues.

Import Server Scenario.

Lemma push_no_waiter (msg : ServerStreamResponse) (q : Queue) :
  resolveNext q = None →
  push msg q =
    {| pending := pending q ++ [msg]; resolveNext := None;
       promises := promises q; resolutions := resolutions q |}.
Proof. unfold push. by intros ->. Qed.

Lemma pushAll_no_waiter (msgs : list ServerStreamResponse) (q : Queue) :
  resolveNext q = None →
  pushAll msgs q =
    {| pending := pending q ++ msgs; resolveNext := None;
       promises := promises q; resolutions := resolutions q |}.
Proof.
  revert q. induction msgs as [|msg msgs IH]; intros q Hq.
  - destruct q; cbn in *. by rewrite app_nil_r, Hq.
  - cbn [pushAll fold_left]. fold (pushAll msgs (push msg q)).
    rewrite IH; rewrite push_no_waiter by done; [|done].
    cbn. by rewrite <- app_assoc.
Qed.

Lemma drain_pending (msgs : list ServerStreamResponse) (o : option nat)
    (n : nat) (rs : list (nat * option ServerStreamResponse)) :
  drain (List.length msgs)
        {| pending := msgs; resolveNext := o; promises := n; resolutions := rs |}
  = (map (λ msg, Ready (Some msg)) msgs,
     {| pending := []; resolveNext := o; promises := n; resolutions := rs |}).
Proof.
  induction msgs as [|msg msgs IH]; [done|].
  cbn [List.length drain]. unfold StreamPrices.tryDequeue, shift. cbn.
  by rewrite IH.
Qed.

(** First in, first out, nothing lost, for any number of messages. *)
Lemma stream_fifo (msgs : list ServerStreamResponse) :
  drain (List.length msgs) (pushAll msgs emptyQueue)
  = (map (λ msg, Ready (Some msg)) msgs, emptyQueue).
Proof. rewrite pushAll_no_waiter by done. apply drain_pending. Qed.

(** C6. Three updates [a], [b], [c] that reach a stream before its first
    pull are returned by three pulls in that order, and nothing is left:
    in [streamPrices] (for tickers of [subscribed]) and in [watchPrices]. *)
Theorem bridge_fifo_three (a b c : Manager.PriceUpdate)
    (st : StreamPrices.Stream) (w : WatchPrices.Stream) :
  pending (StreamPrices.queue st) = [] →
  resolveNext (StreamPrices.queue st) = None →
  Manager.ticker a ∈ StreamPrices.subscribed st →
  Manager.ticker b ∈ StreamPrices.subscribed st →
  Manager.ticker c ∈ StreamPrices.subscribed st →
  pending (WatchPrices.queue w) = [] →
  resolveNext (WatchPrices.queue w) = None →
  (let st3 := StreamPrices.onUpdate c
                (StreamPrices.onUpdate b (StreamPrices.onUpdate a st)) in
   let r1 := StreamPrices.tryDequeue (StreamPrices.queue st3) in
   let r2 := StreamPrices.tryDequeue r1.2 in
   let r3 := StreamPrices.tryDequeue r2.2 in
   r1.1 = Ready (Some (toResponse a))
   ∧ r2.1 = Ready (Some (toResponse b))
   ∧ r3.1 = Ready (Some (toResponse c))
   ∧ pending r3.2 = [])
  ∧
  (let w3 := WatchPrices.onUpdate c
               (WatchPrices.onUpdate b (WatchPrices.onUpdate a w)) in
   let r1 := WatchPrices.tryDequeue w3 in
   let r2 := WatchPrices.tryDequeue r1.2 in
   let r3 := WatchPrices.tryDequeue r2.2 in
   r1.1 = Ready (Some (toResponse a))
   ∧ r2.1 = Ready (Some (toResponse b))
   ∧ r3.1 = Ready (Some (toResponse c))
   ∧ pending (WatchPrices.queue r3.2) = []).
Proof.
  intros Hp Hr Ha Hb Hc Hwp Hwr.
  assert (Hpush : ∀ q, pending q = [] → resolveNext q = None →
            push (toResponse c) (push (toResponse b) (push (toResponse a) q))
            = {| pending := [toResponse a; toResponse b; toResponse c];
                 resolveNext := None; promises := promises q;
                 resolutions := resolutions q |}).
  { intros q Hq1 Hq2.
    change (push _ (push _ (push _ q)))
      with (pushAll [toResponse a; toResponse b; toResponse c] q).
    rewrite pushAll_no_waiter by done. by rewrite Hq1. }
  split.
  - unfold StreamPrices.onUpdate. cbn.
    rewrite !(decide_True _ _ Ha). cbn. rewrite !(decide_True _ _ Hb). cbn.
    rewrite !(decide_True _ _ Hc). cbn.
    by rewrite Hpush.
  - destruct w as [subs om q closed h]. cbn in Hwp, Hwr.
    unfold WatchPrices.onUpdate, WatchPrices.upd_queue. cbn.
    by rewrite Hpush.
Qed.

Lemma bridge_fifo_three_witness :
  let u (t : string) (n : N) (at_ : Z) :=
    Manager.mkPriceUpdate t (Num.Finite false n 0) at_ "tradingview" in
  let a := u "BTCUSD" 50000%N 1 in
  let b := u "ETHUSD" 3000%N 2 in
  let c := u "BTCUSD" 50010%N 3 in
  let st := StreamPrices.mkStream {["BTCUSD"; "ETHUSD"]} emptyQueue in
  let w := (WatchPrices.start 7 Manager.initial).2 in
  (StreamPrices.tryDequeue
     (StreamPrices.queue
        (StreamPrices.onUpdate c
           (StreamPrices.onUpdate b (StreamPrices.onUpdate a st))))).1
    = Ready (Some (toResponse a))
  ∧ (WatchPrices.tryDequeue
       (WatchPrices.onUpdate c
          (WatchPrices.onUpdate b (WatchPrices.onUpdate a w)))).1
    = Ready (Some (toResponse a)).
Proof.
  intros u a b c st w.
  assert (Hin : ∀ t, t = "BTCUSD" ∨ t = "ETHUSD" → t ∈ StreamPrices.subscribed st).
  { intros t Ht. subst st. cbn. set_solver. }
  destruct (bridge_fifo_three a b c st w) as [Hs Hw];
    [reflexivity | reflexivity | apply Hin; by left | apply Hin; by right
    | apply Hin; by left | reflexivity | reflexivity |].
  split; [apply Hs | apply Hw].
Defined.

(** *** Closing *)

(** No [resolve] function is ever called with [null]: a consumer that
    waits is woken by a message or not at all. *)
Lemma watch_never_resolves_null (ops : list QueueOp) (w : WatchPrices.Stream) :
  Forall (λ r, is_Some r.2) (resolutions (WatchPrices.queue w)) →
  Forall (λ r, is_Some r.2)
         (resolutions (WatchPrices.queue (fold_left (λ w op, queueStep op w) ops w))).
Proof.
  revert w. induction ops as [|op ops IH]; intros w Hw; [done|].
  cbn [fold_left]. apply IH.
  destruct w as [subs om q closed h]. destruct op as [|update|]; cbn.
  - unfold WatchPrices.tryDequeue. cbn.
    destruct (pending q); [destruct closed|]; exact Hw.
  - unfold push. destruct (resolveNext q); cbn; [|exact Hw].
    apply Forall_app. split; [exact Hw|]. by repeat constructor.
  - exact Hw.
Qed.

(** C5. A pull on the empty queue of a fresh [watchPrices] stream suspends
    on promise [0]; closing the stream then sets [streamClosed] and nothing
    else: [resolveNext] still holds the [resolve] function of promise [0]
    and no [resolve] function has been called, so the waiting consumer is
    not woken (a pull made after the close returns [null] at once).
    [tryDequeue] of [streamPrices] has no closed flag: on an empty queue it
    suspends. *)
Theorem close_leaves_pull_suspended (h : Manager.Handler) :
  let w0 := (WatchPrices.start h Manager.initial).2 in
  let r := WatchPrices.tryDequeue w0 in
  let w2 := WatchPrices.closeStream r.2 in
  r.1 = Suspended 0
  ∧ WatchPrices.streamClosed w2 = true
  ∧ resolveNext (WatchPrices.queue w2) = Some 0%nat
  ∧ resolutions (WatchPrices.queue w2) = []
  ∧ (WatchPrices.tryDequeue w2).1 = Ready None
  ∧ (StreamPrices.tryDequeue emptyQueue).1 = Suspended 0.
Proof. by vm_compute. Qed.

End Queues.

(** ** The update bus: [onPrice], detaching, replay of the cached price *)

Section Bus.

Import Num Manager Scenario.

Lemma topicKey_inj (t1 t2 : string) : topicKey t1 = topicKey t2 → t1 = t2.
Proof. unfold topicKey. cbn. intros H. by simplify_eq. Qed.

Lemma removeLast_notin (h : Handler) (l : list Handler) :
  h ∉ l → removeLast h l = l.
Proof.
  induction l as [|x l IH]; [done|].
  intros Hn. apply not_elem_of_cons in Hn as [Hx Hl]. cbn.
  rewrite decide_False by done. by rewrite IH.
Qed.

(** [removeLast] takes out the instance that was added last. *)
Lemma removeLast_app (h : Handler) (l1 l2 : list Handler) :
  h ∉ l2 → removeLast h (l1 ++ h :: l2) = l1 ++ l2.
Proof.
  intros Hn. induction l1 as [|x l1 IH]; cbn.
  - rewrite decide_True by done. by rewrite decide_False.
  - rewrite IH. destruct (decide (x = h)); [|done].
    rewrite decide_True; [done|]. apply elem_of_app. right. by left.
Qed.

Lemma listeners_on (key k : string) (h : Handler) (s : State) :
  listeners k (on key h s)
  = if decide (k = key) then listeners key s ++ [h] else listeners k s.
Proof.
  unfold on, listeners. cbn. destruct (decide (k = key)) as [->|Hne].
  - by rewrite lookup_insert_eq.
  - by rewrite lookup_insert_ne.
Qed.

Lemma listeners_off (key k : string) (h : Handler) (s : State) :
  listeners k (off key h s)
  = if decide (k = key) then removeLast h (listeners key s) else listeners k s.
Proof.
  unfold off. destruct (decide (h ∈ listeners key s)) as [Hin|Hn].
  - destruct (removeLast h (listeners key s)) as [|x l'] eqn:E;
      unfold listeners at 1; cbn; destruct (decide (k = key)) as [->|Hne].
    + by rewrite lookup_delete_eq.
    + by rewrite lookup_delete_ne.
    + by rewrite lookup_insert_eq.
    + by rewrite lookup_insert_ne.
  - destruct (decide (k = key)) as [->|Hne]; [|done].
    by rewrite removeLast_notin.
Qed.

Lemma off_notin (key : string) (h : Handler) (s : State) :
  h ∉ listeners key s → off key h s = s.
Proof. intros Hn. unfold off. by rewrite decide_False. Qed.

Lemma onPrice_listeners (ticker k : string) (h : Handler) (s : State) :
  listeners k (onPrice ticker h s).1
  = if decide (k = topicKey ticker)
    then listeners (topicKey ticker) s ++ [h] else listeners k s.
Proof.
  unfold onPrice. cbn [fst].
  rewrite <- (listeners_on (topicKey ticker) k h s).
  by destruct (lastPrices (on (topicKey ticker) h s) !! ticker).
Qed.




(** C8, as stated, fails when one callback is attached twice for a symbol:
    the function returned by the first attach, called twice, removes both
    registrations, so its second call is not a no-op, and the registration
    of the second attach is gone although its own function was never
    called. *)
Lemma detach_twice_removes_two :
  let a1 := onPrice "BTCUSD" 7 initial in
  let a2 := onPrice "BTCUSD" 7 a1.1 in
  let once := runDetach a1.2 a2.1 in
  let twice := runDetach a1.2 once in
  listeners (topicKey "BTCUSD") a2.1 = [7%nat; 7%nat]
  ∧ listeners (topicKey "BTCUSD") once = [7%nat]
  ∧ listeners (topicKey "BTCUSD") twice = []
  ∧ twice ≠ once.
Proof.
  cbv zeta. split; [|split; [|split]]; by vm_compute.
Qed.

(** C8, amended. An attach appends one registration.  The function it
    returns removes the most recently added registration of the callback
    for the symbol and touches no other symbol; when the callback has no
    other registration for the symbol, that is the registration of this
    attach, and a second call changes nothing. *)
Theorem detach_removes_registration (ticker : string) (h : Handler)
    (s s' : State) (l1 l2 : list Handler) :
  let a := onPrice ticker h s in
  listeners (topicKey ticker) s' = l1 ++ h :: l2 →
  h ∉ l2 →
  listeners (topicKey ticker) a.1 = listeners (topicKey ticker) s ++ [h]
  ∧ listeners (topicKey ticker) (runDetach a.2 s') = l1 ++ l2
  ∧ (∀ key, key ≠ topicKey ticker →
       listeners key (runDetach a.2 s') = listeners key s')
  ∧ (h ∉ l1 → runDetach a.2 (runDetach a.2 s') = runDetach a.2 s').
Proof.
  intros a Hl Hn2. subst a. unfold runDetach. cbn [onPrice snd detach_key detach_handler].
  split; [|split; [|split]].
  - rewrite onPrice_listeners. by rewrite decide_True.
  - rewrite listeners_off, decide_True by done. rewrite Hl. by apply removeLast_app.
  - intros key Hk. rewrite listeners_off. by rewrite decide_False.
  - intros Hn1. apply off_notin.
    rewrite listeners_off, decide_True by done. rewrite Hl, removeLast_app by done.
    intros Hin. apply elem_of_app in Hin as [?|?]; done.
Qed.

Lemma detach_removes_registration_witness :
  let a := onPrice "BTCUSD" 7 (onPrice "BTCUSD" 3 initial).1 in
  let s' := (onPrice "BTCUSD" 9 a.1).1 in
  listeners (topicKey "BTCUSD") s' = [3%nat] ++ 7%nat :: [9%nat]
  ∧ listeners (topicKey "BTCUSD") (runDetach a.2 s') = [3%nat] ++ [9%nat].
Proof.
  cbv zeta. split; [by vm_compute|].
  apply (detach_removes_registration "BTCUSD" 7
           (onPrice "BTCUSD" 3 initial).1 _ [3%nat] [9%nat]).
  - by vm_compute.
  - intros Hin. apply list_elem_of_singleton in Hin. discriminate Hin.
Defined.

End Bus.

(** ** Replay of the cached price *)

Section Replay.

Import Num Manager Scenario.

Lemma pushPriceUpdate_immediates (ticker : string) (payload : option Payload)
    (now : Z) (s : State) :
  immediates (pushPriceUpdate ticker payload now s) = immediates s.
Proof.
  unfold pushPriceUpdate. destruct payload as [p|]; [|done].
  by destruct (isFinite (payload_price p)).
Qed.

Lemma liveUpdates_immediates (live : list (string * option Payload * Z))
    (s : State) :
  immediates (run (liveUpdates live) s) = immediates s.
Proof.
  revert s. induction live as [|x live IH]; intros s; [done|].
  cbn. unfold run in IH. rewrite IH. apply pushPriceUpdate_immediates.
Qed.

Lemma drain_delivers (q : list (Handler * PriceUpdate)) (s : State) :
  immediates s = q →
  delivered (run (replicate (List.length q) RunImmediate) s) = delivered s ++ q
  ∧ immediates (run (replicate (List.length q) RunImmediate) s) = [].
Proof.
  revert s. induction q as [|hu q IH]; intros s Hs.
  - cbn. by rewrite app_nil_r.
  - cbn [List.length replicate run fold_left step].
    destruct (IH (runImmediate s)) as [Hd Hi].
    { unfold runImmediate. by rewrite Hs. }
    unfold run in Hd, Hi. rewrite Hd, Hi. split; [|done].
    unfold runImmediate. rewrite Hs. cbn. by rewrite <- app_assoc.
Qed.

(** C4, as stated, fails on the order: a live update that the page pushes
    after the attach and before the [setImmediate] callback runs reaches
    the listener first, and the older cached price comes after it. *)
Lemma live_update_overtakes_replay :
  lastPrices cachedBTC !! "BTCUSD" = Some (btc 50000 1000)
  ∧ delivered
      (run [OnPrice "BTCUSD" 7;
            PushPriceUpdate "BTCUSD" (Some (mkPayload (Finite false 50010 0) 2000)) 0;
            RunImmediate] cachedBTC)
    = [(7%nat, btc 50010 2000); (7%nat, btc 50000 1000)].
Proof. by vm_compute. Qed.

(** C4, amended. When the symbol has a cached price [u] at the attach,
    [onPrice] calls nothing itself and queues one [setImmediate] callback
    for the pair of the listener and [u].  Whatever live updates are pushed
    before the queue runs, that callback stays queued behind the callbacks
    queued earlier, and the run of the queue calls the listener with [u]
    once, after every delivery made until then. *)
Theorem replay_on_attach (ticker : string) (h : Handler) (u : PriceUpdate)
    (live : list (string * option Payload * Z)) (s : State) :
  lastPrices s !! ticker = Some u →
  let s1 := (onPrice ticker h s).1 in
  let s2 := run (liveUpdates live) s1 in
  delivered s1 = delivered s
  ∧ immediates s1 = immediates s ++ [(h, u)]
  ∧ immediates s2 = immediates s ++ [(h, u)]
  ∧ delivered (drainImmediates s2) = delivered s2 ++ immediates s ++ [(h, u)]
  ∧ immediates (drainImmediates s2) = [].
Proof.
  intros Hu s1 s2.
  assert (H1 : delivered s1 = delivered s ∧ immediates s1 = immediates s ++ [(h, u)]).
  { subst s1. unfold onPrice. cbn [fst].
    replace (lastPrices (on (topicKey ticker) h s) !! ticker) with (Some u) by done.
    done. }
  destruct H1 as [Hd Hi].
  assert (H2 : immediates s2 = immediates s ++ [(h, u)]).
  { subst s2. by rewrite liveUpdates_immediates. }
  split; [done|]. split; [done|]. split; [done|].
  unfold drainImmediates.
  destruct (drain_delivers (immediates s2) s2 eq_refl) as [Hdd Hii].
  rewrite Hdd, Hii, H2. done.
Qed.

Lemma replay_on_attach_witness :
  lastPrices cachedBTC !! "BTCUSD" = Some (btc 50000 1000)
  ∧ delivered
      (drainImmediates
         (run (liveUpdates [("BTCUSD", Some (mkPayload (Finite false 50010 0) 2000), 0)])
              (onPrice "BTCUSD" 7 cachedBTC).1))
    = delivered
        (run (liveUpdates [("BTCUSD", Some (mkPayload (Finite false 50010 0) 2000), 0)])
             (onPrice "BTCUSD" 7 cachedBTC).1)
      ++ immediates cachedBTC ++ [(7%nat, btc 50000 1000)].
Proof.
  split; [by vm_compute|].
  apply (replay_on_attach "BTCUSD" 7 (btc 50000 1000)
           [("BTCUSD", Some (mkPayload (Finite false 50010 0) 2000), 0)] cachedBTC).
  by vm_compute.
Defined.

End Replay.

(** ** The registry: reference counts and pages *)

Section Registry.

Import Manager Scenario.

(** *** The reference count of one call *)

Lemma subscribe_refCounts (c : Caller) (tickerRaw : string) (s : State) :
  refCounts (subscribe c tickerRaw s)
  = <[Text.normalize tickerRaw := refCount (Text.normalize tickerRaw) s + 1]>
      (refCounts s).
Proof.
  unfold subscribe, ensurePage, refCount.
  repeat case_decide; reflexivity.
Qed.

Lemma unsubscribe_refCounts (c : Caller) (tickerRaw : string) (s : State) :
  refCounts (unsubscribe c tickerRaw s)
  = let t := Text.normalize tickerRaw in
    if decide (refCount t s ≤ 1) then delete t (refCounts s)
    else <[t := refCount t s - 1]> (refCounts s).
Proof.
  unfold unsubscribe, stopPage, refCount. cbn zeta.
  case_decide; [|reflexivity].
  cbn. destruct (pages s !! Text.normalize tickerRaw); [|reflexivity].
  case_decide; reflexivity.
Qed.

Lemma openSucceeds_refCounts (t : string) (s : State) :
  refCounts (openSucceeds t s) = refCounts s.
Proof. unfold openSucceeds. by destruct (starting s !! t). Qed.

Lemma closeCompletes_refCounts (t : string) (s : State) :
  refCounts (closeCompletes t s) = refCounts s.
Proof. unfold closeCompletes. by destruct (closing s !! t). Qed.

Lemma openFails_refCounts (t : string) (s : State) :
  refCounts (openFails t s)
  = match starting s !! t with
    | Some _ => <[t := Z.max 0 (default 1 (refCounts s !! t) - 1)]> (refCounts s)
    | None => refCounts s
    end.
Proof. unfold openFails. by destruct (starting s !! t). Qed.

Lemma perform_refCount (op : Op) (t : string) (s : State) :
  refCount t (perform op s)
  = if decide (opSymbol op = t) then clampStep (refCount t s) op
    else refCount t s.
Proof.
  unfold refCount at 1. destruct op as [c raw|c raw]; cbn [perform opSymbol].
  - rewrite openSucceeds_refCounts, subscribe_refCounts.
    destruct (decide (Text.normalize raw = t)) as [<-|Hne].
    + by rewrite lookup_insert_eq.
    + by rewrite lookup_insert_ne.
  - rewrite closeCompletes_refCounts, unsubscribe_refCounts. cbn zeta.
    destruct (decide (Text.normalize raw = t)) as [<-|Hne].
    + destruct (decide (refCount (Text.normalize raw) s ≤ 1)) as [Hc|Hc].
      * rewrite lookup_delete_eq. cbn. lia.
      * rewrite lookup_insert_eq. cbn. lia.
    + destruct (decide (refCount (Text.normalize raw) s ≤ 1)) as [Hc|Hc];
        [by rewrite lookup_delete_ne|by rewrite lookup_insert_ne].
Qed.

Lemma runOps_refCount (ops : list Op) (t : string) (s : State) :
  refCount t (runOps ops s)
  = fold_left clampStep (filter (λ op, opSymbol op = t) ops) (refCount t s).
Proof.
  revert s. induction ops as [|op ops IH]; intros s; [done|].
  cbn [runOps fold_left]. fold (runOps ops (perform op s)).
  rewrite IH, perform_refCount, filter_cons.
  by case_decide.
Qed.

Lemma clampStep_nonneg (n : Z) (op : Op) : 0 ≤ n → 0 ≤ clampStep n op.
Proof. destruct op; cbn; lia. Qed.

Lemma fold_clampStep_nonneg (ops : list Op) (n : Z) :
  0 ≤ n → 0 ≤ fold_left clampStep ops n.
Proof.
  revert n. induction ops as [|op ops IH]; intros n Hn; [done|].
  cbn. by apply IH, clampStep_nonneg.
Qed.

Lemma acquires_snoc (ops : list Op) (op : Op) :
  acquires (ops ++ [op]) = acquires ops + (if isAcquire op then 1 else 0).
Proof.
  unfold acquires. rewrite List.filter_app, List.length_app. cbn.
  destruct (isAcquire op); cbn; lia.
Qed.

Lemma releases_snoc (ops : list Op) (op : Op) :
  releases (ops ++ [op]) = releases ops + (if isAcquire op then 0 else 1).
Proof.
  unfold releases. rewrite List.filter_app, List.length_app. cbn.
  destruct (isAcquire op); cbn; lia.
Qed.

(** When the releases never outnumber the acquires, no clamp takes effect. *)
Lemma clampCount_balanced (ops : list Op) :
  neverBelow ops → clampCount ops = acquires ops - releases ops.
Proof.
  induction ops as [|op ops IH] using rev_ind; intros Hnb; [done|].
  assert (neverBelow ops) as Hpre.
  { intros pre Hp. apply Hnb. by apply prefix_app_r. }
  specialize (Hnb (ops ++ [op]) (reflexivity _)).
  unfold clampCount in *. rewrite fold_left_app. cbn [fold_left].
  rewrite (IH Hpre). rewrite acquires_snoc, releases_snoc in *.
  destruct op; cbn in *; lia.
Qed.

(** C2, as stated, fails: a release that comes first is a no-op, so one
    release followed by one acquire leaves the count at 1, whereas the
    difference of the totals, clamped at 0, is 0. *)
Lemma release_first_then_acquire :
  let ops := [Release 1 "BTCUSD"; Acquire 2 "BTCUSD"] in
  refCount "BTCUSD" (runOps ops initial) = 1
  ∧ Z.max 0 (acquires ops - releases ops) = 0.
Proof. by vm_compute. Qed.

(** C2, amended. After any sequence of [subscribe] and [unsubscribe] calls,
    each run to completion with its open succeeding, the count of a symbol
    is the counter of the calls on that symbol that goes up by one at an
    acquire and down by one, but not below 0, at a release; it is never
    negative; and it is the number of acquires minus the number of releases
    when no prefix of the calls holds more releases than acquires. *)
Theorem refCount_after_sequence (sym : string) (ops : list Op) :
  let mine := filter (λ op, opSymbol op = sym) ops in
  refCount sym (runOps ops initial) = clampCount mine
  ∧ 0 ≤ refCount sym (runOps ops initial)
  ∧ (neverBelow mine →
     refCount sym (runOps ops initial) = acquires mine - releases mine).
Proof.
  intros mine.
  assert (H : refCount sym (runOps ops initial) = clampCount mine).
  { by rewrite runOps_refCount. }
  split; [done|]. split.
  - rewrite H. by apply fold_clampStep_nonneg.
  - intros Hnb. rewrite H. by apply clampCount_balanced.
Qed.

Lemma refCount_after_sequence_witness :
  let ops := [Acquire 1 "btcusd"; Acquire 2 "ETHUSD"; Acquire 3 " BTCUSD";
              Release 1 "BTCUSD"] in
  neverBelow (filter (λ op, opSymbol op = "BTCUSD") ops)
  ∧ refCount "BTCUSD" (runOps ops initial) = 1.
Proof.
  intros ops.
  assert (Hnb : neverBelow (filter (λ op, opSymbol op = "BTCUSD") ops)).
  { intros pre [suf Hpre]. vm_compute in Hpre.
    destruct pre as [|o1 [|o2 [|o3 [|o4 pre]]]]; simplify_eq; by vm_compute. }
  split; [exact Hnb|].
  destruct (refCount_after_sequence "BTCUSD" ops) as (_ & _ & H).
  rewrite (H Hnb). by vm_compute.
Defined.

(** *** In every run of the machine the counts stay non-negative *)

Lemma step_refCounts_nonneg (e : Event) (s : State) :
  (∀ t, 0 ≤ refCount t s) → ∀ t, 0 ≤ refCount t (step e s).
Proof.
  intros Hs t. unfold refCount at 1.
  destruct e as [c raw|c raw|t'|t'|t'|t'|t' payload now|t' h|d|]; cbn [step].
  - rewrite subscribe_refCounts.
    destruct (decide (Text.normalize raw = t)) as [<-|Hne].
    + rewrite lookup_insert_eq. cbn. specialize (Hs (Text.normalize raw)). lia.
    + rewrite lookup_insert_ne by done. apply Hs.
  - rewrite unsubscribe_refCounts. cbn zeta.
    destruct (decide (refCount (Text.normalize raw) s ≤ 1)) as [Hc|Hc];
      destruct (decide (Text.normalize raw = t)) as [<-|Hne].
    + by rewrite lookup_delete_eq.
    + rewrite lookup_delete_ne by done. apply Hs.
    + rewrite lookup_insert_eq. cbn. lia.
    + rewrite lookup_insert_ne by done. apply Hs.
  - rewrite openSucceeds_refCounts. apply Hs.
  - rewrite openFails_refCounts. destruct (starting s !! t'); [|apply Hs].
    destruct (decide (t' = t)) as [<-|Hne].
    + rewrite lookup_insert_eq. cbn. lia.
    + rewrite lookup_insert_ne by done. apply Hs.
  - rewrite closeCompletes_refCounts. apply Hs.
  - apply Hs.
  - unfold pushPriceUpdate. destruct payload as [p|]; [|apply Hs].
    destruct (Num.isFinite (payload_price p)); apply Hs.
  - unfold onPrice. cbn [fst].
    destruct (lastPrices (on (topicKey t') h s) !! t'); apply Hs.
  - unfold runDetach, off. case_decide; [|apply Hs].
    destruct (removeLast _ _); apply Hs.
  - unfold runImmediate. destruct (immediates s); apply Hs.
Qed.

Lemma refCount_nonneg_any_trace (tr : list Event) (t : string) :
  0 ≤ refCount t (run tr initial).
Proof.
  assert (H : ∀ s, (∀ t, 0 ≤ refCount t s) → ∀ t, 0 ≤ refCount t (run tr s)).
  { induction tr as [|e tr IH]; intros s Hs; [done|].
    cbn. apply IH. by apply step_refCounts_nonneg. }
  apply H. intros t'. by vm_compute.
Qed.

(** *** Calls that do not overlap keep pages and counts in step *)

Lemma perform_consistent (op : Op) (s : State) :
  consistent s → consistent (perform op s).
Proof.
  intros [[Hst Hcl] Hpg].
  destruct op as [c raw|c raw]; cbn [perform];
    set (t := Text.normalize raw); pose proof (Hpg t) as Ht.
  - unfold subscribe, ensurePage. fold t. fold (refCount t s).
    destruct (decide (refCount t s = 0)) as [H0|H0]; cbn.
    + assert (pages s !! t = None) as Hnone.
      { destruct (pages s !! t) eqn:E; [|done].
        assert (0 < refCount t s) by (apply Ht; eauto). lia. }
      rewrite Hnone, Hst, lookup_empty.
      rewrite decide_False by (intros [? ?]; done).
      rewrite decide_False by (intros [? ?]; done).
      unfold openSucceeds. cbn. rewrite lookup_insert_eq. cbn.
      split; [split; cbn; [by rewrite Hst, delete_insert_eq, delete_empty|done]|].
      intros t'. unfold refCount. cbn.
      destruct (decide (t = t')) as [<-|Hne].
      * rewrite !lookup_insert_eq. cbn. unfold refCount in H0.
        split; [lia|eauto].
      * rewrite !lookup_insert_ne by done. apply Hpg.
    + unfold openSucceeds. cbn. rewrite Hst, lookup_empty.
      split; [done|]. intros t'. unfold refCount. cbn.
      destruct (decide (t = t')) as [<-|Hne].
      * rewrite lookup_insert_eq. cbn. rewrite Ht. unfold refCount in *.
        split; lia.
      * rewrite lookup_insert_ne by done. apply Hpg.
  - unfold unsubscribe, stopPage. fold t. fold (refCount t s).
    destruct (decide (refCount t s ≤ 1)) as [H1|H1]; cbn.
    + destruct (pages s !! t) as [page|] eqn:E.
      * rewrite Hcl, lookup_empty.
        rewrite decide_False by (intros [? ?]; done).
        unfold closeCompletes. cbn. rewrite lookup_insert_eq. cbn.
        split; [split; cbn; [done|by rewrite Hcl, delete_insert_eq, delete_empty]|].
        intros t'. unfold refCount. cbn.
        destruct (decide (t = t')) as [<-|Hne].
        -- rewrite !lookup_delete_eq. cbn. split; [by intros [? ?]|lia].
        -- rewrite !lookup_delete_ne by done. apply Hpg.
      * unfold closeCompletes. cbn. rewrite Hcl, lookup_empty.
        split; [done|]. intros t'. unfold refCount. cbn.
        destruct (decide (t = t')) as [<-|Hne].
        -- rewrite lookup_delete_eq, E. cbn. split; [by intros [? ?]|lia].
        -- rewrite lookup_delete_ne by done. apply Hpg.
    + unfold closeCompletes. cbn. rewrite Hcl, lookup_empty.
      split; [done|]. intros t'. unfold refCount. cbn.
      destruct (decide (t = t')) as [<-|Hne].
      * rewrite lookup_insert_eq. cbn. rewrite Ht. unfold refCount in *.
        split; lia.
      * rewrite lookup_insert_ne by done. apply Hpg.
Qed.

(** With calls run one after the other and opens that succeed, a symbol has
    a page exactly when its count is positive. *)
Lemma runOps_consistent (ops : list Op) : consistent (runOps ops initial).
Proof.
  assert (H : ∀ s, consistent s → consistent (runOps ops s)).
  { induction ops as [|op ops IH]; intros s Hs; [done|].
    cbn. apply IH. by apply perform_consistent. }
  apply H. split; [done|]. intros t. unfold refCount. cbn.
  rewrite !lookup_empty. cbn. split; [by intros [? ?]|lia].
Qed.

End Registry.

(** ** Concurrent calls *)

Section Concurrent.

Import Manager Scenario.

(** C3, as stated, fails: of two [subscribe] calls made before the open
    completes, the second returns at once.  Its promise is resolved while
    the open is still in [starting], and it never waits for it. *)
Lemma second_subscribe_returns_early :
  let s := run [Subscribe 1 "BTCUSD"; Subscribe 2 "BTCUSD"] initial in
  starting s !! "BTCUSD" = Some 0%nat
  ∧ pages s !! "BTCUSD" = None
  ∧ settled s = [(2%nat, Resolved)]
  ∧ awaiting s = [(1%nat, Opening "BTCUSD")].
Proof. by vm_compute. Qed.

(** C3, amended. For a symbol with no entry (count 0, no page, no open in
    flight), two [subscribe] calls made one after the other before the open
    completes issue one open call; the first call waits for it, the second
    returns at once with the count at 2, the open still in flight.  When the
    open succeeds the first call returns, and no other open has been
    issued. *)
Theorem concurrent_subscribe_opens_once (c1 c2 : Caller) (raw1 raw2 sym : string)
    (s : State) :
  Text.normalize raw1 = sym →
  Text.normalize raw2 = sym →
  refCount sym s = 0 →
  pages s !! sym = None →
  starting s !! sym = None →
  let s2 := subscribe c2 raw2 (subscribe c1 raw1 s) in
  let s3 := openSucceeds sym s2 in
  opened s2 = opened s ++ [sym]
  ∧ awaiting s2 = awaiting s ++ [(c1, Opening sym)]
  ∧ settled s2 = settled s ++ [(c2, Resolved)]
  ∧ is_Some (starting s2 !! sym)
  ∧ refCount sym s2 = 2
  ∧ opened s3 = opened s ++ [sym]
  ∧ (c1, Resolved) ∈ settled s3
  ∧ is_Some (pages s3 !! sym).
Proof.
  intros H1 H2 Hrc Hpg Hst s2 s3.
  assert (Hs1 : subscribe c1 raw1 s
                = await c1 (Opening sym)
                    (upd_starting (<[sym := List.length (opened s)]>)
                       (upd_opened (λ l, l ++ [sym])
                          (upd_refCounts (<[sym := 1]>) s)))).
  { unfold subscribe, ensurePage. rewrite H1. fold (refCount sym s).
    rewrite Hrc. cbn. rewrite Hpg, Hst.
    rewrite (decide_True _ _ (eq_refl 0)).
    rewrite !(decide_False (P := is_Some None)) by (intros [? ?]; done).
    done. }
  assert (Hs2 : s2
                = resolve c2
                    (upd_refCounts (<[sym := 2]>) (subscribe c1 raw1 s))).
  { subst s2. unfold subscribe at 1. rewrite H2. rewrite Hs1. cbn.
    rewrite lookup_insert_eq. cbn. done. }
  assert (Hstart : starting s2 !! sym = Some (List.length (opened s))).
  { rewrite Hs2, Hs1. cbn. by rewrite lookup_insert_eq. }
  split; [by rewrite Hs2, Hs1|]. split; [by rewrite Hs2, Hs1|].
  split; [by rewrite Hs2, Hs1|]. split; [by rewrite Hstart|].
  split; [rewrite Hs2; unfold refCount; cbn; by rewrite lookup_insert_eq|].
  subst s3. unfold openSucceeds. rewrite Hstart.
  split; [by rewrite Hs2, Hs1|]. split.
  - unfold settle. cbn. apply elem_of_app. right.
    apply list_elem_of_fmap. exists (c1, Opening sym). split; [done|].
    apply list_elem_of_filter. split; [done|].
    rewrite Hs2, Hs1. cbn. apply elem_of_app. right. by left.
  - cbn. rewrite lookup_insert_eq. eauto.
Qed.

Lemma concurrent_subscribe_opens_once_witness :
  Text.normalize "btcusd" = "BTCUSD"
  ∧ Text.normalize " BtcUsd " = "BTCUSD"
  ∧ opened (subscribe 2 " BtcUsd " (subscribe 1 "btcusd" initial))
    = opened initial ++ ["BTCUSD"].
Proof.
  split; [reflexivity|]. split; [reflexivity|].
  apply (concurrent_subscribe_opens_once 1 2 "btcusd" " BtcUsd " "BTCUSD" initial);
    reflexivity.
Defined.

(** C1. Two [subscribe] calls for a symbol are made before the open
    completes, and the open fails.  One reference is rolled back and the
    first call is rejected; the second call has already returned.  Nothing
    is in flight any more, the count of the symbol is 1, and the symbol has
    no page.  A third [subscribe] finds the count at 1 and opens nothing:
    the count goes to 2, still without a page. *)
Theorem failed_open_leaves_count_without_page :
  let s := run [Subscribe 1 "BTCUSD"; Subscribe 2 "BTCUSD"; OpenFails "BTCUSD"]
               initial in
  let s' := run [Subscribe 3 "BTCUSD"] s in
  starting s = ∅ ∧ closing s = ∅
  ∧ refCount "BTCUSD" s = 1
  ∧ pages s !! "BTCUSD" = None
  ∧ settled s = [(2%nat, Resolved); (1%nat, Rejected)]
  ∧ starting s' = ∅ ∧ closing s' = ∅
  ∧ refCount "BTCUSD" s' = 2
  ∧ pages s' !! "BTCUSD" = None
  ∧ opened s' = ["BTCUSD"].
Proof. by vm_compute. Qed.

End Concurrent.

(** ** [watchPrices]: the stream follows the global set of active tickers *)

Section Watch.

Import Num Manager Server Server.WatchPrices Scenario.

Lemma getActiveTickers_spec (m : State) (t : string) :
  t ∈ getActiveTickers m ↔ is_Some (pages m !! t).
Proof.
  unfold getActiveTickers. rewrite list_elem_of_fmap. split.
  - intros [[k v] [-> Hkv]]. apply elem_of_map_to_list in Hkv. by exists v.
  - intros [v Hv]. exists (t, v). split; [done|]. by apply elem_of_map_to_list.
Qed.

Lemma subscribeToTicker_facts (t : string) (mw : State * Stream) :
  wellFormed mw →
  let mw' := subscribeToTicker t mw in
  wellFormed mw' ∧ attached t mw'
  ∧ (∀ t', attached t' mw → attached t' mw')
  ∧ pages mw'.1 = pages mw.1
  ∧ onUpdate_id mw'.2 = onUpdate_id mw.2.
Proof.
  destruct mw as [m w]. intros [Hl Ho]. cbn in Hl, Ho.
  unfold subscribeToTicker. destruct (decide (t ∈ subscribed w)) as [Hin|Hn].
  - cbn zeta. split; [done|]. split; [split; cbn; auto|]. by split.
  - destruct (onPrice t (onUpdate_id w) m) as [m' off] eqn:E.
    assert (Hm : m' = (onPrice t (onUpdate_id w) m).1) by by rewrite E.
    assert (Hoff : off = {| detach_key := topicKey t; detach_handler := onUpdate_id w |}).
    { unfold onPrice in E. by simplify_eq. }
    assert (Hgrow : ∀ k, onUpdate_id w ∈ listeners k m → onUpdate_id w ∈ listeners k m').
    { intros k Hk. rewrite Hm, onPrice_listeners. case_decide; [|done].
      subst k. apply elem_of_app. by left. }
    assert (Hnew : onUpdate_id w ∈ listeners (topicKey t) m').
    { rewrite Hm, onPrice_listeners, decide_True by done.
      apply elem_of_app. right. by left. }
    cbn zeta. split; [split|split; [split|split; [|split]]]; cbn.
    + intros t' Ht'. apply elem_of_app in Ht' as [Ht'|Ht'].
      * by apply Hgrow, Hl.
      * apply list_elem_of_singleton in Ht'. by subst t'.
    + intros t' d Hd. destruct (decide (t = t')) as [<-|Hne].
      * rewrite lookup_insert_eq in Hd. by simplify_eq.
      * rewrite lookup_insert_ne in Hd by done. by apply Ho.
    + apply elem_of_app. right. by left.
    + done.
    + intros t' [Hs Ha]. cbn in Hs, Ha. split; cbn.
      * apply elem_of_app. by left.
      * by apply Hgrow.
    + rewrite Hm. unfold onPrice. cbn.
      by destruct (lastPrices m !! t).
    + done.
Qed.

Lemma attachLoop_facts (l : list string) (mw : State * Stream) :
  wellFormed mw →
  let mw' := fold_left (λ mw t, subscribeToTicker t mw) l mw in
  wellFormed mw'
  ∧ (∀ t, t ∈ l → attached t mw')
  ∧ (∀ t, attached t mw → attached t mw')
  ∧ pages mw'.1 = pages mw.1
  ∧ onUpdate_id mw'.2 = onUpdate_id mw.2.
Proof.
  revert mw. induction l as [|t l IH]; intros mw Hwf; cbn zeta.
  - cbn. split; [done|]. split; [|done].
    intros t Ht. by apply elem_of_nil in Ht.
  - cbn [fold_left].
    destruct (subscribeToTicker_facts t mw Hwf) as (Hwf1 & Ht & Hmono & Hpg & Hid).
    destruct (IH _ Hwf1) as (Hwf2 & Hall & Hmono2 & Hpg2 & Hid2).
    split; [done|]. split; [|split; [|split]].
    + intros t' Ht'. apply elem_of_cons in Ht' as [->|Ht']; auto.
    + auto.
    + congruence.
    + congruence.
Qed.

(** The first loop of the interval callback tests [subscribed] before it
    calls [subscribeToTicker], which tests it again. *)
Lemma checkInterval_first_loop (l : list string) (mw : State * Stream) :
  fold_left
    (λ mw t, if decide (t ∈ subscribed mw.2) then mw else subscribeToTicker t mw)
    l mw
  = fold_left (λ mw t, subscribeToTicker t mw) l mw.
Proof.
  revert mw. induction l as [|t l IH]; intros mw; [done|].
  cbn [fold_left]. rewrite <- IH. f_equal.
  destruct mw as [m w]. unfold subscribeToTicker. cbn.
  by destruct (decide (t ∈ subscribed w)).
Qed.

Lemma dropTicker_facts (t : string) (mw : State * Stream) :
  wellFormed mw →
  let mw' := dropTicker t mw in
  wellFormed mw'
  ∧ (∀ t', t' ≠ t → attached t' mw → attached t' mw')
  ∧ onUpdate_id mw'.2 = onUpdate_id mw.2.
Proof.
  destruct mw as [m w]. intros [Hl Ho]. cbn in Hl, Ho.
  unfold dropTicker.
  assert (Hkeep : ∀ t', t' ≠ t →
            listeners (topicKey t')
              (match offMap w !! t with
               | Some off => (runDetach off m, delete t (offMap w))
               | None => (m, offMap w)
               end).1 = listeners (topicKey t') m).
  { intros t' Hne. destruct (offMap w !! t) as [d|] eqn:E; [|done].
    rewrite (Ho _ _ E). unfold runDetach. cbn.
    rewrite listeners_off, decide_False; [done|].
    intros Heq. by apply topicKey_inj in Heq. }
  assert (Hmap : ∀ t' d,
            (match offMap w !! t with
             | Some off => (runDetach off m, delete t (offMap w))
             | None => (m, offMap w)
             end).2 !! t' = Some d → offMap w !! t' = Some d).
  { intros t' d. destruct (offMap w !! t) as [d0|] eqn:E; cbn; [|done].
    intros Hd. apply lookup_delete_Some in Hd. tauto. }
  destruct (match offMap w !! t with
            | Some off => (runDetach off m, delete t (offMap w))
            | None => (m, offMap w)
            end) as [m' om] eqn:E.
  cbn in Hkeep, Hmap. cbn zeta. split; [split|split]; cbn.
  - intros t' Ht'. apply list_elem_of_filter in Ht' as [Hne Ht'].
    rewrite Hkeep by done. by apply Hl.
  - intros t' d Hd. by apply Ho, Hmap.
  - intros t' Hne [Hs Ha]. cbn in Hs, Ha. split; cbn.
    + by apply list_elem_of_filter.
    + by rewrite Hkeep.
  - done.
Qed.

Lemma dropLoop_facts (current l : list string) (mw : State * Stream) :
  wellFormed mw →
  let mw' :=
    fold_left
      (λ mw t, if decide (t ∈ current) then mw else dropTicker t mw) l mw in
  wellFormed mw'
  ∧ (∀ t, t ∈ current → attached t mw → attached t mw')
  ∧ onUpdate_id mw'.2 = onUpdate_id mw.2.
Proof.
  revert mw. induction l as [|t l IH]; intros mw Hwf; cbn zeta; [done|].
  cbn [fold_left]. destruct (decide (t ∈ current)) as [Hin|Hn].
  - by apply IH.
  - destruct (dropTicker_facts t mw Hwf) as (Hwf1 & Hkeep & Hid).
    destruct (IH _ Hwf1) as (Hwf2 & Hkeep2 & Hid2).
    split; [done|]. split; [|congruence].
    intros t' Ht' Ha. apply Hkeep2; [done|]. apply Hkeep; [|done].
    intros ->. done.
Qed.

Lemma checkInterval_facts (mw : State * Stream) (t : string) :
  wellFormed mw →
  is_Some (pages mw.1 !! t) →
  wellFormed (checkInterval mw) ∧ attached t (checkInterval mw)
  ∧ onUpdate_id (checkInterval mw).2 = onUpdate_id mw.2.
Proof.
  intros Hwf Ht. unfold checkInterval. cbn zeta.
  rewrite checkInterval_first_loop.
  destruct (attachLoop_facts (getActiveTickers mw.1) mw Hwf)
    as (Hwf1 & Hall & _ & _ & Hid).
  set (mw1 := fold_left (λ mw t, subscribeToTicker t mw) (getActiveTickers mw.1) mw) in *.
  destruct (dropLoop_facts (getActiveTickers mw.1) (subscribed mw1.2) mw1 Hwf1)
    as (Hwf2 & Hkeep & Hid2).
  split; [done|]. split; [|congruence].
  apply Hkeep; [by apply getActiveTickers_spec|].
  by apply Hall, getActiveTickers_spec.
Qed.

Lemma start_facts (h : Handler) (m : State) (t : string) :
  is_Some (pages m !! t) →
  wellFormed (start h m) ∧ attached t (start h m)
  ∧ onUpdate_id (start h m).2 = h.
Proof.
  intros Ht. unfold start.
  set (w0 := {| subscribed := []; offMap := ∅; queue := emptyQueue;
                streamClosed := false; onUpdate_id := h |}).
  assert (Hwf : wellFormed (m, w0)).
  { split; cbn.
    - intros t' Ht'. by apply elem_of_nil in Ht'.
    - intros t' d Hd. by rewrite lookup_empty in Hd. }
  destruct (attachLoop_facts (getActiveTickers m) (m, w0) Hwf)
    as (Hwf1 & Hall & _ & _ & Hid).
  split; [done|]. split; [|done].
  by apply Hall, getActiveTickers_spec.
Qed.

(** *** From the emitter to the queue *)

Lemma onUpdate_reaches (u : PriceUpdate) (w : Stream) :
  reaches (toResponse u) (onUpdate u w).
Proof.
  unfold reaches, onUpdate, upd_queue, push. cbn.
  destruct (resolveNext (queue w)) as [p|]; cbn.
  - right. exists p. apply elem_of_app. right. by left.
  - left. apply elem_of_app. right. by left.
Qed.

Lemma onUpdate_keeps (msg : ServerStreamResponse) (u : PriceUpdate) (w : Stream) :
  reaches msg w → reaches msg (onUpdate u w).
Proof.
  unfold reaches, onUpdate, upd_queue, push. cbn.
  intros [Hp|[p Hp]]; destruct (resolveNext (queue w)) as [p'|]; cbn.
  - by left.
  - left. apply elem_of_app. by left.
  - right. exists p. apply elem_of_app. by left.
  - right. by exists p.
Qed.

Lemma dispatch_onUpdate_id (calls : list (Handler * PriceUpdate)) (w : Stream) :
  onUpdate_id (dispatch calls w) = onUpdate_id w.
Proof.
  revert w. induction calls as [|hu calls IH]; intros w; [done|].
  cbn [dispatch fold_left]. fold (dispatch calls).
  rewrite IH. by case_decide.
Qed.

Lemma dispatch_keeps (msg : ServerStreamResponse)
    (calls : list (Handler * PriceUpdate)) (w : Stream) :
  reaches msg w → reaches msg (dispatch calls w).
Proof.
  revert w. induction calls as [|hu calls IH]; intros w Hw; [done|].
  cbn [dispatch fold_left]. fold (dispatch calls). apply IH.
  case_decide; [by apply onUpdate_keeps|done].
Qed.

Lemma dispatch_reaches (u : PriceUpdate)
    (calls : list (Handler * PriceUpdate)) (w : Stream) :
  (onUpdate_id w, u) ∈ calls → reaches (toResponse u) (dispatch calls w).
Proof.
  revert w. induction calls as [|hu calls IH]; intros w Hin.
  - by apply elem_of_nil in Hin.
  - cbn [dispatch fold_left]. fold (dispatch calls).
    apply elem_of_cons in Hin as [<-|Hin].
    + cbn. rewrite decide_True by done.
      apply dispatch_keeps, onUpdate_reaches.
    + apply IH. by case_decide.
Qed.

(** A finite price pushed by the page of [t] reaches the queue of a stream
    that listens to [t]. *)
Lemma attached_receives (t : string) (p : Payload) (now : Z)
    (mw : State * Stream) :
  attached t mw →
  isFinite (payload_price p) = true →
  reaches
    {| msg_ticker := t; msg_price := payload_price p;
       msg_timestamp := if decide (payload_ts p = 0) then now else payload_ts p |}
    (managerStep (PushPriceUpdate t (Some p) now) mw).2.
Proof.
  destruct mw as [m w]. intros [_ Ha] Hfin. cbn in Ha.
  unfold managerStep. cbn [snd step].
  unfold pushPriceUpdate. rewrite Hfin. unfold emit. cbn [delivered upd_delivered].
  cbn. rewrite drop_app_length.
  set (u := {| ticker := t; price := payload_price p;
               ts := if decide (payload_ts p = 0) then now else payload_ts p;
               source := "tradingview" |}).
  change (reaches (toResponse u)
            (dispatch (map (λ h, (h, u)) (listeners (topicKey t)
               (upd_lastPrices <[t:=u]> m))) w)).
  apply dispatch_reaches. apply list_elem_of_fmap.
  exists (onUpdate_id w). split; [done|]. exact Ha.
Qed.

(** *** [wellFormed] is an invariant *)

Lemma removeLast_other (h h' : Handler) (l : list Handler) :
  h' ≠ h → h ∈ l → h ∈ removeLast h' l.
Proof.
  intros Hne. induction l as [|x l IH]; [done|].
  intros Hin. cbn. apply elem_of_cons in Hin as [<-|Hin].
  - rewrite decide_False by done. by left.
  - destruct (decide (x = h')); [destruct (decide (h' ∈ l))|];
      try (right; by apply IH). done.
Qed.

Lemma dispatch_variables (calls : list (Handler * PriceUpdate)) (w : Stream) :
  subscribed (dispatch calls w) = subscribed w
  ∧ offMap (dispatch calls w) = offMap w.
Proof.
  revert w. induction calls as [|hu calls IH]; intros w; [done|].
  change (dispatch (hu :: calls) w) with (dispatch calls (dispatch [hu] w)).
  destruct (IH (dispatch [hu] w)) as [-> ->].
  unfold dispatch. cbn. by case_decide.
Qed.

(** The events of the manager other than a detach. *)
Lemma step_keeps_listener (e : Event) (h : Handler) (key : string) (s : State) :
  (∀ d, e = RunDetach d → detach_handler d ≠ h) →
  h ∈ listeners key s → h ∈ listeners key (step e s).
Proof.
  intros Hd Hin.
  destruct e as [c raw|c raw|t'|t'|t'|t'|t' payload now|t' h'|d|]; cbn [step].
  - unfold subscribe, ensurePage. by repeat case_decide.
  - unfold unsubscribe, stopPage. case_decide; [|done]. cbn.
    destruct (pages s !! Text.normalize raw); [|done]. by case_decide.
  - unfold openSucceeds. by destruct (starting s !! t').
  - unfold openFails. by destruct (starting s !! t').
  - unfold closeCompletes. by destruct (closing s !! t').
  - done.
  - unfold pushPriceUpdate. destruct payload as [p|]; [|done].
    by destruct (isFinite (payload_price p)).
  - rewrite onPrice_listeners. case_decide; [|done].
    subst key. apply elem_of_app. by left.
  - unfold runDetach. rewrite listeners_off. case_decide; [|done].
    subst key. apply removeLast_other; [|done]. by apply Hd.
  - unfold runImmediate. by destruct (immediates s).
Qed.

(** A step of the manager that is not a call of a function of [offMap]
    of this stream keeps the stream well formed. *)
Lemma managerStep_wellFormed (e : Event) (mw : State * Stream) :
  (∀ d, e = RunDetach d → detach_handler d ≠ onUpdate_id mw.2) →
  wellFormed mw → wellFormed (managerStep e mw).
Proof.
  destruct mw as [m w]. intros Hd [Hl Ho]. cbn in Hd, Hl, Ho.
  unfold managerStep, wellFormed. cbn [fst snd].
  set (calls := drop _ _).
  destruct (dispatch_variables calls w) as [Hs Hom].
  rewrite Hs, Hom, dispatch_onUpdate_id. split.
  - intros t Ht. apply step_keeps_listener; [done|]. by apply Hl.
  - exact Ho.
Qed.

(** C9. A [watchPrices] stream, at its start and at every run of its
    interval callback (period 100 ms), has a listener on every ticker that
    has a page, whoever subscribed to it: the request is not read.  A finite
    price pushed afterwards by the page of such a ticker reaches the queue
    of the stream. *)
Theorem watch_follows_active_tickers (h : Handler) (m : State) (w : Stream)
    (t : string) (p : Payload) (now : Z) :
  wellFormed (m, w) →
  is_Some (pages m !! t) →
  isFinite (payload_price p) = true →
  let msg :=
    {| msg_ticker := t; msg_price := payload_price p;
       msg_timestamp := if decide (payload_ts p = 0) then now else payload_ts p |} in
  checkIntervalMs = 100
  ∧ attached t (checkInterval (m, w))
  ∧ wellFormed (checkInterval (m, w))
  ∧ reaches msg
      (managerStep (PushPriceUpdate t (Some p) now) (checkInterval (m, w))).2
  ∧ attached t (start h m)
  ∧ wellFormed (start h m)
  ∧ reaches msg (managerStep (PushPriceUpdate t (Some p) now) (start h m)).2.
Proof.
  intros Hwf Ht Hfin msg.
  destruct (checkInterval_facts (m, w) t Hwf Ht) as (Hwf1 & Ha1 & _).
  destruct (start_facts h m t Ht) as (Hwf2 & Ha2 & _).
  split; [done|]. split; [done|]. split; [done|].
  split; [by apply attached_receives|]. split; [done|]. split; [done|].
  by apply attached_receives.
Qed.

(** Another session subscribes to ETHUSD while a watch stream with no
    ticker is running; the next run of the interval callback attaches the
    stream, and the next price of ETHUSD is queued for it. *)
Lemma watch_follows_active_tickers_witness :
  let m := run [Subscribe 1 "ethusd"; OpenSucceeds "ETHUSD"] initial in
  let w := (start 7 initial).2 in
  let p := mkPayload (Finite false 3000 0) 5 in
  wellFormed (m, w)
  ∧ is_Some (pages m !! "ETHUSD")
  ∧ isFinite (payload_price p) = true
  ∧ reaches
      {| msg_ticker := "ETHUSD"; msg_price := Finite false 3000 0;
         msg_timestamp := 5 |}
      (managerStep (PushPriceUpdate "ETHUSD" (Some p) 9) (checkInterval (m, w))).2.
Proof.
  intros m w p.
  assert (Hwf : wellFormed (m, w)).
  { split.
    - intros t Ht. vm_compute in Ht. by apply elem_of_nil in Ht.
    - intros t d Hd.
      change (WatchPrices.offMap (m, w).2) with (∅ : gmap string Detach) in Hd.
      by rewrite lookup_empty in Hd. }
  assert (Hpg : is_Some (pages m !! "ETHUSD")).
  { exists 0%nat. by vm_compute. }
  split; [exact Hwf|]. split; [exact Hpg|]. split; [reflexivity|].
  apply (watch_follows_active_tickers 7 m w "ETHUSD" p 9 Hwf Hpg eq_refl).
Defined.

End Watch.

(** ** Queues: nothing is lost, nothing is repeated *)

Section QueueInvariants.

Import Server Scenario Runs.

Lemma streamStep_invariant (op : StreamOp) (q : Queue)
    (got : list ServerStreamResponse) :
  (is_Some (resolveNext q) → pending q = []) →
  let qg := streamStep op (q, got) in
  qg.2 ++ pending qg.1
  = got ++ pending q ++ (match op with PushOp msg => [msg] | PullOp => [] end)
  ∧ (is_Some (resolveNext qg.1) → pending qg.1 = []).
Proof.
  intros Hw. destruct op as [|msg]; cbn.
  - unfold StreamPrices.tryDequeue. destruct (pending q) as [|m ms] eqn:E; cbn.
    + rewrite E. by split.
    + rewrite E. cbn. split; [by rewrite <- app_assoc, app_nil_r|].
      intros Hs. by specialize (Hw Hs).
  - unfold push. destruct (resolveNext q) as [p|] eqn:E; cbn.
    + rewrite Hw by eauto. split; [by rewrite app_nil_r|]. by intros [? ?].
    + split; [done|]. by intros [? ?].
Qed.

Lemma streamSteps_invariant (ops : list StreamOp) (q : Queue)
    (got : list ServerStreamResponse) :
  (is_Some (resolveNext q) → pending q = []) →
  let qg := fold_left (λ qg op, streamStep op qg) ops (q, got) in
  qg.2 ++ pending qg.1 = got ++ pending q ++ pushedBy ops
  ∧ (is_Some (resolveNext qg.1) → pending qg.1 = []).
Proof.
  revert q got. induction ops as [|op ops IH]; intros q got Hw; cbn zeta.
  - cbn. by rewrite app_nil_r.
  - cbn [fold_left].
    destruct (streamStep_invariant op q got Hw) as [H1 H2].
    destruct (streamStep op (q, got)) as [q1 got1]. cbn in H1, H2.
    destruct (IH q1 got1 H2) as [H3 H4]. split; [|done].
    rewrite H3, app_assoc, H1. destruct op; cbn; by rewrite <- !app_assoc.
Qed.

(** X29. Whatever the order of pushes and pulls on the queue of [streamPrices],
    the messages received so far followed by the messages still queued are
    the messages pushed, in the order of the pushes; and a pull waits only
    while the queue is empty. *)
Theorem stream_queue_conserves (ops : list StreamOp) :
  let qg := fold_left (λ qg op, streamStep op qg) ops (emptyQueue, []) in
  qg.2 ++ pending qg.1 = pushedBy ops
  ∧ (is_Some (resolveNext qg.1) → pending qg.1 = []).
Proof.
  apply (streamSteps_invariant ops emptyQueue []). by intros [? ?].
Qed.

Lemma stream_queue_conserves_witness :
  let ops :=
    [Runs.PullOp;
     Runs.PushOp (Server.mkResponse "BTCUSD" (Num.Finite false 5 0) 1);
     Runs.PushOp (Server.mkResponse "BTCUSD" (Num.Finite false 6 0) 2)] in
  let qg :=
    fold_left (λ qg op, Runs.streamStep op qg) ops (Server.emptyQueue, []) in
  qg.2 ++ Server.pending qg.1 = Runs.pushedBy ops
  ∧ (is_Some (Server.resolveNext qg.1) → Server.pending qg.1 = []).
Proof. intros ops. exact (stream_queue_conserves ops). Defined.




End QueueInvariants.

(** ** The registry: when pages are opened and closed *)

Section OpenClose.

Import Manager Scenario Runs.

Lemma callsFor_snoc (t x : string) (log : list string) :
  callsFor t (log ++ [x]) = callsFor t log + (if decide (x = t) then 1 else 0).
Proof.
  unfold callsFor. rewrite filter_app, List.length_app.
  rewrite filter_cons, filter_nil. case_decide; cbn; lia.
Qed.

(** The calls that one operation makes, in a consistent state. *)
Lemma perform_calls (op : Op) (s : State) :
  consistent s →
  let t := opSymbol op in
  opened (perform op s)
  = opened s ++ (if isAcquire op
                 then if decide (refCount t s = 0) then [t] else []
                 else [])
  ∧ closed (perform op s)
    = closed s ++ (if isAcquire op then []
                   else if decide (refCount t s = 1) then [t] else []).
Proof.
  intros [[Hst Hcl] Hpg].
  destruct op as [c raw|c raw]; cbn [perform opSymbol isAcquire];
    set (t := Text.normalize raw); pose proof (Hpg t) as Ht; cbn zeta.
  - unfold subscribe, ensurePage. fold t. fold (refCount t s).
    destruct (decide (refCount t s = 0)) as [H0|H0]; cbn.
    + assert (pages s !! t = None) as Hnone.
      { destruct (pages s !! t) eqn:E; [|done].
        assert (0 < refCount t s) by (apply Ht; eauto). lia. }
      rewrite Hnone, Hst, lookup_empty.
      rewrite !(decide_False (P := is_Some None)) by (intros [? ?]; done).
      unfold openSucceeds. cbn. rewrite lookup_insert_eq. cbn.
      by rewrite app_nil_r.
    + unfold openSucceeds. cbn. rewrite Hst, lookup_empty. cbn.
      by rewrite !app_nil_r.
  - unfold unsubscribe, stopPage. fold t. fold (refCount t s).
    destruct (decide (refCount t s ≤ 1)) as [H1|H1]; cbn.
    + destruct (pages s !! t) as [page|] eqn:E.
      * assert (refCount t s = 1) as H1'.
        { assert (0 < refCount t s) by (apply Ht; eauto). lia. }
        rewrite Hcl, lookup_empty.
        rewrite !(decide_False (P := is_Some None)) by (intros [? ?]; done).
        unfold closeCompletes. cbn. rewrite lookup_insert_eq. cbn.
        rewrite decide_True by done. by rewrite app_nil_r.
      * assert (refCount t s ≠ 1) as H1'.
        { intros Heq. assert (is_Some (@None nat)) as [? ?] by (apply Ht; lia).
          congruence. }
        unfold closeCompletes. cbn. rewrite Hcl, lookup_empty. cbn.
        rewrite decide_False by done. by rewrite !app_nil_r.
    + unfold closeCompletes. cbn. rewrite Hcl, lookup_empty. cbn.
      rewrite decide_False by lia. by rewrite !app_nil_r.
Qed.

(** X1. With calls that do not overlap and opens that succeed, a page is
    opened exactly by the [subscribe] that finds the count of its symbol at
    0, and closed exactly by the [unsubscribe] that finds it at 1: a second
    holder opens nothing, and releasing one of two references closes
    nothing. *)
Theorem page_calls_at_zero_crossings (c : Caller) (tickerRaw : string)
    (s : State) :
  consistent s →
  let t := Text.normalize tickerRaw in
  let up := perform (Acquire c tickerRaw) s in
  let down := perform (Release c tickerRaw) s in
  opened up = opened s ++ (if decide (refCount t s = 0) then [t] else [])
  ∧ closed up = closed s
  ∧ closed down = closed s ++ (if decide (refCount t s = 1) then [t] else [])
  ∧ opened down = opened s
  ∧ consistent up ∧ consistent down.
Proof.
  intros Hs t up down.
  destruct (perform_calls (Acquire c tickerRaw) s Hs) as [H1 H2].
  destruct (perform_calls (Release c tickerRaw) s Hs) as [H3 H4].
  cbn in H1, H2, H3, H4. rewrite app_nil_r in H2, H3.
  repeat split; try done; try (by apply perform_consistent); apply Hs.
Qed.

Lemma page_calls_at_zero_crossings_witness :
  let s := runOps [Acquire 1 "ADAUSD"; Acquire 2 "adausd"] initial in
  consistent s
  ∧ closed (perform (Release 1 "ADAUSD") s) = closed s ++ []
  ∧ closed (perform (Release 2 "ADAUSD") (perform (Release 1 "ADAUSD") s))
    = closed s ++ ["ADAUSD"].
Proof.
  intros s.
  assert (Hs : consistent s) by apply runOps_consistent.
  assert (Hs1 : consistent (perform (Release 1 "ADAUSD") s))
    by by apply perform_consistent.
  split; [exact Hs|]. split.
  - destruct (page_calls_at_zero_crossings 1 "ADAUSD" s Hs) as (_ & _ & H & _).
    rewrite H. by vm_compute.
  - destruct (page_calls_at_zero_crossings 2 "ADAUSD" _ Hs1) as (_ & _ & H & _).
    rewrite H. by vm_compute.
Defined.

Lemma perform_balance (op : Op) (s : State) :
  consistent s →
  (∀ t, callsFor t (opened s) = callsFor t (closed s) + pageCount t s) →
  ∀ t, callsFor t (opened (perform op s))
       = callsFor t (closed (perform op s)) + pageCount t (perform op s).
Proof.
  intros Hs Hb t.
  destruct (perform_calls op s Hs) as [Ho Hc].
  pose proof (perform_consistent op s Hs) as [_ Hpg'].
  destruct Hs as [_ Hpg].
  rewrite Ho, Hc. specialize (Hb t).
  assert (Hpc : ∀ s', (∀ t, is_Some (pages s' !! t) ↔ 0 < refCount t s') →
            pageCount t s' = if decide (0 < refCount t s') then 1 else 0).
  { intros s' Hiff. unfold pageCount. specialize (Hiff t).
    destruct (pages s' !! t) eqn:E;
      destruct (decide (0 < refCount t s')) as [Hpos|Hneg]; try done.
    - exfalso. apply Hneg, Hiff. eauto.
    - apply Hiff in Hpos as [? ?]. congruence. }
  rewrite (Hpc _ Hpg'). rewrite (Hpc _ Hpg) in Hb.
  rewrite perform_refCount.
  destruct op as [c raw|c raw]; cbn [isAcquire opSymbol clampStep];
    set (u := Text.normalize raw) in *.
  - rewrite app_nil_r. destruct (decide (u = t)) as [<-|Hne].
    + destruct (decide (refCount u s = 0)) as [H0|H0].
      * rewrite callsFor_snoc, decide_True by done.
        rewrite H0 in *. repeat case_decide; lia.
      * rewrite app_nil_r. pose proof (proj1 (Hpg u)) as Hp.
        repeat case_decide; try lia.
    + destruct (decide (refCount u s = 0)).
      * rewrite callsFor_snoc, decide_False by done. lia.
      * rewrite app_nil_r. lia.
  - rewrite app_nil_r. destruct (decide (u = t)) as [<-|Hne].
    + destruct (decide (refCount u s = 1)) as [H1|H1].
      * rewrite callsFor_snoc, decide_True by done.
        rewrite H1 in *. repeat case_decide; lia.
      * rewrite app_nil_r. repeat case_decide; lia.
    + destruct (decide (refCount u s = 1)).
      * rewrite callsFor_snoc, decide_False by done. lia.
      * rewrite app_nil_r. lia.
Qed.

(** X2. After any sequence of calls that do not overlap, with opens that
    succeed: nothing is in flight, a symbol has a page exactly when its
    count is positive, and the pages opened for a symbol are the pages
    closed for it plus the one it has now.  No page is left open at count
    0, and none is closed twice. *)
Theorem sequential_run_balanced (ops : list Op) (t : string) :
  let s := runOps ops initial in
  consistent s
  ∧ callsFor t (opened s) = callsFor t (closed s) + pageCount t s
  ∧ (refCount t s = 0 → callsFor t (opened s) = callsFor t (closed s)).
Proof.
  cbn zeta.
  assert (H : ∀ s, consistent s →
            (∀ t, callsFor t (opened s) = callsFor t (closed s) + pageCount t s) →
            consistent (runOps ops s)
            ∧ ∀ t, callsFor t (opened (runOps ops s))
                   = callsFor t (closed (runOps ops s)) + pageCount t (runOps ops s)).
  { induction ops as [|op ops IH]; intros s Hs Hb; [done|].
    cbn. apply IH; [by apply perform_consistent|by apply perform_balance]. }
  destruct (H initial) as [Hc Hb].
  { apply (runOps_consistent []). }
  { intros t'. by vm_compute. }
  split; [done|]. split; [done|].
  intros H0. rewrite Hb. unfold pageCount.
  destruct (pages (runOps ops initial) !! t) eqn:E; [|lia].
  destruct Hc as [_ Hpg]. assert (0 < refCount t (runOps ops initial)).
  { apply Hpg. eauto. }
  lia.
Qed.

Lemma sequential_run_balanced_witness :
  let s :=
    Scenario.runOps [Scenario.Acquire 1%nat "btcusd";
                     Scenario.Release 2%nat "BTCUSD"] Manager.initial in
  Scenario.consistent s
  ∧ Runs.callsFor "BTCUSD" (Manager.opened s)
    = Runs.callsFor "BTCUSD" (Manager.closed s) + Runs.pageCount "BTCUSD" s
  ∧ (Manager.refCount "BTCUSD" s = 0 →
     Runs.callsFor "BTCUSD" (Manager.opened s)
     = Runs.callsFor "BTCUSD" (Manager.closed s)).
Proof.
  exact (sequential_run_balanced
           [Scenario.Acquire 1%nat "btcusd"; Scenario.Release 2%nat "BTCUSD"]
           "BTCUSD").
Defined.

End OpenClose.

(** ** The registry: calls that overlap an open or a close *)

Section Races.

Import Manager Scenario Runs.

(** A symbol without entry: count 0, no page, no open in flight. *)
Lemma subscribe_opens (c : Caller) (raw sym : string) (s : State) :
  Text.normalize raw = sym →
  refCount sym s = 0 →
  pages s !! sym = None →
  starting s !! sym = None →
  subscribe c raw s
  = await c (Opening sym)
      (upd_starting (<[sym := List.length (opened s)]>)
         (upd_opened (λ l, l ++ [sym])
            (upd_refCounts (<[sym := 1]>) s))).
Proof.
  intros Hn Hrc Hpg Hst.
  unfold subscribe, ensurePage. rewrite Hn. fold (refCount sym s).
  rewrite Hrc. cbn. rewrite Hpg, Hst.
  rewrite (decide_True _ _ (eq_refl 0)).
  by rewrite !(decide_False (P := is_Some None)) by (intros [? ?]; done).
Qed.

Ltac maps :=
  repeat first
    [ rewrite lookup_insert_eq | rewrite lookup_delete_eq
    | rewrite lookup_empty ].

(** *** The branches of the methods *)

Lemma subscribe_first (c : Caller) (raw sym : string) (s : State) :
  Text.normalize raw = sym → refCount sym s = 0 →
  subscribe c raw s = ensurePage c sym (upd_refCounts (<[sym := 1]>) s).
Proof.
  intros Hn Hrc. unfold subscribe. rewrite Hn. fold (refCount sym s).
  rewrite Hrc. by rewrite (decide_True (P := 0 = 0)).
Qed.

Lemma subscribe_more (c : Caller) (raw sym : string) (s : State) :
  Text.normalize raw = sym → refCount sym s ≠ 0 →
  subscribe c raw s
  = resolve c (upd_refCounts (<[sym := refCount sym s + 1]>) s).
Proof.
  intros Hn Hrc. unfold subscribe. rewrite Hn. fold (refCount sym s).
  by rewrite (decide_False (P := refCount sym s = 0)).
Qed.

Lemma ensurePage_present (c : Caller) (sym : string) (s : State) :
  is_Some (pages s !! sym) → ensurePage c sym s = resolve c s.
Proof. intros H. unfold ensurePage. by rewrite decide_True. Qed.

Lemma ensurePage_joins (c : Caller) (sym : string) (s : State) :
  pages s !! sym = None → is_Some (starting s !! sym) →
  ensurePage c sym s = await c (Opening sym) s.
Proof.
  intros Hp Hs. unfold ensurePage. rewrite Hp.
  rewrite (decide_False (P := is_Some None)) by (intros [? ?]; done).
  by rewrite decide_True.
Qed.

Lemma unsubscribe_last (c : Caller) (raw sym : string) (s : State) :
  Text.normalize raw = sym → refCount sym s ≤ 1 →
  unsubscribe c raw s = stopPage c sym (upd_refCounts (delete sym) s).
Proof.
  intros Hn Hrc. unfold unsubscribe. rewrite Hn. fold (refCount sym s).
  by rewrite (decide_True (P := refCount sym s ≤ 1)).
Qed.

Lemma stopPage_absent (c : Caller) (sym : string) (s : State) :
  pages s !! sym = None → stopPage c sym s = resolve c s.
Proof. intros H. unfold stopPage. by rewrite H. Qed.

Lemma stopPage_closes (c : Caller) (sym : string) (page : Page) (s : State) :
  pages s !! sym = Some page → closing s !! sym = None →
  stopPage c sym s
  = await c (Closing sym)
      (upd_closing (<[sym := page]>) (upd_closed (λ l, l ++ [sym]) s)).
Proof.
  intros Hp Hc. unfold stopPage. rewrite Hp, Hc.
  by rewrite (decide_False (P := is_Some None)) by (intros [? ?]; done).
Qed.

Lemma openSucceeds_in_flight (sym : string) (page : Page) (s : State) :
  starting s !! sym = Some page →
  openSucceeds sym s
  = settle (Opening sym) Resolved
      (upd_starting (delete sym) (upd_pages (<[sym := page]>) s)).
Proof. intros H. unfold openSucceeds. by rewrite H. Qed.

Lemma closeCompletes_in_flight (sym : string) (page : Page) (s : State) :
  closing s !! sym = Some page →
  closeCompletes sym s
  = settle (Closing sym) Resolved
      (upd_closing (delete sym) (upd_pages (delete sym) s)).
Proof. intros H. unfold closeCompletes. by rewrite H. Qed.

Lemma settled_by (p : Pending) (o : Outcome) (c : Caller) (s : State) :
  (c, p) ∈ awaiting s → (c, o) ∈ settled (settle p o s).
Proof.
  intros Hin. unfold settle. cbn. apply elem_of_app. right.
  apply list_elem_of_fmap. exists (c, p). split; [done|].
  by apply list_elem_of_filter.
Qed.

(** X3. An open that fails, with no other call in between, undoes the
    [subscribe] that started it: the count is back at 0 (the entry stays in
    the map with value 0), there is no page, nothing is in flight, and the
    call is rejected.  The next [subscribe] starts a new open.  No
    [page.close()] is issued for the page that [newPage] had created. *)
Theorem failed_open_can_be_retried (c c' : Caller) (raw sym : string)
    (s : State) :
  Text.normalize raw = sym →
  refCount sym s = 0 →
  pages s !! sym = None →
  starting s !! sym = None →
  let s1 := openFails sym (subscribe c raw s) in
  let s2 := subscribe c' raw s1 in
  refCounts s1 !! sym = Some 0
  ∧ pages s1 !! sym = None
  ∧ starting s1 !! sym = None
  ∧ (c, Rejected) ∈ settled s1
  ∧ (∀ c0, (c0, Opening sym) ∉ awaiting s1)
  ∧ opened s2 = opened s ++ [sym; sym]
  ∧ is_Some (starting s2 !! sym)
  ∧ refCount sym s2 = 1
  ∧ closed s2 = closed s.
Proof.
  intros Hn Hrc Hpg Hst s1 s2.
  assert (Hrc1 : refCounts s1 !! sym = Some 0).
  { subst s1. rewrite (subscribe_opens c raw sym s) by done.
    unfold openFails. cbn. maps. cbn. by maps. }
  assert (Hpg1 : pages s1 !! sym = None).
  { subst s1. rewrite (subscribe_opens c raw sym s) by done.
    unfold openFails. cbn. maps. cbn. by maps. }
  assert (Hst1 : starting s1 !! sym = None).
  { subst s1. rewrite (subscribe_opens c raw sym s) by done.
    unfold openFails. cbn. maps. cbn. by maps. }
  assert (Hop1 : opened s1 = opened s ++ [sym]).
  { subst s1. rewrite (subscribe_opens c raw sym s) by done.
    unfold openFails. cbn. by maps. }
  split; [done|]. split; [done|]. split; [done|]. split; [|split].
  - subst s1. rewrite (subscribe_opens c raw sym s) by done.
    unfold openFails. cbn. maps. unfold settle. cbn. apply elem_of_app. right.
    apply list_elem_of_fmap. exists (c, Opening sym). split; [done|].
    apply list_elem_of_filter. split; [done|]. apply elem_of_app. right. by left.
  - intros c0 Hin. subst s1. rewrite (subscribe_opens c raw sym s) in Hin by done.
    unfold openFails in Hin. cbn in Hin. rewrite lookup_insert_eq in Hin.
    unfold settle in Hin. cbn in Hin.
    apply list_elem_of_filter in Hin as [Hne _]. by apply Hne.
  - subst s2. rewrite (subscribe_opens c' raw sym s1); try done.
    + assert (Hcl1 : closed s1 = closed s).
      { subst s1. rewrite (subscribe_opens c raw sym s) by done.
        unfold openFails. cbn. by maps. }
      cbn. rewrite Hop1, Hcl1. maps. rewrite <- app_assoc. cbn.
      split; [done|]. split; [eauto|]. split; [|done].
      unfold refCount. cbn. by maps.
    + unfold refCount. by rewrite Hrc1.
Qed.

Lemma failed_open_can_be_retried_witness :
  Text.normalize " solusd" = "SOLUSD"
  ∧ opened (subscribe 2 " solusd" (openFails "SOLUSD" (subscribe 1 " solusd" initial)))
    = opened initial ++ ["SOLUSD"; "SOLUSD"].
Proof.
  split; [reflexivity|].
  apply (failed_open_can_be_retried 1 2 " solusd" "SOLUSD" initial); reflexivity.
Defined.

(** The state after a [subscribe] that has started an open, and an
    [unsubscribe] made before the open completes. *)
Lemma unsubscribe_during_open (c c' : Caller) (raw sym : string) (s : State) :
  Text.normalize raw = sym →
  refCount sym s = 0 →
  pages s !! sym = None →
  starting s !! sym = None →
  unsubscribe c' raw (subscribe c raw s)
  = resolve c'
      (upd_refCounts (delete sym)
         (await c (Opening sym)
            (upd_starting (<[sym := List.length (opened s)]>)
               (upd_opened (λ l, l ++ [sym])
                  (upd_refCounts (<[sym := 1]>) s))))).
Proof.
  intros Hn Hrc Hpg Hst. rewrite (subscribe_opens c raw sym s) by done.
  rewrite (unsubscribe_last c' raw sym).
  - by rewrite stopPage_absent.
  - done.
  - unfold refCount. cbn [refCounts await upd_starting upd_opened upd_refCounts upd_awaiting].
    rewrite lookup_insert_eq. cbn. lia.
Qed.

(** X4. An [unsubscribe] made while the open of the only reference is
    still in flight returns at once and closes nothing; when the open then
    succeeds the symbol has a page at count 0.  The page stays until a later
    [unsubscribe], which closes it. *)
Theorem release_during_open_leaves_page (c c' c'' : Caller) (raw sym : string)
    (s : State) :
  Text.normalize raw = sym →
  refCount sym s = 0 →
  pages s !! sym = None →
  starting s !! sym = None →
  closing s !! sym = None →
  let s2 := unsubscribe c' raw (subscribe c raw s) in
  let s3 := openSucceeds sym s2 in
  let s4 := closeCompletes sym (unsubscribe c'' raw s3) in
  settled s2 = settled s ++ [(c', Resolved)]
  ∧ closed s3 = closed s
  ∧ refCount sym s3 = 0
  ∧ is_Some (pages s3 !! sym)
  ∧ starting s3 !! sym = None
  ∧ closed s4 = closed s ++ [sym]
  ∧ pages s4 !! sym = None.
Proof.
  intros Hn Hrc Hpg Hst Hcl s2 s3 s4.
  assert (E2 : s2 = resolve c'
                 (upd_refCounts (delete sym)
                    (await c (Opening sym)
                       (upd_starting (<[sym := List.length (opened s)]>)
                          (upd_opened (λ l, l ++ [sym])
                             (upd_refCounts (<[sym := 1]>) s)))))).
  { by apply unsubscribe_during_open. }
  assert (E3 : s3 = settle (Opening sym) Resolved
                 (upd_starting (delete sym)
                    (upd_pages (<[sym := List.length (opened s)]>) s2))).
  { apply openSucceeds_in_flight. rewrite E2. apply lookup_insert_eq. }
  clearbody s2 s3. subst s2.
  assert (Hrc3 : refCounts s3 !! sym = None).
  { rewrite E3. apply lookup_delete_eq. }
  assert (Hpg3 : pages s3 !! sym = Some (List.length (opened s))).
  { rewrite E3. apply lookup_insert_eq. }
  assert (Hcl3 : closing s3 = closing s) by by rewrite E3.
  assert (Hclosed3 : closed s3 = closed s) by by rewrite E3.
  split; [done|]. split; [done|].
  split; [unfold refCount; by rewrite Hrc3|].
  split; [rewrite Hpg3; eauto|].
  split; [rewrite E3; apply lookup_delete_eq|].
  assert (E4 : s4 = settle (Closing sym) Resolved
                 (upd_closing (delete sym)
                    (upd_pages (delete sym)
                       (await c'' (Closing sym)
                          (upd_closing (<[sym := List.length (opened s)]>)
                             (upd_closed (λ l, l ++ [sym])
                                (upd_refCounts (delete sym) s3))))))).
  { subst s4. rewrite (unsubscribe_last c'' raw sym s3);
      [|done|unfold refCount; rewrite Hrc3; cbn; lia].
    rewrite (stopPage_closes c'' sym (List.length (opened s)));
      [|exact Hpg3|cbn [closing upd_refCounts]; by rewrite Hcl3].
    apply closeCompletes_in_flight with (page := List.length (opened s)).
    apply lookup_insert_eq. }
  clearbody s4. split.
  - rewrite E4. cbn. by rewrite Hclosed3.
  - rewrite E4. apply lookup_delete_eq.
Qed.

Lemma release_during_open_leaves_page_witness :
  Text.normalize "dotusd" = "DOTUSD"
  ∧ is_Some (pages (openSucceeds "DOTUSD"
                      (unsubscribe 2 "dotusd" (subscribe 1 "dotusd" initial)))
             !! "DOTUSD").
Proof.
  split; [reflexivity|].
  apply (release_during_open_leaves_page 1 2 3 "dotusd" "DOTUSD" initial);
    reflexivity.
Defined.

(** X5. A [subscribe] made while the close of the last reference is still
    in flight finds the page still in [pages]: it returns at once and opens
    nothing.  When the close completes the symbol has count 1 and no page. *)
Theorem acquire_during_close_loses_page (c c' : Caller) (raw sym : string)
    (page : Page) (s : State) :
  Text.normalize raw = sym →
  refCount sym s = 1 →
  pages s !! sym = Some page →
  closing s !! sym = None →
  let s1 := unsubscribe c raw s in
  let s2 := subscribe c' raw s1 in
  let s3 := closeCompletes sym s2 in
  closed s1 = closed s ++ [sym]
  ∧ settled s2 = settled s ++ [(c', Resolved)]
  ∧ opened s3 = opened s
  ∧ refCount sym s3 = 1
  ∧ pages s3 !! sym = None
  ∧ closing s3 !! sym = None
  ∧ (c, Resolved) ∈ settled s3.
Proof.
  intros Hn Hrc Hpg Hcl s1 s2 s3.
  assert (E1 : s1 = await c (Closing sym)
                      (upd_closing (<[sym := page]>)
                         (upd_closed (λ l, l ++ [sym])
                            (upd_refCounts (delete sym) s)))).
  { subst s1. rewrite (unsubscribe_last c raw sym s) by (done || lia).
    by apply stopPage_closes. }
  clearbody s1.
  assert (Hrc1 : refCounts s1 !! sym = None).
  { rewrite E1. apply lookup_delete_eq. }
  assert (Hpg1 : pages s1 = pages s) by by rewrite E1.
  assert (E2 : s2 = resolve c' (upd_refCounts (<[sym := 1]>) s1)).
  { subst s2. rewrite (subscribe_first c' raw sym s1);
      [|done|unfold refCount; by rewrite Hrc1].
    apply ensurePage_present.
    cbn [pages upd_refCounts]. rewrite Hpg1, Hpg. eauto. }
  clearbody s2.
  assert (E3 : s3 = settle (Closing sym) Resolved
                 (upd_closing (delete sym) (upd_pages (delete sym) s2))).
  { apply closeCompletes_in_flight with (page := page).
    rewrite E2, E1. apply lookup_insert_eq. }
  clearbody s3.
  split; [by rewrite E1|]. split; [by rewrite E2, E1|].
  split; [by rewrite E3, E2, E1|].
  split; [rewrite E3, E2; unfold refCount; cbn; by rewrite lookup_insert_eq|].
  split; [rewrite E3; apply lookup_delete_eq|].
  split; [rewrite E3; apply lookup_delete_eq|].
  rewrite E3. apply settled_by. rewrite E2, E1. cbn.
  apply elem_of_app. right. by left.
Qed.

Lemma acquire_during_close_loses_page_witness :
  let s := runOps [Acquire 1 "ETHUSD"] initial in
  refCount "ETHUSD" s = 1
  ∧ pages s !! "ETHUSD" = Some 0%nat
  ∧ pages (closeCompletes "ETHUSD"
             (subscribe 3 "ethusd " (unsubscribe 2 "ethusd " s))) !! "ETHUSD"
    = None.
Proof.
  intros s. split; [by vm_compute|]. split; [by vm_compute|].
  apply (acquire_during_close_loses_page 2 3 "ethusd " "ETHUSD" 0 s);
    by vm_compute.
Defined.

(** X6. A [subscribe] that follows an [unsubscribe] while the first open of
    the symbol is still in flight joins that open instead of starting
    another: one page is created, both [subscribe] calls return when the
    open succeeds, and the symbol then has a page at count 1. *)
Theorem resubscribe_joins_open_in_flight (c1 c2 c3 : Caller) (raw sym : string)
    (s : State) :
  Text.normalize raw = sym →
  refCount sym s = 0 →
  pages s !! sym = None →
  starting s !! sym = None →
  let s3 := subscribe c3 raw (unsubscribe c2 raw (subscribe c1 raw s)) in
  let s4 := openSucceeds sym s3 in
  opened s3 = opened s ++ [sym]
  ∧ awaiting s3 = awaiting s ++ [(c1, Opening sym); (c3, Opening sym)]
  ∧ opened s4 = opened s ++ [sym]
  ∧ (c1, Resolved) ∈ settled s4
  ∧ (c3, Resolved) ∈ settled s4
  ∧ refCount sym s4 = 1
  ∧ is_Some (pages s4 !! sym)
  ∧ starting s4 !! sym = None.
Proof.
  intros Hn Hrc Hpg Hst s3 s4.
  set (s2 := unsubscribe c2 raw (subscribe c1 raw s)) in *.
  assert (E2 : s2 = resolve c2
                 (upd_refCounts (delete sym)
                    (await c1 (Opening sym)
                       (upd_starting (<[sym := List.length (opened s)]>)
                          (upd_opened (λ l, l ++ [sym])
                             (upd_refCounts (<[sym := 1]>) s)))))).
  { by apply unsubscribe_during_open. }
  clearbody s2.
  assert (Hrc2 : refCounts s2 !! sym = None).
  { rewrite E2. apply lookup_delete_eq. }
  assert (Hst2 : starting s2 !! sym = Some (List.length (opened s))).
  { rewrite E2. apply lookup_insert_eq. }
  assert (Hpg2 : pages s2 = pages s) by by rewrite E2.
  assert (E3 : s3 = await c3 (Opening sym) (upd_refCounts (<[sym := 1]>) s2)).
  { subst s3. rewrite (subscribe_first c3 raw sym s2);
      [|done|unfold refCount; by rewrite Hrc2].
    apply ensurePage_joins.
    - cbn [pages upd_refCounts]. by rewrite Hpg2.
    - cbn [starting upd_refCounts]. rewrite Hst2. eauto. }
  clearbody s3.
  assert (E4 : s4 = settle (Opening sym) Resolved
                 (upd_starting (delete sym)
                    (upd_pages (<[sym := List.length (opened s)]>) s3))).
  { apply openSucceeds_in_flight. rewrite E3. exact Hst2. }
  clearbody s4.
  assert (Haw : awaiting s3 = awaiting s ++ [(c1, Opening sym); (c3, Opening sym)]).
  { rewrite E3, E2. cbn. by rewrite <- app_assoc. }
  split; [by rewrite E3, E2|]. split; [exact Haw|].
  split; [by rewrite E4, E3, E2|].
  split; [rewrite E4; apply settled_by; cbn [awaiting upd_starting upd_pages];
          rewrite Haw; apply elem_of_app; right; by left|].
  split; [rewrite E4; apply settled_by; cbn [awaiting upd_starting upd_pages];
          rewrite Haw; apply elem_of_app; right; right; by left|].
  split; [rewrite E4, E3; unfold refCount; cbn; by rewrite lookup_insert_eq|].
  split; [rewrite E4; cbn; rewrite lookup_insert_eq; eauto|].
  rewrite E4. apply lookup_delete_eq.
Qed.

Lemma resubscribe_joins_open_in_flight_witness :
  Text.normalize "ADAUSD" = "ADAUSD"
  ∧ opened (subscribe 3 "ADAUSD" (unsubscribe 2 "ADAUSD" (subscribe 1 "ADAUSD" initial)))
    = opened initial ++ ["ADAUSD"].
Proof.
  split; [reflexivity|].
  apply (resubscribe_joins_open_in_flight 1 2 3 "ADAUSD" "ADAUSD" initial);
    reflexivity.
Defined.

End Races.

(** ** The update bus in every run of the machine *)

Section BusInvariants.

Import Num Manager Scenario Runs.

Lemma run_snoc (tr : list Event) (e : Event) (s : State) :
  run (tr ++ [e]) s = step e (run tr s).
Proof. unfold run. by rewrite fold_left_app. Qed.

Lemma registry_step_bus (e : Event) (s : State) :
  registryEvent e = true →
  emitter (step e s) = emitter s
  ∧ lastPrices (step e s) = lastPrices s
  ∧ immediates (step e s) = immediates s
  ∧ delivered (step e s) = delivered s.
Proof.
  destruct e as [c raw|c raw|t|t|t|t|t payload now|t h|d|]; try done;
    intros _; cbn [step].
  - unfold subscribe, ensurePage. by repeat case_decide.
  - unfold unsubscribe, stopPage. case_decide; [|done]. cbn.
    destruct (pages s !! Text.normalize raw); [|done]. by case_decide.
  - unfold openSucceeds. by destruct (starting s !! t).
  - unfold openFails. by destruct (starting s !! t).
  - unfold closeCompletes. by destruct (closing s !! t).
Qed.

Lemma removeLast_subset (h x : Handler) (l : list Handler) :
  x ∈ removeLast h l → x ∈ l.
Proof.
  induction l as [|y l IH]; [done|]. cbn.
  destruct (decide (y = h)); [destruct (decide (h ∈ l))|]; intros Hin.
  - apply elem_of_cons in Hin as [->|Hin]; [by left|right; by apply IH].
  - by right.
  - apply elem_of_cons in Hin as [->|Hin]; [by left|right; by apply IH].
Qed.

Lemma step_pricesFinite (e : Event) (s : State) :
  pricesFinite s → pricesFinite (step e s).
Proof.
  intros Hs. pose proof Hs as (Hc & Hi & Hd).
  destruct (registryEvent e) eqn:Hreg.
  { destruct (registry_step_bus e s Hreg) as (_ & E2 & E3 & E4).
    unfold pricesFinite. by rewrite E2, E3, E4. }
  destruct e as [c raw|c raw|t|t|t|t|t payload now|t h|d|]; try done;
    cbn [step].
  - unfold pushPriceUpdate. destruct payload as [p|]; [|exact Hs].
    destruct (isFinite (payload_price p)) eqn:Hfin; [|exact Hs].
    unfold emit. split; [|split]; cbn.
    + intros t' u Hu. destruct (decide (t = t')) as [<-|Hne].
      * rewrite lookup_insert_eq in Hu. by simplify_eq.
      * rewrite lookup_insert_ne in Hu by done. by apply Hc.
    + exact Hi.
    + intros hu Hin. apply elem_of_app in Hin as [Hin|Hin]; [by apply Hd|].
      apply list_elem_of_fmap in Hin as (h & -> & _). exact Hfin.
  - unfold onPrice. cbn [fst].
    change (lastPrices (on (topicKey t) h s)) with (lastPrices s).
    destruct (lastPrices s !! t) as [u|] eqn:E; [|exact Hs].
    split; [exact Hc|]. split; [|exact Hd]. cbn.
    intros hu Hin. apply elem_of_app in Hin as [Hin|Hin]; [by apply Hi|].
    apply list_elem_of_singleton in Hin as ->. by apply (Hc t u).
  - unfold runDetach, off. case_decide; [|exact Hs].
    destruct (removeLast _ _); exact Hs.
  - unfold runImmediate. destruct (immediates s) as [|hu q] eqn:E; [exact Hs|].
    split; [exact Hc|]. split; cbn.
    + intros hu' Hin. apply Hi. by right.
    + intros hu' Hin. apply elem_of_app in Hin as [Hin|Hin]; [by apply Hd|].
      apply list_elem_of_singleton in Hin as ->. apply Hi. by left.
Qed.

(** X7. In every run of the manager, whatever the pages push (no payload,
    [NaN], an infinity), every update in the cache, every update queued for
    replay and every update handed to a callback carries a finite price;
    a cached update is stored under its own ticker. *)
Theorem bus_prices_always_finite (tr : list Event) :
  pricesFinite (run tr initial).
Proof.
  induction tr as [|e tr IH] using rev_ind.
  - split; [|split]; cbn.
    + intros t u Hu. by rewrite lookup_empty in Hu.
    + intros hu Hin. by apply elem_of_nil in Hin.
    + intros hu Hin. by apply elem_of_nil in Hin.
  - rewrite run_snoc. by apply step_pricesFinite.
Qed.

Lemma attachedBy_mono (tr : list Event) (e : Event) (s : State) :
  attachedBy tr s → attachedBy (tr ++ [e]) s.
Proof.
  intros (Hl & Hc & Hi & Hd).
  assert (Hmono : ∀ t h, OnPrice t h ∈ tr → OnPrice t h ∈ tr ++ [e]).
  { intros t h Hin. apply elem_of_app. by left. }
  split; [|split; [|split]].
  - intros key h Hin. destruct (Hl key h Hin) as (t & -> & Ht). eauto.
  - exact Hc.
  - intros hu Hin. by apply Hmono, Hi.
  - intros hu Hin. by apply Hmono, Hd.
Qed.

Lemma step_attachedBy (tr : list Event) (e : Event) (s : State) :
  attachedBy tr s → attachedBy (tr ++ [e]) (step e s).
Proof.
  intros Hs. pose proof (attachedBy_mono tr e s Hs) as Hs'.
  destruct Hs' as (Hl & Hc & Hi & Hd).
  destruct (registryEvent e) eqn:Hreg.
  { destruct (registry_step_bus e s Hreg) as (E1 & E2 & E3 & E4).
    unfold attachedBy, listeners. rewrite E1, E2, E3, E4.
    by apply attachedBy_mono. }
  destruct e as [c raw|c raw|t|t|t|t|t payload now|t h|d|]; try done;
    cbn [step].
  - unfold pushPriceUpdate.
    destruct payload as [p|]; [|by apply attachedBy_mono].
    destruct (isFinite (payload_price p)) eqn:Hfin; [|by apply attachedBy_mono].
    unfold emit. split; [|split; [|split]]; cbn.
    + exact Hl.
    + intros t' u Hu. destruct (decide (t = t')) as [<-|Hne].
      * rewrite lookup_insert_eq in Hu. by simplify_eq.
      * rewrite lookup_insert_ne in Hu by done. by apply Hc.
    + exact Hi.
    + intros hu Hin. apply elem_of_app in Hin as [Hin|Hin]; [by apply Hd|].
      apply list_elem_of_fmap in Hin as (h & -> & Hh). cbn.
      destruct (Hl _ h Hh) as (t' & Hkey & Ht).
      by apply topicKey_inj in Hkey as <-.
  - assert (Hnew : OnPrice t h ∈ tr ++ [OnPrice t h]).
    { apply elem_of_app. right. by left. }
    split; [|split; [|split]].
    + intros key h' Hin. rewrite onPrice_listeners in Hin.
      destruct (decide (key = topicKey t)) as [->|Hne]; [|by apply Hl].
      apply elem_of_app in Hin as [Hin|Hin]; [by apply Hl|].
      apply list_elem_of_singleton in Hin as ->. eauto.
    + unfold onPrice. cbn [fst].
      change (lastPrices (on (topicKey t) h s)) with (lastPrices s).
      destruct (lastPrices s !! t); exact Hc.
    + unfold onPrice. cbn [fst].
      change (lastPrices (on (topicKey t) h s)) with (lastPrices s).
      destruct (lastPrices s !! t) as [u|] eqn:E; cbn; [|exact Hi].
      intros hu Hin. apply elem_of_app in Hin as [Hin|Hin]; [by apply Hi|].
      apply list_elem_of_singleton in Hin as ->. cbn.
      by rewrite (Hc t u E).
    + unfold onPrice. cbn [fst].
      change (lastPrices (on (topicKey t) h s)) with (lastPrices s).
      destruct (lastPrices s !! t); exact Hd.
  - split; [|split; [|split]].
    + intros key h Hin. unfold runDetach in Hin. rewrite listeners_off in Hin.
      destruct (decide (key = detach_key d)) as [->|Hne]; [|by apply Hl].
      apply removeLast_subset in Hin. by apply Hl.
    + unfold runDetach, off. case_decide; [|exact Hc].
      destruct (removeLast _ _); exact Hc.
    + unfold runDetach, off. case_decide; [|exact Hi].
      destruct (removeLast _ _); exact Hi.
    + unfold runDetach, off. case_decide; [|exact Hd].
      destruct (removeLast _ _); exact Hd.
  - unfold runImmediate. destruct (immediates s) as [|hu q] eqn:E.
    { by apply attachedBy_mono. }
    split; [|split; [|split]]; cbn.
    + exact Hl.
    + exact Hc.
    + intros hu' Hin. apply Hi. by right.
    + intros hu' Hin. apply elem_of_app in Hin as [Hin|Hin]; [by apply Hd|].
      apply list_elem_of_singleton in Hin as ->. apply Hi. by left.
Qed.

Lemma run_attachedBy (tr : list Event) : attachedBy tr (run tr initial).
Proof.
  induction tr as [|e tr IH] using rev_ind.
  - split; [|split; [|split]]; cbn.
    + intros key h Hin. unfold listeners in Hin. cbn in Hin.
      rewrite lookup_empty in Hin. by apply elem_of_nil in Hin.
    + intros t u Hu. by rewrite lookup_empty in Hu.
    + intros hu Hin. by apply elem_of_nil in Hin.
    + intros hu Hin. by apply elem_of_nil in Hin.
  - rewrite run_snoc. by apply step_attachedBy.
Qed.

(** X8. In every run of the manager, a callback is only ever called with
    updates of a ticker under which it was attached by an [onPrice] of the
    run: live updates and replays of one symbol never reach the listeners
    of another. *)
Theorem no_delivery_without_attach (tr : list Event) (h : Handler)
    (u : PriceUpdate) :
  (h, u) ∈ delivered (run tr initial) → OnPrice (ticker u) h ∈ tr.
Proof.
  intros Hin. destruct (run_attachedBy tr) as (_ & _ & _ & Hd).
  exact (Hd (h, u) Hin).
Qed.

Lemma no_delivery_without_attach_witness :
  let tr := [Subscribe 1 "BTCUSD"; OpenSucceeds "BTCUSD"; OnPrice "BTCUSD" 7;
             PushPriceUpdate "BTCUSD" (Some (mkPayload (Finite false 50000 0) 1000)) 0] in
  (7%nat, btc 50000 1000) ∈ delivered (run tr initial)
  ∧ OnPrice "BTCUSD" 7 ∈ tr.
Proof.
  intros tr.
  assert (H : (7%nat, btc 50000 1000) ∈ delivered (run tr initial)).
  { vm_compute. by left. }
  split; [exact H|].
  exact (no_delivery_without_attach tr 7 (btc 50000 1000) H).
Defined.

End BusInvariants.

(** ** The registry in every run of the machine *)

Section RegistryInvariants.

Import Manager Scenario Runs.

Lemma opened_lookup_snoc (log : list string) (t t' : string) (page : Page) :
  log !! page = Some t → (log ++ [t']) !! page = Some t.
Proof. intros H. by apply lookup_app_l_Some. Qed.

Lemma ensurePage_shape (c : Caller) (t : string) (s : State) :
  ((∀ u, is_Some (pages s !! u) → starting s !! u = None)
   ∧ (∀ u page, pages s !! u = Some page ∨ starting s !! u = Some page →
        opened s !! page = Some u)) →
  (∀ u, is_Some (pages (ensurePage c t s) !! u) →
     starting (ensurePage c t s) !! u = None)
  ∧ (∀ u page, pages (ensurePage c t s) !! u = Some page
               ∨ starting (ensurePage c t s) !! u = Some page →
       opened (ensurePage c t s) !! page = Some u).
Proof.
  intros [Hd Ho]. unfold ensurePage.
  destruct (decide (is_Some (pages s !! t))) as [Hp|Hp]; [by split|].
  destruct (decide (is_Some (starting s !! t))) as [Hs|Hs]; [by split|].
  split; cbn.
  - intros u Hu. destruct (decide (t = u)) as [<-|Hne]; [done|].
    rewrite lookup_insert_ne by done. by apply Hd.
  - intros u page [Hu|Hu].
    + apply opened_lookup_snoc. apply Ho. by left.
    + destruct (decide (t = u)) as [<-|Hne].
      * rewrite lookup_insert_eq in Hu. simplify_eq.
        by rewrite lookup_app_r, Nat.sub_diag.
      * rewrite lookup_insert_ne in Hu by done.
        apply opened_lookup_snoc. apply Ho. by right.
Qed.

Lemma stopPage_shape (c : Caller) (t : string) (s : State) :
  pages (stopPage c t s) = pages s
  ∧ starting (stopPage c t s) = starting s
  ∧ opened (stopPage c t s) = opened s.
Proof.
  unfold stopPage. destruct (pages s !! t); [|done]. by case_decide.
Qed.

Lemma step_registryShape (e : Event) (s : State) :
  registryShape s → registryShape (step e s).
Proof.
  intros (Hn & Hd & Ho). split; [by apply step_refCounts_nonneg|].
  destruct e as [c raw|c raw|t|t|t|t|t payload now|t h|d|]; cbn [step].
  - unfold subscribe. case_decide.
    + by apply ensurePage_shape.
    + by split.
  - unfold unsubscribe. case_decide; [|by split].
    destruct (stopPage_shape c (Text.normalize raw)
                (upd_refCounts (delete (Text.normalize raw)) s)) as (-> & -> & ->).
    by split.
  - unfold openSucceeds. destruct (starting s !! t) as [page|] eqn:E; [|by split].
    split; cbn.
    + intros u Hu. destruct (decide (t = u)) as [<-|Hne].
      * apply lookup_delete_eq.
      * rewrite lookup_insert_ne in Hu by done.
        rewrite lookup_delete_ne by done. by apply Hd.
    + intros u pg [Hu|Hu].
      * destruct (decide (t = u)) as [<-|Hne].
        -- rewrite lookup_insert_eq in Hu. simplify_eq. apply Ho. by right.
        -- rewrite lookup_insert_ne in Hu by done. apply Ho. by left.
      * apply lookup_delete_Some in Hu as [_ Hu]. apply Ho. by right.
  - unfold openFails. destruct (starting s !! t) as [page|] eqn:E; [|by split].
    split; cbn.
    + intros u Hu. destruct (decide (t = u)) as [<-|Hne].
      * apply lookup_delete_eq.
      * rewrite lookup_delete_ne in Hu by done.
        rewrite lookup_delete_ne by done. by apply Hd.
    + intros u pg [Hu|Hu].
      * apply lookup_delete_Some in Hu as [_ Hu]. apply Ho. by left.
      * apply lookup_delete_Some in Hu as [_ Hu]. apply Ho. by right.
  - unfold closeCompletes. destruct (closing s !! t) as [page|] eqn:E; [|by split].
    split; cbn.
    + intros u Hu. apply Hd. destruct Hu as [pg Hu].
      apply lookup_delete_Some in Hu as [_ Hu]. eauto.
    + intros u pg [Hu|Hu].
      * apply lookup_delete_Some in Hu as [_ Hu]. apply Ho. by left.
      * apply Ho. by right.
  - split; cbn.
    + intros u Hu. apply Hd. destruct Hu as [pg Hu].
      apply lookup_delete_Some in Hu as [_ Hu]. eauto.
    + intros u pg [Hu|Hu].
      * apply lookup_delete_Some in Hu as [_ Hu]. apply Ho. by left.
      * apply Ho. by right.
  - unfold pushPriceUpdate. destruct payload as [p|]; [|by split].
    destruct (Num.isFinite (payload_price p)); by split.
  - unfold onPrice. cbn [fst].
    destruct (lastPrices (on (topicKey t) h s) !! t); by split.
  - unfold runDetach, off. case_decide; [|by split].
    destruct (removeLast _ _); by split.
  - unfold runImmediate. destruct (immediates s); by split.
Qed.

(** X9. In every run of the manager, under any interleaving of calls,
    completions and failures: no count is negative; a symbol never has a
    page and an open in flight at the same time; and the page stored or
    being opened under a symbol is a page that [newPage] created for that
    symbol, so two symbols never share a page. *)
Theorem registry_shape_always (tr : list Event) :
  registryShape (run tr initial)
  ∧ (∀ t1 t2 page,
       pages (run tr initial) !! t1 = Some page →
       pages (run tr initial) !! t2 = Some page → t1 = t2).
Proof.
  assert (H : registryShape (run tr initial)).
  { induction tr as [|e tr IH] using rev_ind.
    - split; [|split].
      + intros t. by vm_compute.
      + intros t [pg Hpg]. cbn in Hpg. by rewrite lookup_empty in Hpg.
      + intros t pg [Hpg|Hpg]; cbn in Hpg; by rewrite lookup_empty in Hpg.
    - rewrite run_snoc. by apply step_registryShape. }
  split; [exact H|].
  destruct H as (_ & _ & Ho). intros t1 t2 page H1 H2.
  assert (opened (run tr initial) !! page = Some t1) as E1 by (apply Ho; by left).
  assert (opened (run tr initial) !! page = Some t2) as E2 by (apply Ho; by left).
  congruence.
Qed.

Lemma registry_shape_always_witness :
  let tr := [Manager.Subscribe 1%nat "btcusd"; Manager.OpenSucceeds "BTCUSD";
             Manager.Subscribe 2%nat "ethusd"] in
  Runs.registryShape (Manager.run tr Manager.initial)
  ∧ (∀ t1 t2 page,
       Manager.pages (Manager.run tr Manager.initial) !! t1 = Some page →
       Manager.pages (Manager.run tr Manager.initial) !! t2 = Some page →
       t1 = t2).
Proof. intros tr. exact (registry_shape_always tr). Defined.

Lemma settle_waiters (p : Pending) (o : Outcome) (s : State) (c : Caller)
    (p' : Pending) :
  (c, p') ∈ awaiting (settle p o s) ↔ (c, p') ∈ awaiting s ∧ p' ≠ p.
Proof.
  unfold settle. cbn. rewrite list_elem_of_filter. cbn. tauto.
Qed.

Lemma step_waitersServed (e : Event) (s : State) :
  waitersServed s → waitersServed (step e s).
Proof.
  intros Hw.
  destruct e as [c raw|c raw|t|t|t|t|t payload now|t h|d|]; cbn [step].
  - unfold subscribe, ensurePage.
    set (u := Text.normalize raw). set (s1 := upd_refCounts _ s).
    assert (Hw1 : waitersServed s1) by exact Hw.
    case_decide; [|exact Hw1].
    destruct (decide (is_Some (pages s1 !! u))); [exact Hw1|].
    destruct (decide (is_Some (starting s1 !! u))) as [Hs|Hs].
    + intros c0 p Hin. cbn in Hin. apply elem_of_app in Hin as [Hin|Hin].
      * by apply (Hw1 c0 p).
      * apply list_elem_of_singleton in Hin. by simplify_eq.
    + intros c0 p Hin. cbn in Hin. apply elem_of_app in Hin as [Hin|Hin].
      * specialize (Hw1 c0 p Hin). destruct p as [t|t]; cbn; [|exact Hw1].
        destruct (decide (u = t)) as [<-|Hne].
        -- rewrite lookup_insert_eq. eauto.
        -- by rewrite lookup_insert_ne.
      * apply list_elem_of_singleton in Hin. simplify_eq. cbn.
        rewrite lookup_insert_eq. eauto.
  - unfold unsubscribe, stopPage.
    set (u := Text.normalize raw). case_decide; [|exact Hw].
    set (s1 := upd_refCounts _ s).
    assert (Hw1 : waitersServed s1) by exact Hw.
    destruct (pages s1 !! u) as [page|]; [|exact Hw1].
    destruct (decide (is_Some (closing s1 !! u))) as [Hs|Hs].
    + intros c0 p Hin. cbn in Hin. apply elem_of_app in Hin as [Hin|Hin].
      * by apply (Hw1 c0 p).
      * apply list_elem_of_singleton in Hin. by simplify_eq.
    + intros c0 p Hin. cbn in Hin. apply elem_of_app in Hin as [Hin|Hin].
      * specialize (Hw1 c0 p Hin). destruct p as [t|t]; cbn; [exact Hw1|].
        destruct (decide (u = t)) as [<-|Hne].
        -- rewrite lookup_insert_eq. eauto.
        -- by rewrite lookup_insert_ne.
      * apply list_elem_of_singleton in Hin. simplify_eq. cbn.
        rewrite lookup_insert_eq. eauto.
  - unfold openSucceeds. destruct (starting s !! t) as [page|] eqn:E; [|exact Hw].
    intros c0 p Hin. apply settle_waiters in Hin as [Hin Hne]. cbn in Hin.
    specialize (Hw c0 p Hin). destruct p as [u|u]; cbn; [|exact Hw].
    rewrite lookup_delete_ne; [exact Hw|]. intros ->. by apply Hne.
  - unfold openFails. destruct (starting s !! t) as [page|] eqn:E; [|exact Hw].
    intros c0 p Hin. apply settle_waiters in Hin as [Hin Hne]. cbn in Hin.
    specialize (Hw c0 p Hin). destruct p as [u|u]; cbn; [|exact Hw].
    rewrite lookup_delete_ne; [exact Hw|]. intros ->. by apply Hne.
  - unfold closeCompletes. destruct (closing s !! t) as [page|] eqn:E; [|exact Hw].
    intros c0 p Hin. apply settle_waiters in Hin as [Hin Hne]. cbn in Hin.
    specialize (Hw c0 p Hin). destruct p as [u|u]; cbn; [exact Hw|].
    rewrite lookup_delete_ne; [exact Hw|]. intros ->. by apply Hne.
  - exact Hw.
  - unfold pushPriceUpdate. destruct payload as [p|]; [|exact Hw].
    destruct (Num.isFinite (payload_price p)); exact Hw.
  - unfold onPrice. cbn [fst].
    destruct (lastPrices (on (topicKey t) h s) !! t); exact Hw.
  - unfold runDetach, off. case_decide; [|exact Hw].
    destruct (removeLast _ _); exact Hw.
  - unfold runImmediate. destruct (immediates s); exact Hw.
Qed.

(** X10. In every run of the manager, a call that is suspended waits for an
    operation that is still in flight: a [subscribe] that awaits the open of
    a symbol finds that symbol in [starting], an [unsubscribe] that awaits a
    close finds it in [closing].  No call is left waiting for an open or a
    close that has already completed. *)
Theorem no_call_waits_for_nothing (tr : list Event) (c : Caller) (t : string) :
  ((c, Opening t) ∈ awaiting (run tr initial) →
   is_Some (starting (run tr initial) !! t))
  ∧ ((c, Closing t) ∈ awaiting (run tr initial) →
     is_Some (closing (run tr initial) !! t)).
Proof.
  assert (H : waitersServed (run tr initial)).
  { induction tr as [|e tr IH] using rev_ind.
    - intros c0 p Hin. by apply elem_of_nil in Hin.
    - rewrite run_snoc. by apply step_waitersServed. }
  split; intros Hin; exact (H _ _ Hin).
Qed.

Lemma no_call_waits_for_nothing_witness :
  let tr := [Subscribe 1 "BTCUSD"; Unsubscribe 2 "BTCUSD"; Subscribe 3 "btcusd"] in
  (3%nat, Opening "BTCUSD") ∈ awaiting (run tr initial)
  ∧ is_Some (starting (run tr initial) !! "BTCUSD").
Proof.
  intros tr.
  assert (H : (3%nat, Opening "BTCUSD") ∈ awaiting (run tr initial)).
  { vm_compute. right. by left. }
  split; [exact H|].
  by apply (no_call_waits_for_nothing tr 3 "BTCUSD").
Defined.

End RegistryInvariants.

(** ** Detaching and the queued replay *)

Section DetachReplay.

Import Num Manager Scenario Runs.

Lemma pushPriceUpdate_delivered (t : string) (payload : option Payload)
    (now : Z) (s : State) :
  ∃ u, delivered (pushPriceUpdate t payload now s)
       = delivered s ++ map (λ h, (h, u)) (listeners (topicKey t) s)
       ∨ delivered (pushPriceUpdate t payload now s) = delivered s.
Proof.
  unfold pushPriceUpdate. destruct payload as [p|].
  - destruct (isFinite (payload_price p)).
    + eexists. left. reflexivity.
    + exists (btc 0 0). by right.
  - exists (btc 0 0). by right.
Qed.

(** X11. The function returned by [onPrice] stops the live updates but does
    not cancel the replay that the attach has queued: after an attach on a
    symbol with a cached price and an immediate detach, the listeners are
    as before the attach and later pushes for the symbol call the callback
    no more, yet the queued [setImmediate] callback still calls it once
    with the cached price. *)
Theorem detach_does_not_cancel_replay (t : string) (h : Handler)
    (u : PriceUpdate) (s : State) :
  lastPrices s !! t = Some u →
  h ∉ listeners (topicKey t) s →
  immediates s = [] →
  let a := onPrice t h s in
  let s2 := runDetach a.2 a.1 in
  (∀ key, listeners key s2 = listeners key s)
  ∧ delivered (runImmediate s2) = delivered s ++ [(h, u)]
  ∧ (∀ payload now,
       filter (λ x, x.1 = h) (delivered (pushPriceUpdate t payload now s2))
       = filter (λ x, x.1 = h) (delivered s)).
Proof.
  intros Hu Hn Hi a s2.
  assert (E2 : s2 = off (topicKey t) h (onPrice t h s).1) by done.
  assert (Hl : ∀ key, listeners key s2 = listeners key s).
  { intros key. rewrite E2, listeners_off, !onPrice_listeners.
    destruct (decide (key = topicKey t)) as [->|Hne].
    - rewrite decide_True by done.
      rewrite <- (app_nil_r (listeners (topicKey t) s ++ [h])), <- app_assoc.
      cbn. rewrite removeLast_app by (intros H; by apply elem_of_nil in H).
      by rewrite app_nil_r.
    - done. }
  assert (Himm : immediates s2 = [(h, u)] ∧ delivered s2 = delivered s).
  { rewrite E2. unfold off. case_decide.
    - destruct (removeLast _ _); unfold onPrice; cbn [fst];
        change (lastPrices (on (topicKey t) h s)) with (lastPrices s);
        rewrite Hu; cbn; by rewrite Hi.
    - unfold onPrice; cbn [fst];
        change (lastPrices (on (topicKey t) h s)) with (lastPrices s);
        rewrite Hu; cbn; by rewrite Hi. }
  destruct Himm as [Himm Hdel]. clearbody s2.
  split; [exact Hl|]. split.
  - unfold runImmediate. rewrite Himm. cbn. by rewrite Hdel.
  - intros payload now.
    destruct (pushPriceUpdate_delivered t payload now s2) as [u' [E|E]];
      rewrite E, ?Hdel; [|done].
    rewrite filter_app, Hl.
    assert (filter (λ x : Handler * PriceUpdate, x.1 = h)
              (map (λ h0, (h0, u')) (listeners (topicKey t) s)) = []) as ->.
    2:{ by rewrite app_nil_r. }
    induction (listeners (topicKey t) s) as [|x l IH]; [done|].
    apply not_elem_of_cons in Hn as [Hx Hl']. cbn [map].
    rewrite filter_cons. cbn [fst]. rewrite decide_False by done. by apply IH.
Qed.

Lemma detach_does_not_cancel_replay_witness :
  let a := onPrice "BTCUSD" 7 cachedBTC in
  lastPrices cachedBTC !! "BTCUSD" = Some (btc 50000 1000)
  ∧ delivered (runImmediate (runDetach a.2 a.1))
    = delivered cachedBTC ++ [(7%nat, btc 50000 1000)].
Proof.
  intros a. split; [by vm_compute|].
  apply (detach_does_not_cancel_replay "BTCUSD" 7 (btc 50000 1000) cachedBTC).
  - by vm_compute.
  - vm_compute. intros H. by apply elem_of_nil in H.
  - by vm_compute.
Defined.

End DetachReplay.

(** ** [buildSymbolUrl] *)

Section SymbolUrl.

Import Text TradingView Runs.






Lemma encodeChar_alphabet (c : ascii) :
  Forall (λ x, isUnreserved x = true ∨ x = "%"%char) (encodeChar c).
Proof.
  apply Forall_forall. intros x Hx.
  destruct c as [[] [] [] [] [] [] [] []]; vm_compute in Hx;
    repeat (apply elem_of_cons in Hx as [->|Hx]; [((by left) || (by right))|]);
    by apply elem_of_nil in Hx.
Qed.

Lemma encodeChar_unreserved (c : ascii) :
  isUnreserved c = true → encodeChar c = [c].
Proof. unfold encodeChar. by intros ->. Qed.

(** X13. The symbol cannot change the shape of the URL: what
    [encodeURIComponent] puts into the path segment is made of letters,
    digits, [- _ . ! ~ * ' ( )] and [%] only, so it holds no [/], [?], [#],
    [&], [=] and no white space; and a ticker whose normal form is made of
    such characters appears in the URL as it is. *)
Theorem buildSymbolUrl_segment (ticker : string) :
  Forall (λ x, isUnreserved x = true ∨ x = "%"%char)
         (list_ascii_of_string (encodeURIComponent (normalize ticker)))
  ∧ (Forall (λ x, isUnreserved x = true)
            (list_ascii_of_string (normalize ticker)) →
     buildSymbolUrl ticker
     = "https://www.tradingview.com/symbols/" +:+ normalize ticker
         +:+ "/?exchange=BINANCE").
Proof.
  split.
  - unfold encodeURIComponent. rewrite list_ascii_of_string_of_list_ascii.
    induction (list_ascii_of_string (normalize ticker)) as [|c l IH]; [done|].
    cbn. apply Forall_app. split; [apply encodeChar_alphabet|exact IH].
  - intros Hall. unfold buildSymbolUrl. cbn zeta. fold (normalize ticker).
    assert (encodeURIComponent (normalize ticker) = normalize ticker) as ->.
    { unfold encodeURIComponent.
      rewrite <- (string_of_list_ascii_of_string (normalize ticker)) at 2.
      f_equal.
      induction (list_ascii_of_string (normalize ticker)) as [|c l IH]; [done|].
      apply Forall_cons in Hall as [Hc Hl]. cbn.
      rewrite encodeChar_unreserved by done. cbn. f_equal. by apply IH. }
    done.
Qed.

Lemma buildSymbolUrl_segment_witness :
  Forall (λ x, isUnreserved x = true)
         (list_ascii_of_string (normalize " ethusd "))
  ∧ buildSymbolUrl " ethusd "
    = "https://www.tradingview.com/symbols/" +:+ normalize " ethusd "
        +:+ "/?exchange=BINANCE".
Proof.
  assert (H : Forall (λ x, isUnreserved x = true)
                (list_ascii_of_string (normalize " ethusd "))).
  { vm_compute. by repeat constructor. }
  split; [exact H|].
  by apply (buildSymbolUrl_segment " ethusd ").
Defined.

End SymbolUrl.

(** ** Prices read from the page *)

Section PagePrices.

Import Num TradingView Manager Scenario Runs.

Lemma parseUnsigned_sign (neg n : bool) (m : N) (k : nat) (l : list ascii) :
  parseUnsigned neg l = Finite n m k → n = neg.
Proof.
  unfold parseUnsigned, mkNumber.
  destruct (spanDigits l) as [ip rest].
  destruct rest as [|c rest].
  - destruct ip; [done|]. destruct (roundsToInfinity _ _); intros Heq; by simplify_eq.
  - destruct (Ascii.eqb c ".").
    + destruct (spanDigits rest) as [fp ?].
      destruct ip, fp; try done; destruct (roundsToInfinity _ _); intros Heq; by simplify_eq.
    + destruct ip; [done|]. destruct (roundsToInfinity _ _); intros Heq; by simplify_eq.
Qed.

Lemma cleanPrice_dropWhite (input : string) :
  Text.dropWhite (Text.cleanPrice input) = Text.cleanPrice input.
Proof.
  pose proof (cleanPrice_alphabet input) as H.
  destruct (Text.cleanPrice input) as [|c l]; [done|].
  apply Forall_cons in H as [Hc _]. cbn.
  assert (Text.isWhiteSpace c = false) as ->; [|done].
  destruct Hc as [Hc|[->| ->]]; [|done|done].
  destruct c as [[] [] [] [] [] [] [] []]; try done; by vm_compute in Hc.
Qed.

(** X14. The sign of a parsed price is decided by the first character that
    survives the cleaning: the result is negative exactly when that
    character is a minus sign, wherever it stood in the text (a hyphen in
    front of the first digit, as in a pair name, makes the price
    negative). *)
Theorem parsePrice_sign (input : string) (neg : bool) (m : N) (k : nat) :
  parsePrice (Some input) = Some (Finite neg m k) →
  (neg = true ↔ head (Text.cleanPrice input) = Some "-"%char).
Proof.
  unfold parsePrice. destruct input as [|c0 s0]; [done|].
  set (input := String c0 s0). unfold parseFloat.
  rewrite cleanPrice_dropWhite.
  pose proof (cleanPrice_alphabet input) as Ha.
  destruct (Text.cleanPrice input) as [|c l]; [done|].
  apply Forall_cons in Ha as [Hc _]. cbn [head].
  destruct (Ascii.eqb c "-") eqn:E1.
  - apply Ascii.eqb_eq in E1 as ->.
    destruct (parseUnsigned true l) eqn:E; try done. cbn.
    intros H. simplify_eq. apply parseUnsigned_sign in E as ->. done.
  - assert (c ≠ "-"%char) as Hne by (by apply Ascii.eqb_neq).
    assert (∀ n, (if Ascii.eqb c "+" then parseUnsigned false l
                  else parseUnsigned false (c :: l)) = Finite n m k → n = false).
    { intros n. destruct (Ascii.eqb c "+"); apply parseUnsigned_sign. }
    destruct (if Ascii.eqb c "+" then parseUnsigned false l
              else parseUnsigned false (c :: l)) eqn:E; try done. cbn.
    intros Heq. simplify_eq. rewrite (H neg eq_refl).
    split; [done|]. intros Heq. by simplify_eq.
Qed.

Lemma parsePrice_sign_witness :
  parsePrice (Some "BTC-USD 50,000.5") = Some (Finite true 500005 1)
  ∧ head (Text.cleanPrice "BTC-USD 50,000.5") = Some "-"%char.
Proof.
  assert (H : parsePrice (Some "BTC-USD 50,000.5") = Some (Finite true 500005 1))
    by reflexivity.
  split; [exact H|].
  by apply (parsePrice_sign "BTC-USD 50,000.5" true 500005 1 H).
Defined.

Lemma publish_parsePrice (text : option string) (now : Z) :
  Inject.publish text now
  = (λ p, {| payload_price := p; payload_ts := now |}) <$> parsePrice text.
Proof.
  unfold Inject.publish, Inject.toNumber, parsePrice.
  by destruct text as [[|c s]|].
Qed.

Lemma parsePrice_cases (text : option string) :
  parsePrice text = None
  ∨ ∃ neg mant scale, parsePrice text = Some (Finite neg mant scale).
Proof.
  destruct text as [s|]; [|by left]. unfold parsePrice.
  destruct s as [|c s]; [by left|].
  destruct (parseFloat (Text.cleanPrice (String c s))) as [neg mant scale| |neg].
  - right. by exists neg, mant, scale.
  - by left.
  - by left.
Qed.

(** X15. The page and the server agree on what a price is.  The script in
    the page calls the binding exactly for the texts that [parsePrice]
    accepts, with the number that [parsePrice] returns; the guard of the
    binding then always lets the update through: it is cached under the
    ticker of the page with that number, stamped with the clock of the page
    (with the clock of the server when the page reads 0), and handed to
    every listener of the ticker. *)
Theorem page_text_reaches_listeners (text : option string)
    (pageNow nodeNow : Z) (t : string) (s : State) :
  match parsePrice text with
  | None => Inject.publish text pageNow = None
  | Some n =>
      let u := {| ticker := t; price := n;
                  ts := if decide (pageNow = 0) then nodeNow else pageNow;
                  source := "tradingview" |} in
      let s' := pushPriceUpdate t (Inject.publish text pageNow) nodeNow s in
      Inject.publish text pageNow
      = Some {| payload_price := n; payload_ts := pageNow |}
      ∧ lastPrices s' !! t = Some u
      ∧ delivered s'
        = delivered s ++ map (λ h, (h, u)) (listeners (topicKey t) s)
  end.
Proof.
  rewrite publish_parsePrice.
  destruct (parsePrice_cases text) as [E|(neg & m & k & E)];
    rewrite E; [done|].
  cbn. split; [done|]. split; [apply lookup_insert_eq|done].
Qed.

(** X16. With the budget of 30000 ms that [attachPriceObserver] gives it,
    [resolveFirstSelector] never passes a [timeout] outside [0 .. 10000] to
    [waitForSelector]; and when the selectors are tried 30 seconds or more
    after its start, each of them is tried with [timeout: 0]. *)
Theorem resolveFirstSelector_timeouts (start : Z) (selectors : list string)
    (env : list (Z * bool)) :
  Forall (λ timeout, 0 ≤ timeout ≤ 10000)
         (Inject.resolveFirstSelector start 30000 selectors env).2
  ∧ (Forall (λ e, start + 30000 ≤ e.1) env →
     Forall (λ timeout, timeout = 0)
            (Inject.resolveFirstSelector start 30000 selectors env).2).
Proof.
  split.
  - revert env. induction selectors as [|sel sels IH]; intros [|[now r] env];
      cbn; try done.
    destruct r; cbn.
    + constructor; [lia|done].
    + specialize (IH env).
      destruct (Inject.resolveFirstSelector start 30000 sels env) as [res ts].
      cbn in *. constructor; [lia|done].
  - revert env. induction selectors as [|sel sels IH]; intros [|[now r] env] Hl;
      cbn; try done.
    apply Forall_cons in Hl as [Hnow Hl]. cbn in Hnow.
    destruct r; cbn.
    + constructor; [lia|done].
    + specialize (IH env Hl).
      destruct (Inject.resolveFirstSelector start 30000 sels env) as [res ts].
      cbn in *. constructor; [lia|done].
Qed.

Lemma resolveFirstSelector_timeouts_witness :
  Forall (λ e : Z * bool, 1000 + 30000 ≤ e.1) [(31000, false); (31005, true)]
  ∧ Forall (λ timeout, timeout = 0)
      (Inject.resolveFirstSelector 1000 30000 [".a"; ".b"; ".c"]
         [(31000, false); (31005, true)]).2.
Proof.
  assert (H : Forall (λ e : Z * bool, 1000 + 30000 ≤ e.1)
                [(31000, false); (31005, true)]).
  { repeat constructor; cbn; lia. }
  split; [exact H|].
  by apply (resolveFirstSelector_timeouts 1000 [".a"; ".b"; ".c"]).
Defined.

End PagePrices.

(** ** The unary [subscribe] and [unsubscribe] *)

Section Unary.

Import Manager Scenario Runs Handlers.

Lemma runOps_app (ops1 ops2 : list Op) (s : State) :
  runOps (ops1 ++ ops2) s = runOps ops2 (runOps ops1 s).
Proof. unfold runOps. by rewrite fold_left_app. Qed.

Lemma runOps_consistent_from (ops : list Op) (s : State) :
  consistent s → consistent (runOps ops s).
Proof.
  revert s. induction ops as [|op ops IH]; intros s Hs; [done|].
  cbn. apply IH. by apply perform_consistent.
Qed.

Lemma normalizedTickers_cons (raw : string) (tickers : list string) :
  normalizedTickers (raw :: tickers)
  = (if decide (Text.normalize raw = "") then [] else [Text.normalize raw])
    ++ normalizedTickers tickers.
Proof.
  unfold normalizedTickers. cbn [map]. rewrite filter_cons.
  destruct (decide (Text.normalize raw = "")) as [E|E].
  - by rewrite decide_False by (intros H; by apply H).
  - by rewrite decide_True.
Qed.

Lemma subscribeLoop_runOps (c : Caller) (tickers : list string) (s : State)
    (acc : list string) :
  fold_left
    (λ acc tickerRaw,
       let ticker := Text.normalize tickerRaw in
       if decide (ticker = "") then acc
       else (subscribeDone c ticker acc.1, acc.2 ++ [ticker]))
    tickers (s, acc)
  = (runOps (map (Acquire c) (normalizedTickers tickers)) s,
     acc ++ normalizedTickers tickers).
Proof.
  revert s acc. induction tickers as [|raw tickers IH]; intros s acc.
  - cbn. by rewrite app_nil_r.
  - cbn [fold_left]. rewrite normalizedTickers_cons. cbn zeta.
    destruct (decide (Text.normalize raw = "")) as [E|E].
    + by rewrite IH.
    + rewrite IH. cbn. by rewrite <- app_assoc.
Qed.

Lemma unsubscribe_state (c : Caller) (id : string) (tickers : list string)
    (s : State) (conns : gmap string (gset string)) (acc : list string) :
  let r := fold_left (unsubscribeTurn c id) tickers (s, conns, acc) in
  r.1.1 = runOps (map (Release c) (normalizedTickers tickers)) s
  ∧ r.2 = acc ++ normalizedTickers tickers.
Proof.
  revert s conns acc. induction tickers as [|raw tickers IH];
    intros s conns acc; cbn zeta.
  - cbn. by rewrite app_nil_r.
  - cbn [fold_left]. rewrite normalizedTickers_cons.
    destruct (decide (Text.normalize raw = "")) as [E|E].
    + assert (unsubscribeTurn c id (s, conns, acc) raw = (s, conns, acc)) as ->.
      { unfold unsubscribeTurn. by rewrite decide_True. }
      apply IH.
    + assert (∃ conns', unsubscribeTurn c id (s, conns, acc) raw
                = (unsubscribeDone c (Text.normalize raw) s, conns',
                   acc ++ [Text.normalize raw])) as [conns' ->].
      { unfold unsubscribeTurn. rewrite decide_False by done. eauto. }
      destruct (IH (unsubscribeDone c (Text.normalize raw) s) conns'
                  (acc ++ [Text.normalize raw])) as [H1 H2].
      rewrite H1, H2. cbn. by rewrite <- app_assoc.
Qed.

Lemma normalizedTickers_normal (tickers : list string) (t : string) :
  t ∈ normalizedTickers tickers → Text.normalize t = t.
Proof.
  unfold normalizedTickers. intros Hin.
  apply list_elem_of_filter in Hin as [_ Hin].
  apply list_elem_of_fmap in Hin as (raw & -> & _). apply normalize_idem.
Qed.

Lemma filter_symbol_acquires (c : Caller) (sym : string) (l : list string) :
  (∀ t, t ∈ l → Text.normalize t = t) →
  filter (λ op, opSymbol op = sym) (map (Acquire c) l)
  = map (Acquire c) (filter (λ t, t = sym) l).
Proof.
  induction l as [|t l IH]; intros Hl; [done|].
  cbn [map]. rewrite !filter_cons. cbn [opSymbol].
  rewrite (Hl t) by by left.
  rewrite IH by (intros t' Ht'; apply Hl; by right).
  by destruct (decide (t = sym)).
Qed.

Lemma filter_symbol_releases (c : Caller) (sym : string) (l : list string) :
  (∀ t, t ∈ l → Text.normalize t = t) →
  filter (λ op, opSymbol op = sym) (map (Release c) l)
  = map (Release c) (filter (λ t, t = sym) l).
Proof.
  induction l as [|t l IH]; intros Hl; [done|].
  cbn [map]. rewrite !filter_cons. cbn [opSymbol].
  rewrite (Hl t) by by left.
  rewrite IH by (intros t' Ht'; apply Hl; by right).
  by destruct (decide (t = sym)).
Qed.

Lemma fold_acquires (c : Caller) (l : list string) (n : Z) :
  fold_left clampStep (map (Acquire c) l) n = n + Z.of_nat (List.length l).
Proof.
  revert n. induction l as [|t l IH]; intros n; cbn; [lia|].
  rewrite IH. lia.
Qed.

Lemma fold_releases (c : Caller) (l : list string) (n : Z) :
  0 ≤ n →
  fold_left clampStep (map (Release c) l) n
  = Z.max 0 (n - Z.of_nat (List.length l)).
Proof.
  revert n. induction l as [|t l IH]; intros n Hn; cbn [map fold_left clampStep].
  - cbn. lia.
  - rewrite IH by lia. cbn [List.length]. lia.
Qed.

Lemma unsubscribe_conns_absent (c : Caller) (id : string)
    (tickers : list string) (s : State) (conns : gmap string (gset string))
    (acc : list string) :
  conns !! id = None →
  (fold_left (unsubscribeTurn c id) tickers (s, conns, acc)).1.2 = conns.
Proof.
  intros Hid. revert s acc.
  induction tickers as [|raw tickers IH]; intros s acc; [done|].
  cbn [fold_left]. unfold unsubscribeTurn at 2.
  destruct (decide (Text.normalize raw = "")); [apply IH|].
  rewrite Hid. apply IH.
Qed.

(** X17. The unary [subscribe] answers with the tickers of the request in
    normal form, in the order of the request, the empty ones left out and
    the repeated ones kept; it takes one reference for each of them, so a
    symbol named twice in one request is counted twice, while the set kept
    for the connection holds it once. *)
Theorem unary_subscribe_counts (c : Caller) (tickers : list string)
    (s : State) (conns : gmap string (gset string)) (sym : string) :
  let r := Handlers.subscribe c tickers (s, conns) in
  r.2 = normalizedTickers tickers
  ∧ refCount sym r.1.1 = refCount sym s + entriesFor sym tickers
  ∧ r.1.2 !! connectionId tickers
    = Some (default ∅ (conns !! connectionId tickers)
            ∪ list_to_set (normalizedTickers tickers))
  ∧ (consistent s → consistent r.1.1).
Proof.
  unfold Handlers.subscribe, subscribeLoop. cbn zeta.
  rewrite subscribeLoop_runOps. cbn.
  split; [done|]. split; [|split].
  - rewrite runOps_refCount, filter_symbol_acquires, fold_acquires; [done|].
    apply normalizedTickers_normal.
  - apply lookup_insert_eq.
  - apply runOps_consistent_from.
Qed.

Lemma unary_subscribe_counts_witness :
  let tickers := [" btcusd"; "BTCUSD"; " "] in
  let r := Handlers.subscribe 1%nat tickers (Manager.initial, ∅) in
  r.2 = Runs.normalizedTickers tickers
  ∧ Manager.refCount "BTCUSD" r.1.1
    = Manager.refCount "BTCUSD" Manager.initial
      + Runs.entriesFor "BTCUSD" tickers
  ∧ r.1.2 !! Handlers.connectionId tickers
    = Some (default ∅ ((∅ : gmap string (gset string))
                       !! Handlers.connectionId tickers)
            ∪ list_to_set (Runs.normalizedTickers tickers))
  ∧ (Scenario.consistent Manager.initial → Scenario.consistent r.1.1).
Proof.
  intros tickers.
  exact (unary_subscribe_counts 1%nat tickers Manager.initial ∅ "BTCUSD").
Defined.

(** X18. The unary [unsubscribe] checks no ownership: for a connection that
    has subscribed to nothing it still releases one reference for every
    entry of the request, down to 0, whoever holds the references, and
    answers with every ticker of the request.  The connections are left as
    they are. *)
Theorem unary_unsubscribe_releases_any (c : Caller) (tickers : list string)
    (s : State) (conns : gmap string (gset string)) (sym : string) :
  conns !! connectionId tickers = None →
  0 ≤ refCount sym s →
  let r := Handlers.unsubscribe c tickers (s, conns) in
  r.2 = normalizedTickers tickers
  ∧ refCount sym r.1.1 = Z.max 0 (refCount sym s - entriesFor sym tickers)
  ∧ r.1.2 = conns.
Proof.
  intros Hid Hrc. cbn zeta. unfold Handlers.unsubscribe. cbn [fst snd].
  destruct (unsubscribe_state c (connectionId tickers) tickers s conns [])
    as [H1 H2].
  split; [exact H2|]. split.
  - rewrite H1, runOps_refCount, filter_symbol_releases, fold_releases;
      [done|done|apply normalizedTickers_normal].
  - by apply unsubscribe_conns_absent.
Qed.

Lemma unsubscribe_conns_drains (c : Caller) (id : string)
    (tickers : list string) (A : gset string) (s : State)
    (conns : gmap string (gset string)) (acc : list string) :
  conns !! id = None →
  let r := fold_left (unsubscribeTurn c id) tickers (s, <[id := A]> conns, acc) in
  let rest := A ∖ list_to_set (normalizedTickers tickers) in
  r.1.2 = conns
  ∨ (r.1.2 = <[id := rest]> conns
     ∧ (normalizedTickers tickers = [] ∨ rest ≠ ∅)).
Proof.
  intros Hid. revert A s acc.
  induction tickers as [|raw tickers IH]; intros A s acc; cbn zeta.
  - right. cbn. split; [|by left]. f_equal. set_solver.
  - cbn [fold_left]. rewrite normalizedTickers_cons.
    destruct (decide (Text.normalize raw = "")) as [E|E].
    + assert (unsubscribeTurn c id (s, <[id:=A]> conns, acc) raw
              = (s, <[id:=A]> conns, acc)) as ->.
      { unfold unsubscribeTurn. by rewrite decide_True. }
      apply IH.
    + set (t := Text.normalize raw) in *.
      destruct (decide (size (A ∖ {[t]}) = 0%nat)) as [Hz|Hz].
      * assert (unsubscribeTurn c id (s, <[id:=A]> conns, acc) raw
                = (unsubscribeDone c t s, conns, acc ++ [t])) as ->.
        { unfold unsubscribeTurn. fold t. rewrite decide_False by done.
          rewrite lookup_insert_eq, decide_True by done.
          by rewrite delete_insert_id. }
        left. by apply unsubscribe_conns_absent.
      * assert (unsubscribeTurn c id (s, <[id:=A]> conns, acc) raw
                = (unsubscribeDone c t s, <[id := A ∖ {[t]}]> conns,
                   acc ++ [t])) as ->.
        { unfold unsubscribeTurn. fold t. rewrite decide_False by done.
          rewrite lookup_insert_eq, decide_False by done.
          by rewrite insert_insert_eq. }
        destruct (IH (A ∖ {[t]}) (unsubscribeDone c t s) (acc ++ [t]))
          as [H|[H Hne]].
        -- by left.
        -- right. rewrite H. cbn [app].
           assert ((A ∖ {[t]}) ∖ list_to_set (normalizedTickers tickers)
                   = A ∖ list_to_set (t :: normalizedTickers tickers))
             as Heq by set_solver.
           rewrite <- Heq. split; [done|]. right.
           destruct Hne as [Hnil|Hne]; [|done].
           rewrite Hnil. cbn.
           apply size_non_empty_iff in Hz. intros Hem. apply Hz.
           rewrite <- Hem. set_solver.
Qed.

Lemma unary_unsubscribe_releases_any_witness :
  let s := runOps [Acquire 1 "ADAUSD"; Acquire 2 "ADAUSD"] initial in
  (∅ : gmap string (gset string)) !! connectionId ["adausd"] = None
  ∧ 0 ≤ refCount "ADAUSD" s
  ∧ refCount "ADAUSD" (Handlers.unsubscribe 3 ["adausd"] (s, ∅)).1.1
    = Z.max 0 (refCount "ADAUSD" s - entriesFor "ADAUSD" ["adausd"]).
Proof.
  intros s. split; [done|]. split; [by vm_compute|].
  apply (unary_unsubscribe_releases_any 3 ["adausd"] s ∅ "ADAUSD");
    [done|by vm_compute].
Defined.

(** X19. A unary [subscribe] followed by the unary [unsubscribe] of the same
    request, for a connection identifier not in use and a request with at
    least one ticker, leaves every count as it was (also for a symbol named
    several times), removes the entry of the connection again, answers
    with the same tickers, and keeps pages and counts in step. *)
Theorem unary_subscribe_then_unsubscribe (c c' : Caller)
    (tickers : list string) (s : State) (conns : gmap string (gset string)) :
  conns !! connectionId tickers = None →
  normalizedTickers tickers ≠ [] →
  (∀ sym, 0 ≤ refCount sym s) →
  let r1 := Handlers.subscribe c tickers (s, conns) in
  let r2 := Handlers.unsubscribe c' tickers r1.1 in
  (∀ sym, refCount sym r2.1.1 = refCount sym s)
  ∧ r2.1.2 = conns
  ∧ r2.2 = r1.2
  ∧ (consistent s → consistent r2.1.1).
Proof.
  intros Hid Hne Hrc r1 r2.
  assert (E1 : r1 = (runOps (map (Acquire c) (normalizedTickers tickers)) s,
                     <[connectionId tickers := list_to_set (normalizedTickers tickers)]> conns,
                     normalizedTickers tickers)).
  { subst r1. unfold Handlers.subscribe, subscribeLoop.
    rewrite subscribeLoop_runOps, Hid. cbn. do 2 f_equal. f_equal. set_solver. }
  clearbody r1. subst r1. cbn [fst snd] in r2.
  unfold Handlers.unsubscribe in r2. cbn [fst snd] in r2.
  destruct (unsubscribe_state c' (connectionId tickers) tickers
              (runOps (map (Acquire c) (normalizedTickers tickers)) s)
              (<[connectionId tickers := list_to_set (normalizedTickers tickers)]> conns)
              []) as [H1 H2].
  fold r2 in H1, H2.
  split; [|split; [|split]].
  - intros sym. rewrite H1.
    rewrite runOps_refCount, filter_symbol_releases
      by apply normalizedTickers_normal.
    rewrite runOps_refCount, filter_symbol_acquires
      by apply normalizedTickers_normal.
    rewrite fold_acquires, fold_releases; [|specialize (Hrc sym); lia].
    specialize (Hrc sym). lia.
  - destruct (unsubscribe_conns_drains c' (connectionId tickers) tickers
                (list_to_set (normalizedTickers tickers))
                (runOps (map (Acquire c) (normalizedTickers tickers)) s)
                conns [] Hid) as [H|[_ [H|H]]].
    + exact H.
    + done.
    + exfalso. apply H. set_solver.
  - exact H2.
  - intros Hs. rewrite H1. by do 2 apply runOps_consistent_from.
Qed.

Lemma unary_subscribe_then_unsubscribe_witness :
  (∅ : gmap string (gset string)) !! connectionId ["btcusd"; "BTCUSD "] = None
  ∧ normalizedTickers ["btcusd"; "BTCUSD "] ≠ []
  ∧ (Handlers.unsubscribe 2 ["btcusd"; "BTCUSD "]
       (Handlers.subscribe 1 ["btcusd"; "BTCUSD "] (initial, ∅)).1).1.2
    = ∅.
Proof.
  split; [done|]. split; [by vm_compute|].
  apply (unary_subscribe_then_unsubscribe 1 2 ["btcusd"; "BTCUSD "] initial ∅).
  - done.
  - by vm_compute.
  - intros sym. by vm_compute.
Defined.

End Unary.

(** ** [streamPrices]: what a session holds, and what it gives back *)

Section Sessions.

Import Manager Server Scenario Runs Handlers.

Local Set Warnings "-clear-no-such-hyp".

Lemma perform_listeners (op : Op) (key : string) (s : State) :
  listeners key (perform op s) = listeners key s.
Proof.
  unfold listeners. destruct op as [c raw|c raw]; cbn [perform].
  - destruct (registry_step_bus (OpenSucceeds (Text.normalize raw))
                (Manager.subscribe c raw s) eq_refl) as [E1 _].
    destruct (registry_step_bus (Subscribe c raw) s eq_refl) as [E2 _].
    cbn [step] in E1, E2. by rewrite E1, E2.
  - destruct (registry_step_bus (CloseCompletes (Text.normalize raw))
                (Manager.unsubscribe c raw s) eq_refl) as [E1 _].
    destruct (registry_step_bus (Unsubscribe c raw) s eq_refl) as [E2 _].
    cbn [step] in E1, E2. by rewrite E1, E2.
Qed.

Lemma onPrice_registry (t : string) (h : Handler) (s : State) :
  refCounts (onPrice t h s).1 = refCounts s
  ∧ pages (onPrice t h s).1 = pages s
  ∧ starting (onPrice t h s).1 = starting s
  ∧ closing (onPrice t h s).1 = closing s.
Proof.
  unfold onPrice. cbn [fst].
  by destruct (lastPrices (on (topicKey t) h s) !! t).
Qed.

Lemma runDetach_registry (d : Detach) (s : State) :
  refCounts (runDetach d s) = refCounts s
  ∧ pages (runDetach d s) = pages s
  ∧ starting (runDetach d s) = starting s
  ∧ closing (runDetach d s) = closing s.
Proof.
  unfold runDetach, off. case_decide; [|done]. by destruct (removeLast _ _).
Qed.

Lemma consistent_registry (s s' : State) :
  refCounts s' = refCounts s → pages s' = pages s →
  starting s' = starting s → closing s' = closing s →
  consistent s → consistent s'.
Proof.
  intros E1 E2 E3 E4 [[Hs Hc] Hp]. unfold consistent, quiescent, refCount.
  rewrite E1, E2, E3, E4. split; [by split|exact Hp].
Qed.

Lemma mapGet_None (t : string) (held : list (string * Detach)) :
  t ∉ held.*1 → mapGet t held = None.
Proof.
  induction held as [|[k d] held IH]; [done|]. cbn. intros Hn.
  apply not_elem_of_cons in Hn as [Hne Hn]. unfold mapGet. cbn.
  rewrite bool_decide_eq_false_2 by done. by apply IH.
Qed.

Lemma mapGet_Some (t : string) (d : Detach) (held : list (string * Detach)) :
  mapGet t held = Some d → (t, d) ∈ held.
Proof.
  induction held as [|[k d'] held IH]; [done|]. unfold mapGet. cbn.
  destruct (bool_decide (k = t)) eqn:E.
  - apply bool_decide_eq_true in E as ->. cbn. intros H. simplify_eq. by left.
  - intros H. right. by apply IH.
Qed.

Lemma mapGet_elem (t : string) (held : list (string * Detach)) :
  t ∈ held.*1 → is_Some (mapGet t held).
Proof.
  induction held as [|[k d] held IH]; cbn; intros Hin.
  - by apply elem_of_nil in Hin.
  - unfold mapGet. cbn. destruct (bool_decide (k = t)) eqn:E; [by eexists|].
    apply bool_decide_eq_false in E.
    apply elem_of_cons in Hin as [Heq|Hin]; [by subst|]. by apply IH.
Qed.

Lemma mapSet_fresh (t : string) (d : Detach) (held : list (string * Detach)) :
  t ∉ held.*1 → mapSet t d held = held ++ [(t, d)].
Proof.
  induction held as [|[k d'] held IH]; [done|]. cbn. intros Hn.
  apply not_elem_of_cons in Hn as [Hne Hn].
  rewrite decide_False by done. by rewrite IH.
Qed.

Lemma mapDelete_keys (t : string) (held : list (string * Detach)) :
  (mapDelete t held).*1 = filter (λ k, k ≠ t) held.*1.
Proof.
  unfold mapDelete. induction held as [|[k d] held IH]; [done|].
  rewrite fmap_cons, !filter_cons. cbn [fst].
  destruct (decide (k ≠ t)); [rewrite fmap_cons|]; by rewrite IH.
Qed.

Lemma mapDelete_head (t : string) (d : Detach) (held : list (string * Detach)) :
  t ∉ held.*1 → mapDelete t ((t, d) :: held) = held.
Proof.
  intros Hn. unfold mapDelete. rewrite filter_cons. cbn.
  rewrite decide_False by (intros H; by apply H).
  induction held as [|[k d'] held IH]; [done|].
  cbn in Hn. apply not_elem_of_cons in Hn as [Hne Hn].
  rewrite filter_cons. cbn. rewrite decide_True by done. by rewrite IH.
Qed.

Lemma handlersAt_app (key : string) (l1 l2 : list (string * Detach)) :
  handlersAt key (l1 ++ l2) = handlersAt key l1 ++ handlersAt key l2.
Proof. unfold handlersAt. by rewrite filter_app, map_app. Qed.

Lemma handlersAt_absent (t : string) (held : list (string * Detach)) :
  (∀ kv, kv ∈ held → detach_key kv.2 = topicKey kv.1) →
  t ∉ held.*1 → handlersAt (topicKey t) held = [].
Proof.
  induction held as [|[k d] held IH]; [done|]. rewrite fmap_cons.
  intros Hk Hn. apply not_elem_of_cons in Hn as [Hne Hn]. cbn [fst] in Hne.
  unfold handlersAt. rewrite filter_cons. cbn [snd].
  rewrite decide_False.
  - apply IH; [|done]. intros kv Hkv. apply Hk. by right.
  - pose proof (Hk (k, d) ltac:(by left)) as Hd. cbn [fst snd] in Hd.
    rewrite Hd. intros Heq. apply topicKey_inj in Heq. by subst.
Qed.

Lemma handlersAt_delete (key t : string) (held : list (string * Detach)) :
  (∀ kv, kv ∈ held → detach_key kv.2 = topicKey kv.1) →
  handlersAt key (mapDelete t held)
  = if decide (key = topicKey t) then [] else handlersAt key held.
Proof.
  intros Hk. induction held as [|[k d] held IH].
  - by case_decide.
  - assert (Hk' : ∀ kv, kv ∈ held → detach_key kv.2 = topicKey kv.1).
    { intros kv Hkv. apply Hk. by right. }
    specialize (IH Hk'). pose proof (Hk (k, d) ltac:(by left)) as Hd.
    cbn in Hd. unfold mapDelete in *. rewrite filter_cons. cbn [fst].
    unfold handlersAt in *. destruct (decide (k = t)) as [->|Hne].
    + rewrite decide_False by (intros H; by apply H). rewrite IH.
      destruct (decide (key = topicKey t)) as [->|Hkey]; [done|].
      rewrite filter_cons. cbn [snd]. rewrite Hd. by rewrite decide_False.
    + rewrite decide_True by done. rewrite !filter_cons. cbn [snd]. rewrite Hd.
      destruct (decide (topicKey k = key)) as [<-|Hkey].
      * assert (topicKey k ≠ topicKey t) as Hkt
          by (intros Heq; apply topicKey_inj in Heq; by subst).
        cbn. rewrite IH. by repeat case_decide.
      * exact IH.
Qed.

(** The session takes a symbol it does not hold. *)
Lemma holds_attach (m0 m : State) (held : list (string * Detach))
    (c : Caller) (h : Handler) (t : string) :
  holds m0 m held → t ∉ held.*1 → Text.normalize t = t →
  holds m0 (onPrice t h (subscribeDone c t m)).1
        (held ++ [(t, {| detach_key := topicKey t; detach_handler := h |})]).
Proof.
  intros (Hnd & Hk & Hl & Hr) Hn Hnorm. split; [|split; [|split]].
  - rewrite fmap_app. cbn. apply NoDup_app. split; [done|]. split.
    + intros x Hx Hx'. apply list_elem_of_singleton in Hx'. by subst.
    + apply NoDup_singleton.
  - intros kv Hkv. apply elem_of_app in Hkv as [Hkv|Hkv]; [by apply Hk|].
    apply list_elem_of_singleton in Hkv as ->. by cbn.
  - intros key. rewrite onPrice_listeners, handlersAt_app.
    unfold subscribeDone. rewrite !perform_listeners, !Hl.
    assert (handlersAt key
              [(t, {| detach_key := topicKey t; detach_handler := h |})]
            = if decide (key = topicKey t) then [h] else []) as ->.
    { unfold handlersAt. rewrite filter_cons. cbn [snd detach_key].
      destruct (decide (key = topicKey t)) as [->|Hne].
      - by rewrite decide_True.
      - by rewrite decide_False. }
    destruct (decide (key = topicKey t)) as [->|Hne].
    + by rewrite <- app_assoc.
    + by rewrite app_nil_r.
  - intros sym. destruct (onPrice_registry t h (subscribeDone c t m)) as [E _].
    unfold refCount at 1. rewrite E. fold (refCount sym (subscribeDone c t m)).
    unfold subscribeDone. rewrite perform_refCount. cbn [opSymbol clampStep].
    rewrite Hnorm, !Hr, fmap_app. cbn.
    destruct (decide (t = sym)) as [<-|Hne].
    + rewrite decide_False by done.
      rewrite decide_True by (apply elem_of_app; right; by left). lia.
    + destruct (decide (sym ∈ held.*1)) as [Hin|Hnin].
      * by rewrite decide_True by (apply elem_of_app; by left).
      * rewrite decide_False; [done|]. intros Hin.
        apply elem_of_app in Hin as [Hin|Hin]; [done|].
        apply list_elem_of_singleton in Hin. by subst.
Qed.

(** The session gives back a symbol it holds. *)
Lemma holds_release (m0 m : State) (held : list (string * Detach))
    (c : Caller) (t : string) (d : Detach) :
  (∀ sym, 0 ≤ refCount sym m0) →
  holds m0 m held → mapGet t held = Some d →
  holds m0 (unsubscribeDone c t (runDetach d m)) (mapDelete t held).
Proof.
  intros H0 (Hnd & Hk & Hl & Hr) Hget.
  pose proof (mapGet_Some _ _ _ Hget) as Hin.
  destruct (Hk _ Hin) as [Hkey Hnorm]. cbn [fst snd] in Hkey, Hnorm.
  assert (Hk' : ∀ kv, kv ∈ held → detach_key kv.2 = topicKey kv.1).
  { intros kv Hkv. by apply Hk. }
  assert (Hat : handlersAt (topicKey t) held = [detach_handler d]).
  { clear Hl Hr Hget. induction held as [|[k d'] held IH].
    - by apply elem_of_nil in Hin.
    - apply NoDup_cons in Hnd as [Hnk Hnd]. unfold handlersAt.
      rewrite filter_cons. cbn [snd].
      pose proof (Hk' (k, d') ltac:(by left)) as Hd'. cbn [fst snd] in Hd'.
      rewrite Hd'.
      apply elem_of_cons in Hin as [Heq|Hin].
      + injection Heq as <- <-. rewrite decide_True by done. cbn. f_equal.
        apply (handlersAt_absent t held); [|done].
        intros kv Hkv. apply Hk'. by right.
      + assert (k ≠ t) as Hne.
        { intros ->. apply Hnk. apply list_elem_of_fmap. by exists (t, d). }
        rewrite decide_False
          by (intros Heq; apply topicKey_inj in Heq; by subst).
        apply IH; try done.
        * intros kv Hkv. apply Hk. by right.
        * intros kv Hkv. apply Hk'. by right. }
  split; [|split; [|split]].
  - rewrite mapDelete_keys. by apply NoDup_filter.
  - intros kv Hkv. apply list_elem_of_filter in Hkv as [_ Hkv]. by apply Hk.
  - intros key. unfold unsubscribeDone. rewrite perform_listeners.
    unfold runDetach. rewrite listeners_off, Hkey, handlersAt_delete by done.
    destruct (decide (key = topicKey t)) as [->|Hne].
    + rewrite Hl, Hat. rewrite app_nil_r.
      rewrite <- (app_nil_r (listeners (topicKey t) m0 ++ [detach_handler d])).
      rewrite <- app_assoc. cbn.
      rewrite removeLast_app by (intros H; by apply elem_of_nil in H).
      by rewrite app_nil_r.
    + apply Hl.
  - intros sym. unfold unsubscribeDone. rewrite perform_refCount.
    cbn [opSymbol clampStep]. rewrite Hnorm.
    destruct (runDetach_registry d m) as [E _].
    unfold refCount at 1 2. rewrite E. fold (refCount sym m).
    rewrite mapDelete_keys, !Hr.
    destruct (decide (t = sym)) as [<-|Hne].
    + rewrite decide_True by (apply list_elem_of_fmap; by exists (t, d)).
      rewrite decide_False.
      * specialize (H0 t). lia.
      * intros Hf. apply list_elem_of_filter in Hf as [Hf _]. by apply Hf.
    + destruct (decide (sym ∈ held.*1)) as [Hs|Hs].
      * rewrite decide_True; [done|]. apply list_elem_of_filter. split; [|done].
        intros ->. by apply Hne.
      * rewrite decide_False; [done|]. intros Hf.
        apply list_elem_of_filter in Hf as [_ Hf]. by apply Hs.
Qed.

(** What one action keeps. *)
Lemma handleAction_holds (m0 : State) (c : Caller) (h : Handler)
    (a : ClientAction) (ms : State * Session) :
  (∀ sym, 0 ≤ refCount sym m0) →
  holds m0 ms.1 (offMap ms.2) →
  (∀ t, t ∈ StreamPrices.subscribed (stream ms.2) ↔ t ∈ (offMap ms.2).*1) →
  let ms' := handleAction c h a ms in
  holds m0 ms'.1 (offMap ms'.2)
  ∧ (∀ t, t ∈ StreamPrices.subscribed (stream ms'.2) ↔ t ∈ (offMap ms'.2).*1)
  ∧ (consistent ms.1 → consistent ms'.1).
Proof.
  destruct ms as [m ses]. cbn [fst snd]. intros H0 Hh Hsub.
  unfold handleAction.
  set (t := Text.normalize (default "" (action_ticker a))).
  assert (Hnorm : Text.normalize t = t) by apply normalize_idem.
  destruct (decide (t = "")); [done|].
  destruct (action a); [| |done].
  - destruct (decide (t ∈ StreamPrices.subscribed (stream ses))) as [Hin|Hn];
      [done|].
    assert (Hfresh : t ∉ (offMap ses).*1) by (by rewrite <- Hsub).
    assert (Hon : onPrice t h (subscribeDone c t m)
                  = ((onPrice t h (subscribeDone c t m)).1,
                     {| detach_key := topicKey t; detach_handler := h |}))
      by done.
    rewrite Hon. cbn [fst snd offMap stream StreamPrices.subscribed].
    rewrite mapSet_fresh by done. split; [|split].
    + by apply holds_attach.
    + intros t'. rewrite fmap_app, elem_of_app, elem_of_union, Hsub. cbn.
      rewrite elem_of_singleton, list_elem_of_singleton. done.
    + intros Hc.
      destruct (onPrice_registry t h (subscribeDone c t m)) as (E1 & E2 & E3 & E4).
      apply (consistent_registry (subscribeDone c t m)); try done.
      by apply perform_consistent.
  - destruct (decide (t ∈ StreamPrices.subscribed (stream ses))) as [Hin|Hn];
      [|done].
    assert (Hkey : t ∈ (offMap ses).*1) by (by rewrite <- Hsub).
    destruct (mapGet_elem t (offMap ses) Hkey) as [d Hd].
    rewrite Hd. cbn [fst snd offMap stream StreamPrices.subscribed].
    split; [|split].
    + by apply holds_release.
    + intros t'. rewrite mapDelete_keys, list_elem_of_filter, <- Hsub.
      rewrite elem_of_difference, elem_of_singleton. tauto.
    + intros Hc. apply perform_consistent.
      destruct (runDetach_registry d m) as (E1 & E2 & E3 & E4).
      by apply (consistent_registry m).
Qed.

Lemma holds_fresh (m0 : State) : holds m0 m0 [].
Proof.
  split; [apply NoDup_nil_2|]. split; [|split].
  - intros kv Hkv. by apply elem_of_nil in Hkv.
  - intros key. cbn. by rewrite app_nil_r.
  - intros sym. cbn. rewrite decide_False; [lia|].
    intros H. by apply elem_of_nil in H.
Qed.

Lemma handleActions_holds (m0 : State)
    (acts : list (Caller * Handler * ClientAction)) :
  (∀ sym, 0 ≤ refCount sym m0) →
  let ms := handleActions acts (m0, newSession) in
  holds m0 ms.1 (offMap ms.2)
  ∧ (∀ t, t ∈ StreamPrices.subscribed (stream ms.2) ↔ t ∈ (offMap ms.2).*1)
  ∧ (consistent m0 → consistent ms.1).
Proof.
  intros H0. cbn zeta.
  induction acts as [|[[c h] a] acts IH] using rev_ind.
  - split; [apply holds_fresh|]. split; [|done]. intros t. cbn.
    split; intros H; [by apply elem_of_empty in H|by apply elem_of_nil in H].
  - unfold handleActions in *. rewrite fold_left_app. cbn [fold_left fst snd].
    destruct IH as (Hh & Hsub & Hc).
    destruct (handleAction_holds m0 c h a _ H0 Hh Hsub) as (Hh' & Hsub' & Hc').
    split; [done|]. split; [done|]. intros Hm0. by apply Hc', Hc.
Qed.

(** X20. Whatever actions the client of a [streamPrices] session sends
    (repeated subscriptions, releases of symbols it does not hold, blank
    tickers, other action codes), with calls run to completion and opens
    that succeed, the session holds exactly one reference for each symbol of
    its [subscribed] set and none for any other symbol, [offMap] has an
    entry for exactly those symbols, and pages and counts stay in step. *)
Theorem session_holds_one_reference_each
    (acts : list (Caller * Handler * ClientAction)) (m0 : State) (sym : string) :
  (∀ t, 0 ≤ refCount t m0) →
  let ms := handleActions acts (m0, newSession) in
  refCount sym ms.1
  = refCount sym m0
    + (if decide (sym ∈ StreamPrices.subscribed (stream ms.2)) then 1 else 0)
  ∧ (sym ∈ StreamPrices.subscribed (stream ms.2) ↔ sym ∈ (offMap ms.2).*1)
  ∧ (consistent m0 → consistent ms.1).
Proof.
  intros H0 ms.
  destruct (handleActions_holds m0 acts H0) as ((_ & _ & _ & Hr) & Hsub & Hc).
  fold ms in Hr, Hsub, Hc. split; [|split; [apply Hsub|exact Hc]].
  rewrite Hr. destruct (decide (sym ∈ (offMap ms.2).*1)) as [Hin|Hn].
  - by rewrite decide_True by (by apply Hsub).
  - by rewrite decide_False by (by rewrite Hsub).
Qed.

Lemma session_holds_one_reference_each_witness :
  let acts :=
    [(1%nat, 11%nat, {| action := SUBSCRIBE; action_ticker := Some " btcusd" |});
     (1%nat, 12%nat, {| action := SUBSCRIBE; action_ticker := Some "BTCUSD" |});
     (1%nat, 13%nat, {| action := SUBSCRIBE; action_ticker := Some "ethusd" |});
     (1%nat, 14%nat, {| action := UNSUBSCRIBE; action_ticker := Some "btcusd" |});
     (1%nat, 15%nat, {| action := OtherAction; action_ticker := None |})] in
  let ms := handleActions acts (initial, newSession) in
  refCount "ETHUSD" ms.1
  = refCount "ETHUSD" initial
    + (if decide ("ETHUSD" ∈ StreamPrices.subscribed (stream ms.2))
       then 1 else 0)
  ∧ ("ETHUSD" ∈ StreamPrices.subscribed (stream ms.2)
     ↔ "ETHUSD" ∈ (offMap ms.2).*1)
  ∧ (consistent initial → consistent ms.1).
Proof.
  intros acts.
  apply (session_holds_one_reference_each acts initial "ETHUSD").
  intros t. by vm_compute.
Defined.

Lemma finish_holds (m0 : State) (c : Caller) (held : list (string * Detach))
    (m : State) :
  (∀ sym, 0 ≤ refCount sym m0) →
  holds m0 m held →
  holds m0
    (fold_left (λ m kv, unsubscribeDone c kv.1 (runDetach kv.2 m)) held m) []
  ∧ (consistent m →
     consistent
       (fold_left (λ m kv, unsubscribeDone c kv.1 (runDetach kv.2 m)) held m)).
Proof.
  intros H0. revert m. induction held as [|[t d] held IH]; intros m Hh; [done|].
  cbn [fold_left fst snd].
  assert (Hnd : t ∉ held.*1).
  { destruct Hh as (Hnd & _). by apply NoDup_cons in Hnd as [? _]. }
  assert (Hget : mapGet t ((t, d) :: held) = Some d).
  { unfold mapGet. cbn. by rewrite bool_decide_eq_true_2. }
  pose proof (holds_release m0 m _ c t d H0 Hh Hget) as Hh'.
  rewrite mapDelete_head in Hh' by done.
  destruct (IH _ Hh') as [H1 H2]. split; [done|].
  intros Hc. apply H2. apply perform_consistent.
  destruct (runDetach_registry d m) as (E1 & E2 & E3 & E4).
  by apply (consistent_registry m).
Qed.

(** X21. When a [streamPrices] session ends, its [finally] block gives
    everything back: after any actions of the client, with calls run to
    completion and opens that succeed, every count and every list of
    listeners of the manager is what it was when the session started, the
    session holds nothing, and pages and counts are in step. *)
Theorem session_end_releases_everything
    (acts : list (Caller * Handler * ClientAction)) (c : Caller)
    (m0 : State) :
  (∀ t, 0 ≤ refCount t m0) →
  let ms := finish c (handleActions acts (m0, newSession)) in
  (∀ sym, refCount sym ms.1 = refCount sym m0)
  ∧ (∀ key, listeners key ms.1 = listeners key m0)
  ∧ StreamPrices.subscribed (stream ms.2) = ∅
  ∧ offMap ms.2 = []
  ∧ (consistent m0 → consistent ms.1).
Proof.
  intros H0. cbn zeta.
  destruct (handleActions_holds m0 acts H0) as (Hh & _ & Hc).
  destruct (handleActions acts (m0, newSession)) as [m ses].
  cbn [fst snd] in *. unfold finish. cbn [fst snd stream offMap StreamPrices.subscribed].
  destruct (finish_holds m0 c (offMap ses) m H0 Hh) as [(_ & _ & Hl & Hr) Hc'].
  split; [|split; [|split; [done|split; [done|]]]].
  - intros sym. rewrite Hr. cbn. rewrite decide_False; [lia|].
    intros H. by apply elem_of_nil in H.
  - intros key. rewrite Hl. cbn. by rewrite app_nil_r.
  - intros Hm0. by apply Hc', Hc.
Qed.

Lemma session_end_releases_everything_witness :
  let acts :=
    [(1%nat, 11%nat, {| action := SUBSCRIBE; action_ticker := Some " btcusd" |});
     (1%nat, 13%nat, {| action := SUBSCRIBE; action_ticker := Some "ethusd" |});
     (1%nat, 14%nat, {| action := UNSUBSCRIBE; action_ticker := Some "btcusd" |})] in
  let ms := finish 1 (handleActions acts (initial, newSession)) in
  (∀ sym, refCount sym ms.1 = refCount sym initial)
  ∧ (∀ key, listeners key ms.1 = listeners key initial)
  ∧ StreamPrices.subscribed (stream ms.2) = ∅
  ∧ offMap ms.2 = []
  ∧ (consistent initial → consistent ms.1).
Proof.
  intros acts.
  apply (session_end_releases_everything acts 1 initial).
  intros t. by vm_compute.
Defined.

End Sessions.

(** ** [watchPrices]: one listener for each ticker that is followed *)

Section WatchTracking.

Import Num Manager Server Handlers Server.WatchPrices Scenario Runs.

Lemma removeLast_filter (P : Handler → Prop) `{∀ x, Decision (P x)}
    (h : Handler) (l : list Handler) :
  ¬ P h → filter P (removeLast h l) = filter P l.
Proof.
  intros Hn. induction l as [|x l IH]; [done|]. cbn [removeLast].
  destruct (decide (x = h)) as [->|Hne].
  - destruct (decide (h ∈ l)).
    + rewrite !filter_cons. by rewrite !decide_False, IH by done.
    + rewrite filter_cons. by rewrite decide_False by done.
  - rewrite !filter_cons. destruct (decide (P x)); by rewrite IH.
Qed.

Lemma removeLast_count (h : Handler) (l : list Handler) :
  h ∈ l →
  S (List.length (filter (λ x, x = h) (removeLast h l)))
  = List.length (filter (λ x, x = h) l).
Proof.
  induction l as [|x l IH]; intros Hin; [by apply elem_of_nil in Hin|].
  cbn [removeLast]. destruct (decide (x = h)) as [->|Hne].
  - destruct (decide (h ∈ l)) as [Hl|Hl].
    + rewrite !filter_cons, !decide_True by done. cbn. by rewrite IH.
    + rewrite filter_cons, decide_True by done. done.
  - apply elem_of_cons in Hin as [->|Hin]; [done|].
    rewrite !filter_cons, !decide_False by done. by apply IH.
Qed.

Lemma registered_elem (h : Handler) (key : string) (s : State) :
  (0 < registrations h key s)%nat → h ∈ listeners key s.
Proof.
  unfold registrations. intros Hpos.
  destruct (filter (λ x, x = h) (listeners key s)) as [|x l] eqn:E;
    [cbn in Hpos; lia|].
  assert (x ∈ filter (λ x, x = h) (listeners key s)) as Hx
    by (rewrite E; by left).
  apply list_elem_of_filter in Hx as [-> Hx]. done.
Qed.

Lemma follows_app (key t : string) (l : list string) :
  follows key (l ++ [t])
  = (follows key l + (if decide (key = topicKey t) then 1 else 0))%nat.
Proof.
  unfold follows. rewrite filter_app, length_app. f_equal.
  rewrite filter_cons.
  destruct (decide (key = topicKey t)) as [->|Hne].
  - by rewrite decide_True.
  - by rewrite decide_False.
Qed.

Lemma follows_absent (t : string) (l : list string) :
  t ∉ l → follows (topicKey t) l = 0%nat.
Proof.
  unfold follows. induction l as [|x l IH]; [done|]. intros Hn.
  apply not_elem_of_cons in Hn as [Hne Hn]. rewrite filter_cons.
  rewrite decide_False; [by apply IH|].
  intros Heq. apply topicKey_inj in Heq. by subst.
Qed.

Lemma follows_drop (key t : string) (l : list string) :
  NoDup l → t ∈ l →
  (follows key (filter (λ x, x ≠ t) l)
   + (if decide (key = topicKey t) then 1 else 0))%nat
  = follows key l.
Proof.
  unfold follows. induction l as [|x l IH]; intros Hnd Hin;
    [by apply elem_of_nil in Hin|].
  apply NoDup_cons in Hnd as [Hx Hnd].
  destruct (decide (x = t)) as [->|Hne].
  - rewrite (filter_cons (λ x, x ≠ t)), decide_False by (intros H; by apply H).
    assert (filter (λ x, x ≠ t) l = l) as ->.
    { clear IH Hnd Hin. induction l as [|y l IH]; [done|].
      apply not_elem_of_cons in Hx as [Hy Hx].
      rewrite filter_cons, decide_True by done. by rewrite IH. }
    rewrite (filter_cons _ t).
    destruct (decide (key = topicKey t)) as [->|Hk].
    + rewrite decide_True by done. cbn. lia.
    + rewrite decide_False by done. lia.
  - apply elem_of_cons in Hin as [->|Hin]; [done|].
    rewrite (filter_cons (λ x, x ≠ t)), decide_True by done.
    rewrite !(filter_cons _ x).
    destruct (decide (topicKey x = key)); cbn; rewrite <- (IH Hnd Hin); lia.
Qed.

Lemma filter_absent (t : string) (l : list string) :
  t ∉ l → filter (λ x, x ≠ t) l = l.
Proof.
  induction l as [|y l IH]; [done|]. intros Hn.
  apply not_elem_of_cons in Hn as [Hy Hn].
  rewrite filter_cons, decide_True by done. by rewrite IH.
Qed.

(** *** The two loops of the interval callback *)

Lemma subscribeToTicker_tracks (t : string) (mw : State * Stream) :
  tracks mw →
  let mw' := subscribeToTicker t mw in
  tracks mw'
  ∧ onUpdate_id mw'.2 = onUpdate_id mw.2
  ∧ (∀ key, others (onUpdate_id mw.2) key mw'.1
            = others (onUpdate_id mw.2) key mw.1).
Proof.
  destruct mw as [m w]. intros (Hnd & Hdom & Hent & Hreg).
  cbn [fst snd] in *. unfold subscribeToTicker.
  destruct (decide (t ∈ subscribed w)) as [Hin|Hn]; [done|].
  assert (Hon : onPrice t (onUpdate_id w) m
                = ((onPrice t (onUpdate_id w) m).1,
                   {| detach_key := topicKey t;
                      detach_handler := onUpdate_id w |})) by done.
  rewrite Hon. cbn zeta. cbn [fst snd subscribed offMap onUpdate_id].
  split; [|split; [done|]].
  - split; [|split; [|split]]; cbn [fst snd subscribed offMap onUpdate_id].
    + apply NoDup_app. split; [done|]. split; [|apply NoDup_singleton].
      intros x Hx Hx'. apply list_elem_of_singleton in Hx'. by subst.
    + intros t'. rewrite elem_of_app, list_elem_of_singleton.
      destruct (decide (t = t')) as [<-|Hne].
      * rewrite lookup_insert_eq. split; [by eexists|by right].
      * rewrite lookup_insert_ne by done. rewrite Hdom.
        split; [by intros [?|?]|by left].
    + intros t' d Hd. destruct (decide (t = t')) as [<-|Hne].
      * rewrite lookup_insert_eq in Hd. by simplify_eq.
      * rewrite lookup_insert_ne in Hd by done. by apply Hent.
    + intros key. unfold registrations. rewrite onPrice_listeners, follows_app.
      fold (registrations (onUpdate_id w) key m). rewrite <- Hreg.
      destruct (decide (key = topicKey t)) as [->|Hne]; [|unfold registrations; lia].
      rewrite filter_app, length_app, filter_cons, decide_True by done.
      unfold registrations. done.
  - intros key. unfold others. rewrite onPrice_listeners.
    destruct (decide (key = topicKey t)) as [->|Hne]; [|done].
    rewrite filter_app, filter_cons, decide_False by (intros H; by apply H).
    by rewrite app_nil_r.
Qed.

Lemma dropTicker_tracks (t : string) (mw : State * Stream) :
  tracks mw →
  let mw' := dropTicker t mw in
  tracks mw'
  ∧ onUpdate_id mw'.2 = onUpdate_id mw.2
  ∧ (∀ key, others (onUpdate_id mw.2) key mw'.1
            = others (onUpdate_id mw.2) key mw.1).
Proof.
  destruct mw as [m w]. intros (Hnd & Hdom & Hent & Hreg).
  cbn [fst snd] in *. unfold dropTicker.
  destruct (offMap w !! t) as [d|] eqn:E.
  - pose proof (Hent _ _ E) as ->.
    assert (Hin : t ∈ subscribed w) by (apply Hdom; by eexists).
    cbn zeta. cbn [fst snd subscribed offMap onUpdate_id].
    assert (Hh : onUpdate_id w ∈ listeners (topicKey t) m).
    { apply registered_elem. rewrite Hreg.
      rewrite <- (follows_drop (topicKey t) t) by done.
      rewrite decide_True by done. lia. }
    split; [|split; [done|]].
    + split; [|split; [|split]]; cbn [fst snd subscribed offMap onUpdate_id].
      * by apply NoDup_filter.
      * intros t'. rewrite list_elem_of_filter, Hdom.
        destruct (decide (t = t')) as [<-|Hne].
        -- rewrite lookup_delete_eq. split; [by intros [? _]|by intros [? ?]].
        -- rewrite lookup_delete_ne by done. split; [tauto|]. split; [|done].
           by intros ->.
      * intros t' d Hd. apply lookup_delete_Some in Hd as [_ Hd].
        by apply Hent.
      * intros key. unfold registrations, runDetach.
        cbn [detach_key detach_handler]. rewrite listeners_off.
        pose proof (follows_drop key t (subscribed w) Hnd Hin) as Hf.
        destruct (decide (key = topicKey t)) as [->|Hne].
        -- pose proof (removeLast_count _ _ Hh) as Hc.
           specialize (Hreg (topicKey t)). unfold registrations in Hreg. lia.
        -- specialize (Hreg key). unfold registrations in Hreg. lia.
    + intros key. unfold others, runDetach.
      cbn [detach_key detach_handler]. rewrite listeners_off.
      destruct (decide (key = topicKey t)) as [->|Hne]; [|done].
      apply removeLast_filter. intros H. by apply H.
  - assert (Hn : t ∉ subscribed w).
    { intros Hin. apply Hdom in Hin as [d Hd]. congruence. }
    cbn zeta. cbn [fst snd subscribed offMap onUpdate_id].
    rewrite filter_absent by done. split; [|by split].
    by split; [|split; [|split]].
Qed.

Lemma attachLoop_tracks (l : list string) (mw : State * Stream) :
  tracks mw →
  let mw' := fold_left (λ mw t, subscribeToTicker t mw) l mw in
  tracks mw'
  ∧ onUpdate_id mw'.2 = onUpdate_id mw.2
  ∧ (∀ key, others (onUpdate_id mw.2) key mw'.1
            = others (onUpdate_id mw.2) key mw.1).
Proof.
  revert mw. induction l as [|t l IH]; intros mw Ht; [done|].
  cbn zeta. cbn [fold_left].
  destruct (subscribeToTicker_tracks t mw Ht) as (Ht1 & Hid1 & Ho1).
  destruct (IH _ Ht1) as (Ht2 & Hid2 & Ho2).
  split; [done|]. split; [congruence|].
  intros key. rewrite <- Ho1, <- Hid1. apply Ho2.
Qed.

Lemma dropLoop_tracks (current l : list string) (mw : State * Stream) :
  tracks mw →
  let mw' :=
    fold_left
      (λ mw t, if decide (t ∈ current) then mw else dropTicker t mw) l mw in
  tracks mw'
  ∧ onUpdate_id mw'.2 = onUpdate_id mw.2
  ∧ (∀ key, others (onUpdate_id mw.2) key mw'.1
            = others (onUpdate_id mw.2) key mw.1).
Proof.
  revert mw. induction l as [|t l IH]; intros mw Ht; [done|].
  cbn zeta. cbn [fold_left].
  destruct (decide (t ∈ current)); [by apply IH|].
  destruct (dropTicker_tracks t mw Ht) as (Ht1 & Hid1 & Ho1).
  destruct (IH _ Ht1) as (Ht2 & Hid2 & Ho2).
  split; [done|]. split; [congruence|].
  intros key. rewrite <- Ho1, <- Hid1. apply Ho2.
Qed.

Lemma checkInterval_tracks (mw : State * Stream) :
  tracks mw →
  tracks (checkInterval mw)
  ∧ onUpdate_id (checkInterval mw).2 = onUpdate_id mw.2
  ∧ (∀ key, others (onUpdate_id mw.2) key (checkInterval mw).1
            = others (onUpdate_id mw.2) key mw.1).
Proof.
  intros Ht. unfold checkInterval. cbn zeta. rewrite checkInterval_first_loop.
  destruct (attachLoop_tracks (getActiveTickers mw.1) mw Ht) as (Ht1 & Hid1 & Ho1).
  set (mw1 := fold_left (λ mw t, subscribeToTicker t mw)
                (getActiveTickers mw.1) mw) in *.
  destruct (dropLoop_tracks (getActiveTickers mw.1) (subscribed mw1.2) mw1 Ht1)
    as (Ht2 & Hid2 & Ho2).
  split; [done|]. split; [congruence|].
  intros key. rewrite <- Ho1, <- Hid1. apply Ho2.
Qed.

(** *** The steps of the manager *)

Lemma step_registrations (h : Handler) (e : Event) (key : string) (s : State) :
  foreign h e → registrations h key (step e s) = registrations h key s.
Proof.
  intros Hf. unfold registrations.
  destruct (registryEvent e) eqn:Hr.
  { destruct (registry_step_bus e s Hr) as [E _]. unfold listeners.
    by rewrite E. }
  destruct e as [c raw|c raw|t'|t'|t'|t'|t' payload now|t' h'|d|];
    try discriminate Hr; cbn [step].
  - unfold pushPriceUpdate. destruct payload as [p|]; [|done].
    by destruct (isFinite (payload_price p)).
  - rewrite onPrice_listeners. case_decide; [|done]. subst key.
    rewrite filter_app, filter_cons, decide_False by done.
    by rewrite app_nil_r.
  - unfold runDetach. rewrite listeners_off. case_decide; [|done].
    subst key. f_equal. apply removeLast_filter. cbn in Hf. congruence.
  - unfold runImmediate. by destruct (immediates s).
Qed.

Lemma managerStep_tracks (e : Event) (mw : State * Stream) :
  foreign (onUpdate_id mw.2) e → tracks mw →
  tracks (managerStep e mw)
  ∧ onUpdate_id (managerStep e mw).2 = onUpdate_id mw.2.
Proof.
  destruct mw as [m w]. cbn [fst snd]. intros Hf (Hnd & Hdom & Hent & Hreg).
  cbn [fst snd] in *. unfold managerStep, tracks. cbn [fst snd].
  set (calls := drop _ _).
  destruct (dispatch_variables calls w) as [Hs Hom].
  rewrite Hs, Hom, dispatch_onUpdate_id. split; [|done].
  split; [done|]. split; [done|]. split; [done|].
  intros key. by rewrite step_registrations.
Qed.

Lemma tracks_fresh (h : Handler) (m : State) :
  (∀ key, h ∉ listeners key m) →
  tracks (m, {| subscribed := []; offMap := ∅; queue := emptyQueue;
                streamClosed := false; onUpdate_id := h |}).
Proof.
  intros Hfresh. split; [apply NoDup_nil_2|]. split; [|split]; cbn.
  - intros t. rewrite lookup_empty. split; [|by intros [? ?]].
    intros H. by apply elem_of_nil in H.
  - intros t d Hd. by rewrite lookup_empty in Hd.
  - intros key. unfold registrations, follows. cbn.
    destruct (filter (λ x, x = h) (listeners key m)) as [|x l] eqn:E; [done|].
    assert (x ∈ filter (λ x, x = h) (listeners key m)) as Hx
      by (rewrite E; by left).
    apply list_elem_of_filter in Hx as [-> Hx]. by apply Hfresh in Hx.
Qed.

Lemma start_tracks (h : Handler) (m : State) :
  (∀ key, h ∉ listeners key m) →
  tracks (start h m) ∧ onUpdate_id (start h m).2 = h.
Proof.
  intros Hfresh. unfold start.
  destruct (attachLoop_tracks (getActiveTickers m) _ (tracks_fresh h m Hfresh))
    as (Ht & Hid & _).
  by split.
Qed.

(** X22. The callback of a [watchPrices] stream is registered exactly once
    for each ticker that the stream follows and for nothing else, at the
    start of the stream and after any number of runs of its interval
    callback and of steps of the manager made by others; the entries of
    [offMap] are the functions that undo those registrations.  The callback
    is a function created by this call, so it is not registered when the
    call starts. *)
Theorem watch_registers_once_per_ticker (h : Handler) (m : State)
    (xs : list WatchEvent) :
  (∀ key, h ∉ listeners key m) →
  Forall (foreignTo h) xs →
  tracks (watchRun xs (start h m))
  ∧ onUpdate_id (watchRun xs (start h m)).2 = h.
Proof.
  intros Hfresh Hxs. induction xs as [|x xs IH] using rev_ind.
  - by apply start_tracks.
  - apply Forall_app in Hxs as [Hxs Hx]. apply Forall_inv in Hx.
    destruct (IH Hxs) as [Ht Hid]. unfold watchRun in *.
    rewrite fold_left_app. cbn [fold_left].
    set (mw := fold_left _ xs _) in *.
    destruct x as [|e]; cbn [watchEvent foreignTo] in *.
    + destruct (checkInterval_tracks mw Ht) as (Ht' & Hid' & _).
      split; [done|congruence].
    + rewrite <- Hid in Hx.
      destruct (managerStep_tracks e mw Hx Ht) as (Ht' & Hid').
      split; [done|congruence].
Qed.

Lemma watch_registers_once_per_ticker_witness :
  tracks (watchRun [ManagerStep (Subscribe 1%nat "btcusd");
                    ManagerStep (OpenSucceeds "BTCUSD");
                    Interval;
                    ManagerStep (OnPrice "BTCUSD" 8%nat)]
            (start 7%nat initial))
  ∧ onUpdate_id
      (watchRun [ManagerStep (Subscribe 1%nat "btcusd");
                 ManagerStep (OpenSucceeds "BTCUSD");
                 Interval;
                 ManagerStep (OnPrice "BTCUSD" 8%nat)]
         (start 7%nat initial)).2 = 7%nat.
Proof.
  apply (watch_registers_once_per_ticker 7%nat initial).
  - intros key Hin. by apply elem_of_nil in Hin.
  - repeat constructor. cbn. lia.
Defined.

(** *** The stream follows the pages, and only them *)

Lemma subscribeToTicker_registry (t : string) (mw : State * Stream) :
  pages (subscribeToTicker t mw).1 = pages mw.1
  ∧ refCounts (subscribeToTicker t mw).1 = refCounts mw.1
  ∧ (∀ x, x ∈ subscribed (subscribeToTicker t mw).2
          ↔ x ∈ subscribed mw.2 ∨ x = t).
Proof.
  destruct mw as [m w]. unfold subscribeToTicker. cbn [fst snd].
  destruct (decide (t ∈ subscribed w)) as [Hin|Hn].
  - split; [done|]. split; [done|]. intros x. split; [by left|].
    by intros [?| ->].
  - destruct (onPrice_registry t (onUpdate_id w) m) as (E1 & E2 & _).
    destruct (onPrice t (onUpdate_id w) m) as [m' off]. cbn [fst snd] in *.
    split; [done|]. split; [done|]. intros x. cbn [snd subscribed].
    by rewrite elem_of_app, list_elem_of_singleton.
Qed.

Lemma dropTicker_registry (t : string) (mw : State * Stream) :
  pages (dropTicker t mw).1 = pages mw.1
  ∧ refCounts (dropTicker t mw).1 = refCounts mw.1
  ∧ (∀ x, x ∈ subscribed (dropTicker t mw).2
          ↔ x ∈ subscribed mw.2 ∧ x ≠ t).
Proof.
  destruct mw as [m w]. unfold dropTicker. cbn [fst snd].
  assert (Hx : ∀ x, x ∈ filter (λ t0, t0 ≠ t) (subscribed w)
                    ↔ x ∈ subscribed w ∧ x ≠ t).
  { intros x. rewrite list_elem_of_filter. tauto. }
  destruct (offMap w !! t) as [d|]; cbn [fst snd subscribed]; [|done].
  destruct (runDetach_registry d m) as (E1 & E2 & _). done.
Qed.

Lemma attachLoop_registry (l : list string) (mw : State * Stream) :
  let mw' := fold_left (λ mw t, subscribeToTicker t mw) l mw in
  pages mw'.1 = pages mw.1
  ∧ refCounts mw'.1 = refCounts mw.1
  ∧ (∀ x, x ∈ subscribed mw'.2 ↔ x ∈ subscribed mw.2 ∨ x ∈ l).
Proof.
  revert mw. induction l as [|t l IH]; intros mw; cbn zeta.
  - cbn. split; [done|]. split; [done|]. intros x. split; [by left|].
    intros [?|H]; [done|by apply elem_of_nil in H].
  - cbn [fold_left].
    destruct (subscribeToTicker_registry t mw) as (E1 & E2 & E3).
    destruct (IH (subscribeToTicker t mw)) as (F1 & F2 & F3).
    split; [congruence|]. split; [congruence|].
    intros x. rewrite F3, E3, elem_of_cons. tauto.
Qed.

Lemma dropLoop_registry (current l : list string) (mw : State * Stream) :
  let mw' :=
    fold_left
      (λ mw t, if decide (t ∈ current) then mw else dropTicker t mw) l mw in
  pages mw'.1 = pages mw.1
  ∧ refCounts mw'.1 = refCounts mw.1
  ∧ (∀ x, x ∈ subscribed mw'.2
          ↔ x ∈ subscribed mw.2 ∧ (x ∈ current ∨ x ∉ l)).
Proof.
  revert mw. induction l as [|t l IH]; intros mw; cbn zeta.
  - cbn. split; [done|]. split; [done|]. intros x. split; [|tauto].
    intros Hx. split; [done|]. right. intros H. by apply elem_of_nil in H.
  - cbn [fold_left]. destruct (decide (t ∈ current)) as [Hc|Hc].
    + destruct (IH mw) as (F1 & F2 & F3). split; [done|]. split; [done|].
      intros x. rewrite F3, not_elem_of_cons.
      destruct (decide (x = t)) as [->|Hne]; tauto.
    + destruct (dropTicker_registry t mw) as (E1 & E2 & E3).
      destruct (IH (dropTicker t mw)) as (F1 & F2 & F3).
      split; [congruence|]. split; [congruence|].
      intros x. rewrite F3, E3, not_elem_of_cons.
      destruct (decide (x = t)) as [->|Hne]; tauto.
Qed.

(** X23. After each run of the interval callback of a [watchPrices] stream
    the stream follows the tickers that have a page and no other: a ticker
    whose page is gone is dropped at the next run.  The callback and the
    start of the stream leave the pages and the reference counts of the
    manager as they are: a watcher holds no reference, and does not keep a
    page open. *)
Theorem watch_interval_follows_pages (h : Handler) (mw : State * Stream)
    (t : string) :
  (t ∈ subscribed (checkInterval mw).2 ↔ is_Some (pages mw.1 !! t))
  ∧ pages (checkInterval mw).1 = pages mw.1
  ∧ refCounts (checkInterval mw).1 = refCounts mw.1
  ∧ (t ∈ subscribed (start h mw.1).2 ↔ is_Some (pages mw.1 !! t))
  ∧ pages (start h mw.1).1 = pages mw.1
  ∧ refCounts (start h mw.1).1 = refCounts mw.1.
Proof.
  split; [|split; [|split; [|split; [|split]]]].
  1-3: unfold checkInterval; cbn zeta; rewrite checkInterval_first_loop;
    destruct (attachLoop_registry (getActiveTickers mw.1) mw) as (E1 & E2 & E3);
    cbn zeta in E1, E2, E3;
    set (mw1 := fold_left (λ mw t, subscribeToTicker t mw)
                  (getActiveTickers mw.1) mw) in *;
    destruct (dropLoop_registry (getActiveTickers mw.1) (subscribed mw1.2) mw1)
      as (F1 & F2 & F3); cbn zeta in F1, F2, F3.
  - rewrite F3, <- getActiveTickers_spec. pose proof (E3 t) as E. tauto.
  - congruence.
  - congruence.
  - unfold start.
    destruct (attachLoop_registry (getActiveTickers mw.1)
                (mw.1, {| subscribed := []; offMap := ∅; queue := emptyQueue;
                          streamClosed := false; onUpdate_id := h |}))
      as (_ & _ & E3).
    cbn zeta in E3. rewrite E3, <- getActiveTickers_spec. cbn.
    split; [|by right]. intros [H|H]; [by apply elem_of_nil in H|done].
  - unfold start. by destruct (attachLoop_registry (getActiveTickers mw.1)
                (mw.1, {| subscribed := []; offMap := ∅; queue := emptyQueue;
                          streamClosed := false; onUpdate_id := h |}))
      as (E1 & _ & _).
  - unfold start. by destruct (attachLoop_registry (getActiveTickers mw.1)
                (mw.1, {| subscribed := []; offMap := ∅; queue := emptyQueue;
                          streamClosed := false; onUpdate_id := h |}))
      as (_ & E2 & _).
Qed.

(** *** Each price once *)

Lemma dispatch_taken (u : PriceUpdate) (hs : list Handler) (w : Stream) :
  taken (dispatch (map (λ h, (h, u)) hs) w)
  = (taken w + List.length (filter (λ x, x = onUpdate_id w) hs))%nat.
Proof.
  revert w. induction hs as [|x hs IH]; intros w.
  { unfold dispatch. cbn [map fold_left]. rewrite filter_nil. cbn [List.length]. lia. }
  cbn [map dispatch fold_left]. fold (dispatch (map (λ h, (h, u)) hs)).
  rewrite filter_cons. cbn [fst snd].
  destruct (decide (x = onUpdate_id w)) as [->|Hne].
  - rewrite IH. cbn [List.length].
    assert (taken (onUpdate u w) = S (taken w)) as ->.
    { unfold taken, onUpdate, upd_queue, push. cbn.
      destruct (resolveNext (queue w)); cbn; rewrite length_app; cbn; lia. }
    assert (onUpdate_id (onUpdate u w) = onUpdate_id w) as -> by done. lia.
  - by rewrite IH.
Qed.

(** X24. A finite price pushed by the page of a ticker puts exactly one
    message into the queue of a [watchPrices] stream that follows the
    ticker, and none into the queue of a stream that does not. *)
Theorem watch_takes_each_price_once (t : string) (p : Payload) (now : Z)
    (mw : State * Stream) :
  tracks mw →
  isFinite (payload_price p) = true →
  taken (managerStep (PushPriceUpdate t (Some p) now) mw).2
  = (taken mw.2 + (if decide (t ∈ subscribed mw.2) then 1 else 0))%nat.
Proof.
  destruct mw as [m w]. intros (Hnd & Hdom & Hent & Hreg) Hfin.
  cbn [fst snd] in *. unfold managerStep. cbn [snd step].
  unfold pushPriceUpdate. rewrite Hfin. unfold emit.
  cbn [delivered upd_delivered]. cbn. rewrite drop_app_length.
  set (u := {| ticker := t; price := payload_price p;
               ts := if decide (payload_ts p = 0) then now else payload_ts p;
               source := "tradingview" |}).
  change (listeners (topicKey t) (upd_lastPrices <[t:=u]> m))
    with (listeners (topicKey t) m).
  rewrite dispatch_taken. f_equal.
  specialize (Hreg (topicKey t)). unfold registrations in Hreg. rewrite Hreg.
  destruct (decide (t ∈ subscribed w)) as [Hin|Hn].
  - rewrite <- (follows_drop (topicKey t) t (subscribed w)) by done.
    rewrite decide_True by done.
    rewrite follows_absent; [done|].
    intros H. apply list_elem_of_filter in H as [H _]. by apply H.
  - by apply follows_absent.
Qed.

Lemma watch_takes_each_price_once_witness :
  taken (managerStep
           (PushPriceUpdate "BTCUSD"
              (Some {| payload_price := Finite false 5 0; payload_ts := 0 |}) 9)
           (start 7%nat (Scenario.perform (Acquire 1%nat "btcusd") initial))).2
  = (taken (start 7%nat (Scenario.perform (Acquire 1%nat "btcusd") initial)).2
     + (if decide
             ("BTCUSD"
              ∈ subscribed
                  (start 7%nat
                     (Scenario.perform (Acquire 1%nat "btcusd") initial)).2)
        then 1 else 0))%nat.
Proof.
  apply (watch_takes_each_price_once "BTCUSD").
  - apply start_tracks. intros key Hin. vm_compute in Hin.
    by apply elem_of_nil in Hin.
  - reflexivity.
Defined.

(** *** The end of the stream *)

Lemma detachAll (h : Handler) (entries : list (string * Detach)) (m : State) :
  (∀ kv, kv ∈ entries →
     kv.2 = {| detach_key := topicKey kv.1; detach_handler := h |}) →
  (∀ key, registrations h key m = follows key entries.*1) →
  let m' := fold_left (λ m kv, runDetach kv.2 m) entries m in
  (∀ key, registrations h key m' = 0%nat)
  ∧ (∀ key, others h key m' = others h key m)
  ∧ pages m' = pages m ∧ refCounts m' = refCounts m.
Proof.
  revert m. induction entries as [|[t d] entries IH]; intros m Hent Hreg.
  - cbn. split; [|done]. intros key. by rewrite Hreg.
  - cbn zeta. cbn [fold_left snd].
    pose proof (Hent (t, d) ltac:(by left)) as Hd. cbn [fst snd] in Hd. subst d.
    assert (Hh : h ∈ listeners (topicKey t) m).
    { apply registered_elem. rewrite Hreg. unfold follows.
      rewrite fmap_cons, filter_cons, decide_True by done. cbn. lia. }
    set (m1 := runDetach {| detach_key := topicKey t; detach_handler := h |} m).
    assert (Hreg1 : ∀ key, registrations h key m1 = follows key entries.*1).
    { intros key. specialize (Hreg key). unfold m1, registrations, runDetach in *.
      cbn [detach_key detach_handler]. rewrite listeners_off.
      unfold follows in *. rewrite fmap_cons, filter_cons in Hreg. cbn [fst] in Hreg.
      destruct (decide (key = topicKey t)) as [->|Hne].
      - rewrite decide_True in Hreg by done. cbn [List.length] in Hreg.
        pose proof (removeLast_count _ _ Hh). lia.
      - by rewrite decide_False in Hreg by done. }
    destruct (IH m1) as (H1 & H2 & H3 & H4); [|done|].
    { intros kv Hkv. apply Hent. by right. }
    destruct (runDetach_registry {| detach_key := topicKey t; detach_handler := h |} m)
      as (E1 & E2 & _).
    fold m1 in E1, E2.
    split; [done|]. split; [|split; congruence].
    intros key. rewrite H2. unfold others, m1, runDetach.
    cbn [detach_key detach_handler]. rewrite listeners_off.
    case_decide; [|done]. subst key. apply removeLast_filter.
    intros H. by apply H.
Qed.

(** X25. When a [watchPrices] stream ends, its [finally] block removes
    every registration of its callback, whatever the order in which the
    entries of [offMap] are visited; the listeners of others, the pages and
    the reference counts stay as they are, and a pull that finds the queue
    empty afterwards returns [null]. *)
Theorem watch_end_detaches_all (entries : list (string * Detach))
    (mw : State * Stream) (key : string) :
  tracks mw →
  entries ≡ₚ map_to_list (offMap mw.2) →
  let mw' := watchFinally entries mw in
  registrations (onUpdate_id mw.2) key mw'.1 = 0%nat
  ∧ others (onUpdate_id mw.2) key mw'.1 = others (onUpdate_id mw.2) key mw.1
  ∧ pages mw'.1 = pages mw.1
  ∧ refCounts mw'.1 = refCounts mw.1
  ∧ subscribed mw'.2 = []
  ∧ (pending (queue mw.2) = [] → (tryDequeue mw'.2).1 = Ready None).
Proof.
  destruct mw as [m w]. intros (Hnd & Hdom & Hent & Hreg) Hperm.
  cbn [fst snd] in *. cbn zeta. unfold watchFinally. cbn [fst snd].
  destruct (detachAll (onUpdate_id w) entries m) as (H1 & H2 & H3 & H4).
  - intros [t d] Hkv. cbn [fst snd]. apply Hent.
    rewrite Hperm in Hkv. by apply elem_of_map_to_list in Hkv.
  - intros k. rewrite Hreg. unfold follows.
    apply Permutation_length. apply filter_Permutation.
    apply NoDup_Permutation; [done| |].
    + rewrite Hperm. apply NoDup_fst_map_to_list.
    + intros t. rewrite Hdom, Hperm. rewrite list_elem_of_fmap. split.
      * intros [d Hd]. exists (t, d). split; [done|].
        by apply elem_of_map_to_list.
      * intros [[t' d] [-> Hd]]. apply elem_of_map_to_list in Hd. by eexists.
  - split; [done|]. split; [done|]. split; [done|]. split; [done|].
    split; [done|]. intros Hp. unfold tryDequeue. cbn. by rewrite Hp.
Qed.

Lemma watch_end_detaches_all_witness :
  let mw := start 7%nat (Scenario.perform (Acquire 1%nat "btcusd") initial) in
  let mw' := watchFinally (map_to_list (offMap mw.2)) mw in
  registrations (onUpdate_id mw.2) "price-update:BTCUSD" mw'.1 = 0%nat
  ∧ others (onUpdate_id mw.2) "price-update:BTCUSD" mw'.1
    = others (onUpdate_id mw.2) "price-update:BTCUSD" mw.1
  ∧ pages mw'.1 = pages mw.1
  ∧ refCounts mw'.1 = refCounts mw.1
  ∧ subscribed mw'.2 = []
  ∧ (pending (queue mw.2) = [] → (tryDequeue mw'.2).1 = Ready None).
Proof.
  intros mw.
  apply (watch_end_detaches_all (map_to_list (offMap mw.2)) mw
           "price-update:BTCUSD").
  - apply start_tracks. intros key Hin. vm_compute in Hin.
    by apply elem_of_nil in Hin.
  - reflexivity.
Defined.

End WatchTracking.

(** ** The page of the web client *)

Section Page.

Import Manager Scenario Client Visits.

Lemma suggestEffect_fields (p : Page) :
  input (suggestEffect p) = input p
  ∧ tickers (suggestEffect p) = tickers p
  ∧ allowedPairs (suggestEffect p) = allowedPairs p
  ∧ client (suggestEffect p) = client p
  ∧ retryPending (suggestEffect p) = retryPending p
  ∧ connectionStatus (suggestEffect p) = connectionStatus p
  ∧ sent (suggestEffect p) = sent p.
Proof.
  unfold suggestEffect.
  destruct (_ && _)%nat; [|done].
  destruct (3 <=? _)%nat; [|done]. by destruct (includes _ _).
Qed.

Lemma render_fields (before after : Page) :
  input (render before after) = input after
  ∧ tickers (render before after) = tickers after
  ∧ allowedPairs (render before after) = allowedPairs after
  ∧ client (render before after) = client after
  ∧ retryPending (render before after) = retryPending after
  ∧ connectionStatus (render before after) = connectionStatus after
  ∧ sent (render before after) = sent after.
Proof.
  unfold render. case_decide; [done|]. apply suggestEffect_fields.
Qed.

Lemma send_fields (r : Request) (p : Page) :
  input (send r p) = input p
  ∧ tickers (send r p) = tickers p
  ∧ allowedPairs (send r p) = allowedPairs p
  ∧ client (send r p) = client p
  ∧ retryPending (send r p) = retryPending p
  ∧ suggestions (send r p) = suggestions p
  ∧ sent (send r p) = if client p then sent p ++ [r] else sent p.
Proof. unfold send. destruct (client p) eqn:E; cbn; by rewrite ?E. Qed.

Lemma some_rows (sym : string) (l : list TickerItem) :
  existsb (λ t, bool_decide (symbol t = sym)) l = true ↔ sym ∈ map symbol l.
Proof.
  induction l as [|t l IH]; cbn [existsb map].
  - split; [done|]. intros H. by apply elem_of_nil in H.
  - rewrite orb_true_iff, IH, elem_of_cons, bool_decide_eq_true.
    split; intros [?|?]; auto.
Qed.

Lemma rows_filter (sym : string) (l : list TickerItem) :
  map symbol (filter (λ t, symbol t ≠ sym) l)
  = filter (λ s, s ≠ sym) (map symbol l).
Proof.
  induction l as [|t l IH]; [done|].
  cbn [map]. rewrite !filter_cons.
  destruct (decide (symbol t ≠ sym)); cbn [map]; by rewrite IH.
Qed.

Lemma rows_priced (ticker : string) (value : Num.number) (l : list TickerItem) :
  map symbol
    (map (λ t, if decide (symbol t = ticker)
               then {| symbol := symbol t; price := Some value |} else t) l)
  = map symbol l.
Proof.
  induction l as [|t l IH]; [done|]. cbn [map]. rewrite IH. f_equal.
  by case_decide.
Qed.

Lemma normalized_idem (s : string) : normalized (normalized s) = normalized s.
Proof. apply normalize_idem. Qed.

(** What an event does to the rows and to the log of requests. *)
Lemma handle_rows (e : Event) (p : Page) :
  allowedPairs (handle e p) = allowedPairs p
  ∧ ((rows (handle e p) = rows p
      ∧ (sent (handle e p) = sent p
         ∨ e = RetryTimer ∧ retryPending p = true))
     ∨ (∃ sym, rows (handle e p) = rows p ++ [sym]
               ∧ (sym ∉ rows p) ∧ sym ∈ allowedPairs p
               ∧ normalized sym = sym ∧ sym ≠ ""
               ∧ sent (handle e p)
                 = if client p then sent p ++ [SubscribeRequest [sym]]
                   else sent p)
     ∨ (∃ sym, rows (handle e p) = filter (λ s, s ≠ sym) (rows p)
               ∧ sym ∈ rows p
               ∧ sent (handle e p)
                 = if client p then sent p ++ [UnsubscribeRequest [sym]]
                   else sent p)).
Proof.
  assert (Hadd : allowedPairs (addTicker p) = allowedPairs p
    ∧ ((rows (addTicker p) = rows p
        ∧ (sent (addTicker p) = sent p
           ∨ e = RetryTimer ∧ retryPending p = true))
       ∨ (∃ sym, rows (addTicker p) = rows p ++ [sym]
               ∧ (sym ∉ rows p) ∧ sym ∈ allowedPairs p
               ∧ normalized sym = sym ∧ sym ≠ ""
               ∧ sent (addTicker p)
                 = if client p then sent p ++ [SubscribeRequest [sym]]
                   else sent p)
       ∨ (∃ sym, rows (addTicker p) = filter (λ s, s ≠ sym) (rows p)
               ∧ sym ∈ rows p
               ∧ sent (addTicker p)
                 = if client p then sent p ++ [UnsubscribeRequest [sym]]
                   else sent p))).
  { unfold addTicker. set (sym := normalized (input p)).
    destruct (decide (sym = "")) as [|Hne]; [split; [done|]; left; auto|].
    destruct (includes sym (allowedPairs p)) eqn:Hinc; cbn [negb];
      [|split; [done|]; left; auto].
    apply bool_decide_eq_true in Hinc.
    destruct (existsb _ (tickers p)) eqn:Hex.
    - destruct (render_fields p (clearInput p)) as (_ & E2 & E3 & _ & _ & _ & E7).
      split; [by rewrite E3|]. left. unfold rows. rewrite E2, E7. auto.
    - assert (Hfresh : sym ∉ rows p).
      { intros Hin. apply some_rows in Hin. congruence. }
      set (p1 := upd_tickers _ p).
      destruct (render_fields p (clearInput p1)) as (_ & E2 & E3 & E4 & _ & _ & E7).
      destruct (send_fields (SubscribeRequest [sym]) (render p (clearInput p1)))
        as (_ & F2 & F3 & _ & _ & _ & F7).
      split; [by rewrite F3, E3|]. right. left. exists sym.
      unfold rows. rewrite F2, E2, F7, E4, E7. cbn [clearInput].
      split; [|split; [done|split; [done|split; [apply normalized_idem|done]]]].
      unfold p1. cbn. by rewrite map_app. }
  destruct e as [value| | | | | |index|index|ticker value| |]; cbn [handle].
  - unfold onChange.
    destruct (render_fields p (upd_input value p)) as (_ & E2 & E3 & _ & _ & _ & E7).
    split; [by rewrite E3|]. left. unfold rows. rewrite E2, E7. auto.
  - destruct (validationError p); [split; [done|]; left; auto|exact Hadd].
  - split; [done|]. left. auto.
  - destruct (0 <? _)%nat; split; try done; left; auto.
  - split; [done|]. left. auto.
  - destruct (_ || _); [split; [done|]; left; auto|exact Hadd].
  - destruct (_ && _)%nat; [|split; [done|]; left; auto].
    destruct (suggestions p !! index) as [s|]; [|split; [done|]; left; auto].
    unfold selectSuggestion.
    match goal with |- context [render p ?a] =>
      destruct (render_fields p a) as (_ & E2 & E3 & _ & _ & _ & E7) end.
    split; [by rewrite E3|]. left. unfold rows. rewrite E2, E7. auto.
  - destruct (tickers p !! index) as [t|] eqn:Ht; [|split; [done|]; left; auto].
    unfold removeTicker.
    match goal with |- context [send ?r ?a] =>
      destruct (send_fields r a) as (_ & F2 & F3 & F4 & _ & _ & F7) end.
    split; [by rewrite F3|]. right. right. exists (symbol t).
    unfold rows. rewrite F2, F7. cbn. rewrite rows_filter.
    split; [done|]. split; [|done].
    apply list_elem_of_fmap. exists t. split; [done|].
    by apply list_elem_of_lookup_2 in Ht.
  - destruct (bool_decide _); [|split; [done|]; left; auto].
    split; [done|]. left. unfold rows, onResponse. cbn.
    rewrite rows_priced. auto.
  - destruct (bool_decide _); split; try done; left; auto.
  - destruct (retryPending p) eqn:Hr; [|split; [done|]; left; auto].
    unfold retry. destruct (_ && _ && _).
    + match goal with |- context [send ?r ?a] =>
        destruct (send_fields r a) as (_ & F2 & F3 & _ & _ & _ & _) end.
      split; [by rewrite F3|]. left. unfold rows. rewrite F2. auto.
    + split; [done|]. left. auto.
Qed.

Lemma run_rows (pairs : list string) (events : list Event) :
  allowedPairs (Client.run events (mounted pairs)) = pairs
  ∧ NoDup (rows (Client.run events (mounted pairs)))
  ∧ ∀ sym, sym ∈ rows (Client.run events (mounted pairs)) →
      sym ∈ pairs ∧ normalized sym = sym ∧ sym ≠ "".
Proof.
  induction events as [|e events IH] using rev_ind.
  - split; [done|]. split; [apply NoDup_nil_2|].
    intros sym H. by apply elem_of_nil in H.
  - unfold Client.run in *. rewrite fold_left_app. cbn [fold_left].
    set (p := fold_left _ events _) in *. destruct IH as (Ha & Hnd & Hin).
    destruct (handle_rows e p) as (Ha' & [[Hr _]|[(s & Hr & Hf & Hs & Hn & He & _)
                                           |(s & Hr & _)]]).
    + rewrite Ha', Hr. auto.
    + rewrite Ha', Hr. split; [done|]. split.
      * apply NoDup_app. split; [done|]. split; [|apply NoDup_singleton].
        intros x Hx Hx'. apply list_elem_of_singleton in Hx'. congruence.
      * intros sym Hsym. apply elem_of_app in Hsym as [Hsym|Hsym]; [auto|].
        apply list_elem_of_singleton in Hsym. rewrite Hsym.
        split; [|done]. by rewrite <- Ha.
    + rewrite Ha', Hr. split; [done|]. split; [by apply NoDup_filter|].
      intros sym Hsym. apply list_elem_of_filter in Hsym as [_ Hsym]. auto.
Qed.

(** X26. Whatever the user, the stream and the timers do, the rows of the
    page show no symbol twice, and every symbol shown is a member of the
    list of allowed pairs, is not empty and is in normal form (trimmed,
    in upper case): a pair of the list that is not in normal form can never
    be added. *)
Theorem page_rows_distinct_and_allowed (pairs : list string)
    (events : list Event) (sym : string) :
  let p := Client.run events (mounted pairs) in
  NoDup (rows p)
  ∧ (sym ∈ rows p → sym ∈ pairs ∧ normalized sym = sym ∧ sym ≠ "").
Proof.
  cbn zeta. destruct (run_rows pairs events) as (_ & Hnd & Hin). auto.
Qed.

Lemma page_rows_distinct_and_allowed_witness :
  let events := [Client.Change " btcusd"; Client.KeyEnter;
                 Client.Change "BTCUSD"; Client.ClickAdd;
                 Client.Change "ethusd"; Client.KeyEnter] in
  let p := Client.run events (Client.mounted Client.fallbackPairs) in
  NoDup (Visits.rows p)
  ∧ ("ETHUSD" ∈ Visits.rows p →
     "ETHUSD" ∈ Client.fallbackPairs
     ∧ Client.normalized "ETHUSD" = "ETHUSD" ∧ "ETHUSD" ≠ "").
Proof.
  intros events.
  exact (page_rows_distinct_and_allowed Client.fallbackPairs events "ETHUSD").
Defined.

(** *** The suggestions *)

Lemma suggestEffect_suggestions (p : Page) (s : string) :
  (List.length (suggestions (suggestEffect p)) ≤ 5)%nat
  ∧ (s ∈ suggestions (suggestEffect p) →
     s ∈ allowedPairs p ∧ String.prefix (normalized (input p)) s = true).
Proof.
  unfold suggestEffect.
  set (matches := take 5 (filter _ (allowedPairs p))).
  assert (Hm : (List.length matches ≤ 5)%nat
               ∧ (s ∈ matches → s ∈ allowedPairs p
                  ∧ String.prefix (normalized (input p)) s = true)).
  { split; [unfold matches; rewrite length_take; lia|].
    intros Hs. apply subseteq_take in Hs.
    apply list_elem_of_filter in Hs. tauto. }
  assert (Hn : (List.length (@nil string) ≤ 5)%nat
               ∧ (s ∈ @nil string → s ∈ allowedPairs p
                  ∧ String.prefix (normalized (input p)) s = true)).
  { split; [cbn; lia|]. intros H. by apply elem_of_nil in H. }
  destruct (_ && _)%nat; [|exact Hn].
  destruct (3 <=? _)%nat; [|exact Hm]. by destruct (includes _ _).
Qed.

(** X27. The suggestions of the page are at most five, and each of them is
    an allowed pair that starts with the normal form of what the input
    holds now, whatever has been typed, selected, added or removed
    before. *)
Theorem page_suggestions_match_input (pairs : list string)
    (events : list Event) (s : string) :
  let p := Client.run events (mounted pairs) in
  (List.length (suggestions p) ≤ 5)%nat
  ∧ (s ∈ suggestions p →
     s ∈ pairs ∧ String.prefix (normalized (input p)) s = true).
Proof.
  cbn zeta. revert s.
  assert (H : allowedPairs (Client.run events (mounted pairs)) = pairs
            ∧ ∀ s, (List.length (suggestions (Client.run events (mounted pairs))) ≤ 5)%nat
                ∧ (s ∈ suggestions (Client.run events (mounted pairs)) →
                   s ∈ pairs
                   ∧ String.prefix
                       (normalized (input (Client.run events (mounted pairs)))) s
                     = true)).
  { induction events as [|e events IH] using rev_ind.
    - split; [done|]. intros s. split; [cbn; lia|].
      intros H. by apply elem_of_nil in H.
    - unfold Client.run in *. rewrite fold_left_app. cbn [fold_left].
      set (p := fold_left _ events _) in *. destruct IH as (Ha & IH).
      split; [by destruct (handle_rows e p) as [-> _]|].
      assert (Hrender : ∀ a,
                allowedPairs a = pairs →
                (input a = input p → suggestions a = suggestions p) →
                ∀ s, (List.length (suggestions (render p a)) ≤ 5)%nat
                  ∧ (s ∈ suggestions (render p a) →
                     s ∈ pairs
                     ∧ String.prefix (normalized (input (render p a))) s = true)).
      { intros a Haa Hsame s. unfold render.
        destruct (decide (input a = input p)) as [Heq|Hne].
        - rewrite (Hsame Heq), Heq. apply IH.
        - destruct (suggestEffect_fields a) as (-> & _).
          rewrite <- Haa. apply suggestEffect_suggestions. }
      assert (Hadd : ∀ s,
                (List.length (suggestions (addTicker p)) ≤ 5)%nat
                ∧ (s ∈ suggestions (addTicker p) →
                   s ∈ pairs
                   ∧ String.prefix (normalized (input (addTicker p))) s = true)).
      { unfold addTicker. destruct (decide _); [apply IH|].
        destruct (negb _); [apply IH|].
        destruct (existsb _ _); [by apply Hrender|].
        intros s.
        match goal with |- context [send ?r ?a] =>
          destruct (send_fields r a) as (-> & _ & _ & _ & _ & -> & _) end.
        by apply Hrender. }
      destruct e as [value| | | | | |index|index|ticker value| |]; cbn [handle].
      + unfold onChange. by apply Hrender.
      + destruct (validationError p); [apply IH|apply Hadd].
      + apply IH.
      + destruct (0 <? _)%nat; apply IH.
      + apply IH.
      + destruct (_ || _); [apply IH|apply Hadd].
      + destruct (_ && _)%nat; [|apply IH].
        destruct (suggestions p !! index) as [x|]; [|apply IH].
        unfold selectSuggestion. by apply Hrender.
      + destruct (tickers p !! index) as [t|]; [|apply IH].
        unfold removeTicker. intros s.
        match goal with |- context [send ?r ?a] =>
          destruct (send_fields r a) as (-> & _ & _ & _ & _ & -> & _) end.
        apply IH.
      + destruct (bool_decide _); apply IH.
      + destruct (bool_decide _); apply IH.
      + destruct (retryPending p); [|apply IH]. unfold retry.
        destruct (_ && _ && _); [|apply IH]. intros s.
        match goal with |- context [send ?r ?a] =>
          destruct (send_fields r a) as (-> & _ & _ & _ & _ & -> & _) end.
        apply IH. }
  intros s. destruct H as [_ H]. apply H.
Qed.

Lemma page_suggestions_match_input_witness :
  let events := [Client.Change " btcusd"; Client.KeyEnter;
                 Client.Change "e"; Client.Change "et"] in
  let p := Client.run events (Client.mounted Client.fallbackPairs) in
  (List.length (Client.suggestions p) ≤ 5)%nat
  ∧ ("ETHUSD" ∈ Client.suggestions p →
     "ETHUSD" ∈ Client.fallbackPairs
     ∧ String.prefix (Client.normalized (Client.input p)) "ETHUSD" = true).
Proof.
  intros events.
  exact (page_suggestions_match_input Client.fallbackPairs events "ETHUSD").
Defined.

(** *** The page and the server *)

Lemma serve_subscribe_one (c : Caller) (sym : string)
    (sc : State * gmap string (gset string)) :
  normalized sym = sym → sym ≠ "" →
  (serve c (SubscribeRequest [sym]) sc).1 = perform (Acquire c sym) sc.1.
Proof.
  intros Hn Hne. destruct sc as [s conns]. unfold serve, Handlers.subscribe.
  unfold Handlers.subscribeLoop. cbn [fold_left fst snd].
  change (Text.normalize sym) with (normalized sym). rewrite Hn.
  by rewrite decide_False by done.
Qed.

Lemma serve_unsubscribe_one (c : Caller) (sym : string)
    (sc : State * gmap string (gset string)) :
  normalized sym = sym → sym ≠ "" →
  (serve c (UnsubscribeRequest [sym]) sc).1 = perform (Release c sym) sc.1.
Proof.
  intros Hn Hne. destruct sc as [s conns]. unfold serve, Handlers.unsubscribe.
  cbn [fold_left fst snd]. unfold Handlers.unsubscribeTurn.
  change (Text.normalize sym) with (normalized sym). rewrite Hn.
  by rewrite decide_False by done.
Qed.

(** X28. The page and the server together, while the stream of the page
    does not fail: when the server handles each request of the page to its
    end before the next event, with opens that succeed, then after any
    events of the page the manager holds one reference more than at the
    start for each symbol that has a row, and none more for any other
    symbol; pages and counts stay in step. *)
Theorem page_rows_hold_one_reference_each (c : Caller) (pairs : list string)
    (events : list Event) (m0 : State) (conns : gmap string (gset string))
    (sym : string) :
  (∀ t, 0 ≤ refCount t m0) →
  Forall (λ e, e ≠ StreamFails) events →
  let r := visit c events (mounted pairs, (m0, conns)) in
  r.1 = Client.run events (mounted pairs)
  ∧ refCount sym r.2.1
    = refCount sym m0 + (if decide (sym ∈ rows r.1) then 1 else 0)
  ∧ (consistent m0 → consistent r.2.1).
Proof.
  intros H0 Hev. cbn zeta. revert sym.
  assert (H : let r := visit c events (mounted pairs, (m0, conns)) in
            r.1 = Client.run events (mounted pairs)
            ∧ client r.1 = true ∧ retryPending r.1 = false
            ∧ (∀ sym, refCount sym r.2.1
                 = refCount sym m0 + (if decide (sym ∈ rows r.1) then 1 else 0))
            ∧ (consistent m0 → consistent r.2.1)).
  { induction events as [|e events IH] using rev_ind.
    { cbn. split; [done|]. split; [done|]. split; [done|]. split; [|done].
      intros sym. rewrite decide_False; [lia|].
      intros H. by apply elem_of_nil in H. }
    apply Forall_app in Hev as [Hev He]. apply Forall_inv in He.
    specialize (IH Hev). cbn zeta in IH. destruct IH as (Hrun & Hcl & Hrp & Hcnt & Hcons).
    cbn zeta. unfold visit, Client.run in *. rewrite !fold_left_app. cbn [fold_left].
    set (ps := fold_left _ events (mounted pairs, (m0, conns))) in *.
    rewrite <- Hrun. unfold visitStep. cbn [fst snd].
    destruct (run_rows pairs events) as (_ & _ & Hrows).
    unfold Client.run in Hrows. rewrite <- Hrun in Hrows.
    assert (Hcl' : client (handle e ps.1) = true
                   ∧ retryPending (handle e ps.1) = false).
    { clear Hrows Hcnt Hcons.
      destruct e as [value| | | | | |index|index|ticker value| |]; cbn [handle];
        try done.
      - unfold onChange.
        by destruct (render_fields ps.1 (upd_input value ps.1))
          as (_ & _ & _ & -> & -> & _).
      - destruct (validationError ps.1); [done|]. unfold addTicker.
        destruct (decide _); [done|]. destruct (negb _); [done|].
        destruct (existsb _ _).
        + by destruct (render_fields ps.1 (clearInput ps.1))
            as (_ & _ & _ & -> & -> & _).
        + match goal with |- context [send ?r ?a] =>
            destruct (send_fields r a) as (_ & _ & _ & -> & -> & _) end.
          match goal with |- context [render ps.1 ?a] =>
            by destruct (render_fields ps.1 a) as (_ & _ & _ & -> & -> & _) end.
      - by destruct (0 <? _)%nat.
      - destruct (_ || _); [done|]. unfold addTicker.
        destruct (decide _); [done|]. destruct (negb _); [done|].
        destruct (existsb _ _).
        + by destruct (render_fields ps.1 (clearInput ps.1))
            as (_ & _ & _ & -> & -> & _).
        + match goal with |- context [send ?r ?a] =>
            destruct (send_fields r a) as (_ & _ & _ & -> & -> & _) end.
          match goal with |- context [render ps.1 ?a] =>
            by destruct (render_fields ps.1 a) as (_ & _ & _ & -> & -> & _) end.
      - destruct (_ && _)%nat; [|done].
        destruct (suggestions ps.1 !! index); [|done]. unfold selectSuggestion.
        match goal with |- context [render ps.1 ?a] =>
          by destruct (render_fields ps.1 a) as (_ & _ & _ & -> & -> & _) end.
      - destruct (tickers ps.1 !! index); [|done]. unfold removeTicker.
        match goal with |- context [send ?r ?a] =>
          by destruct (send_fields r a) as (_ & _ & _ & -> & -> & _) end.
      - by destruct (bool_decide _).
      - by rewrite Hrp. }
    destruct Hcl' as [Hcl1 Hrp1].
    split; [done|]. split; [done|]. split; [done|].
    destruct (handle_rows e ps.1)
      as (_ & [[Hr [Hs|[_ Hs]]]|[(s & Hr & Hf & Hs & Hn & Hne & Hsent)
                                  |(s & Hr & Hin & Hsent)]]).
    - rewrite Hs, drop_ge by lia. cbn [fold_left]. rewrite Hr. auto.
    - congruence.
    - rewrite Hsent, Hcl, drop_app_length. cbn [fold_left].
      rewrite serve_subscribe_one by done. split.
      + intros sym. rewrite perform_refCount, Hcnt, Hr. cbn [opSymbol clampStep].
        change (Text.normalize s) with (normalized s). rewrite Hn.
        destruct (decide (s = sym)) as [<-|Hd].
        * rewrite decide_False by done.
          rewrite decide_True by (apply elem_of_app; right; by left). lia.
        * destruct (decide (sym ∈ rows ps.1)) as [Hi|Hi].
          -- by rewrite decide_True by (apply elem_of_app; by left).
          -- rewrite decide_False; [done|]. intros Hx.
             apply elem_of_app in Hx as [Hx|Hx]; [done|].
             apply list_elem_of_singleton in Hx. congruence.
      + intros Hm0. by apply perform_consistent, Hcons.
    - destruct (Hrows s Hin) as (_ & Hn & Hne).
      rewrite Hsent, Hcl, drop_app_length. cbn [fold_left].
      rewrite serve_unsubscribe_one by done. split.
      + intros sym. rewrite perform_refCount, Hcnt, Hr. cbn [opSymbol clampStep].
        change (Text.normalize s) with (normalized s). rewrite Hn.
        destruct (decide (s = sym)) as [<-|Hd].
        * rewrite decide_True by done. rewrite decide_False.
          -- specialize (H0 s). lia.
          -- intros Hx. apply list_elem_of_filter in Hx as [Hx _]. by apply Hx.
        * destruct (decide (sym ∈ rows ps.1)) as [Hi|Hi].
          -- rewrite decide_True; [done|]. apply list_elem_of_filter.
             split; [|done]. by intros ->.
          -- rewrite decide_False; [done|]. intros Hx.
             apply list_elem_of_filter in Hx as [_ Hx]. done.
      + intros Hm0. by apply perform_consistent, Hcons. }
  intros sym. cbn zeta in H. destruct H as (H1 & _ & _ & H2 & H3). auto.
Qed.

Lemma page_rows_hold_one_reference_each_witness :
  let events := [Change " btcusd"; KeyEnter; Change "eth"; ClickSuggestion 0;
                 ClickAdd; ClickRemove 0] in
  let r := visit 1%nat events (mounted fallbackPairs, (initial, ∅)) in
  r.1 = Client.run events (mounted fallbackPairs)
  ∧ refCount "ETHUSD" r.2.1
    = refCount "ETHUSD" initial
      + (if decide ("ETHUSD" ∈ rows r.1) then 1 else 0)
  ∧ (consistent initial → consistent r.2.1).
Proof.
  intros events.
  apply (page_rows_hold_one_reference_each 1%nat fallbackPairs events initial ∅
           "ETHUSD").
  - intros t. by vm_compute.
  - repeat constructor; discriminate.
Defined.

End Page.
